(** * SupaSimpleSocket: the connection lifecycle engine of [src/index.ts]

    A shallow embedding of the three classes of [src/index.ts]
    ([EventBus], [ConnectionManager], [SupaSocket]) as functions of a
    state-and-exception monad over the fields of a [SupaSocket] instance,
    then the vocabulary of the statements, then the properties of the
    session state, the reconnection controller, [send] and the outbound
    queue, the heartbeat pong filter and the event dispatcher.

    Conventions.
    - A JavaScript [number] that is a duration or a count limit is a
      rational ([Q]); the backoff product is kept in lowest terms ([Qred]),
      so that equal delays are equal terms.  Numbers inside payloads are
      integers.
    - A field of the options that may be missing is an [option]; a missing
      callback is [None].
    - User supplied functions (listeners, [onOpen], ...) are opaque: a call
      is recorded in the trace and either returns or throws, as the host
      decides from the number of earlier calls of that function.  They do
      not call back into the instance.
    - [JSON.parse], [JSON.stringify], the [WebSocket] constructor and
      [WebSocket.send] belong to the host and are parameters.
    - A transport event changes the [readyState] of the socket held in
      [this.ws]; when [this.ws] is [null] the event is that of a socket the
      instance has dropped, and only its handler runs.  [sendFile] and
      logging are left out. *)

From Stdlib Require Import List String Ascii Bool Arith ZArith QArith Qminmax Lia.
From Stdlib Require Import RelationClasses Lqa Qround Sorted.
From Stdlib Require Import Strings.Byte DecimalString.
Import ListNotations.

Set Implicit Arguments.

(** ** JavaScript values *)

#[local] Set Warnings "-register-all".

Inductive JsValue : Type :=
| VUndefined
| VNull
| VBool (b : bool)
| VNum (n : Z)
| VStr (s : string)
| VBinary (bytes : list byte)                    (* ArrayBuffer | Blob *)
| VObj (fields : list (string * JsValue)).       (* own enumerable properties *)

Inductive JsType := TUndefined | TObject | TBoolean | TNumber | TString.

Definition typeof (v : JsValue) : JsType :=
  match v with
  | VUndefined => TUndefined
  | VNull => TObject
  | VBool _ => TBoolean
  | VNum _ => TNumber
  | VStr _ => TString
  | VBinary _ => TObject
  | VObj _ => TObject
  end.

Definition is_string (v : JsValue) : bool :=
  match v with VStr _ => true | _ => false end.

Definition is_object_type (v : JsValue) : bool :=
  match typeof v with TObject => true | _ => false end.

(** ToBoolean: what [if (v)], [!v] and [v && ...] test. *)
Definition truthy (v : JsValue) : bool :=
  match v with
  | VUndefined | VNull => false
  | VBool b => b
  | VNum n => negb (n =? 0)%Z
  | VStr s => negb (s =? "")%string
  | VBinary _ | VObj _ => true
  end.

(** [a === b].  Two objects are equal only when they are the same object;
    the values compared here never alias (one side is fresh from the
    transport or from [JSON.parse]), so objects compare unequal. *)
Definition strict_eq (a b : JsValue) : bool :=
  match a, b with
  | VUndefined, VUndefined => true
  | VNull, VNull => true
  | VBool x, VBool y => Bool.eqb x y
  | VNum x, VNum y => (x =? y)%Z
  | VStr x, VStr y => (x =? y)%string
  | _, _ => false
  end.

Definition is_undefined (v : JsValue) : bool :=
  match v with VUndefined => true | _ => false end.

Definition is_null (v : JsValue) : bool :=
  match v with VNull => true | _ => false end.

Fixpoint lookup_field (k : string) (fields : list (string * JsValue)) : option JsValue :=
  match fields with
  | [] => None
  | (k', v) :: rest => if (k' =? k)%string then Some v else lookup_field k rest
  end.

Definition index_key (i : nat) : string := NilEmpty.string_of_uint (Nat.to_uint i).

(** [s[k]] for a string primitive: its length and its characters. *)
Definition string_prop (s : string) (k : string) : JsValue :=
  if (k =? "length")%string then VNum (Z.of_nat (String.length s))
  else match find (fun i => (index_key i =? k)%string) (seq 0 (String.length s)) with
       | Some i => VStr (substring i 1 s)
       | None => VUndefined
       end.

Inductive Exn :=
| TypeError | SyntaxError | InvalidAccessError | SendFailure | ConstructFailure
| UserThrow (f : nat)
| ClosedError.                                   (* new Error('连接已关闭') *)

Inductive Outcome (A : Type) : Type :=
| Returned (a : A)
| Thrown (e : Exn).
Arguments Returned {A} a.
Arguments Thrown {A} e.

(** [data[key]]: a [TypeError] on [undefined] and [null]; members inherited
    from built-in prototypes are not modelled. *)
Definition get_prop (data : JsValue) (key : string) : Outcome JsValue :=
  match data with
  | VUndefined | VNull => Thrown TypeError
  | VBool _ | VNum _ | VBinary _ => Returned VUndefined
  | VStr s => Returned (string_prop s key)
  | VObj fields =>
      match lookup_field key fields with
      | Some v => Returned v
      | None => Returned VUndefined
      end
  end.

(** [Object.keys(v)] of a value that is truthy and of type object. *)
Definition object_keys (v : JsValue) : list string :=
  match v with
  | VObj fields => map fst fields
  | _ => []
  end.

(** What the transport carries: text or binary. *)
Inductive Message :=
| MText (s : string)
| MBinary (bytes : list byte).

Definition message_value (m : Message) : JsValue :=
  match m with
  | MText s => VStr s
  | MBinary b => VBinary b
  end.

(** ** Numbers of the configuration *)

(** [x || d] for an optional number: [undefined] and [0] give the default. *)
Definition or_default (x : option Q) (d : Q) : Q :=
  match x with
  | Some v => if Qeq_bool v 0 then d else v
  | None => d
  end.

(** [x && x > 0]: the number when the test passes. *)
Definition positive (x : option Q) : option Q :=
  match x with
  | Some v => if Qle_bool v 0 then None else Some v
  | None => None
  end.

(** [Math.pow(base, n)] for a natural exponent. *)
Fixpoint Math_pow (base : Q) (n : nat) : Q :=
  match n with
  | O => 1
  | S n' => base * Math_pow base n'
  end.

(** ** Types of [src/index.ts] *)

Inductive ConnectionState := CONNECTING | OPEN | CLOSING | CLOSED | RECONNECTING.

Definition state_eqb (a b : ConnectionState) : bool :=
  match a, b with
  | CONNECTING, CONNECTING | OPEN, OPEN | CLOSING, CLOSING
  | CLOSED, CLOSED | RECONNECTING, RECONNECTING => true
  | _, _ => false
  end.

(** [WebSocket.readyState] *)
Inductive ReadyState := WS_CONNECTING | WS_OPEN | WS_CLOSING | WS_CLOSED.

Record SupaSocketOptions := {
  url : string;
  reconnectLimit : option Q;
  reconnectInterval : option Q;
  heartbeatInterval : option Q;
  heartbeatTimeout : option Q;
  autoReconnect : bool;
  onOpen : option nat;
  onClose : option nat;
  onError : option nat;
  onStatusChange : option nat;
  pingMessage : JsValue;
  pongMessage : JsValue;
  autoParseMessage : bool;
  maxReconnectDelay : option Q;
  retryOnError : bool;
  connectionTimeout : option Q
}.

Inductive DomEvent :=
| OpenEvent
| CloseEvent (code : Z) (reason : string)
| ErrorEvent.

Inductive ErrorKind := sendError | messageError | initError.

(** What is handed to listeners and callbacks. *)
Inductive Payload :=
| PData (data : JsValue)
| PEvent (event : DomEvent)
| PStatusChange (newState oldState : ConnectionState)
| PConnectionTimeout (target : string) (timeout : option Q)
| PHeartbeatTimeout (time : Z)
| PReconnectFailed (attempts : nat) (limit : option Q)
| PReconnecting (attempt : nat) (limit : option Q) (delay : Q)
| PError (kind : ErrorKind) (error : Exn) (data : option JsValue).

(** A key of the [events] map.  Listeners are registered under names; a
    publish under [data.type] uses whatever truthy value that field holds. *)
Inductive EventKey :=
| Named (name : string)
| Keyed (v : JsValue).

Definition key_of (v : JsValue) : EventKey :=
  match v with
  | VStr s => Named s
  | _ => Keyed v
  end.

(** A registered listener: a user function, or the closure [onceCallback]
    that [once] builds around one (each closure is a new object: [w]). *)
Inductive Listener :=
| UserListener (f : nat)
| OnceListener (w : nat) (event : string) (f : nat).

Definition listener_eqb (a b : Listener) : bool :=
  match a, b with
  | UserListener f, UserListener g => f =? g
  | OnceListener w _ _, OnceListener w' _ _ => w =? w'
  | _, _ => false
  end.

(** [EventBus.events]: a [Map] in insertion order. *)
Definition EventBus := list (string * list Listener).

Inductive StatusChangeCallback :=
| EngineObserver                                 (* the closure of the constructor *)
| UserObserver (f : nat).

Record ConnectionManager := {
  _state : ConnectionState;
  statusChangeCallbacks : list StatusChangeCallback
}.

Inductive TimerKind :=
| ConnectionTimeoutT | HeartbeatIntervalT | HeartbeatTimeoutT | ReconnectDelayT.

Record Timer := { tid : nat; kind : TimerKind; delay : Q }.

(** What the instance does to its surroundings, in order. *)
Inductive Obs :=
| Called (f : nat) (arg : Payload)               (* a user function is entered *)
| Notified (cb : StatusChangeCallback) (newState oldState : ConnectionState)
| Published (event : EventKey) (data : Payload)  (* eventBus.emit *)
| Sent (m : Message)                             (* ws.send returned *)
| WsCreated (target : string)                    (* new WebSocket(url) *)
| WsClose (code : option Z) (reason : option string)
| TimerSet (kind : TimerKind) (id : nat) (delay : Q)
| TimerCleared (id : nat).

Record SupaSocket := {
  ws : option ReadyState;
  reconnectCount : nat;
  heartbeatTimer : option nat;
  heartbeatTimeoutTimer : option nat;
  connectionTimeoutTimer : option nat;
  connectionManager : ConnectionManager;
  eventBus : EventBus;
  messageQueue : list JsValue;
  lastMessageTime : Z;
  explicitClose : bool;
  currentBackoff : nat;
  options : SupaSocketOptions;
  (* the host: live timers, next fresh identity, what happened so far *)
  timers : list Timer;
  nextId : nat;
  trace : list Obs
}.

(** The collaborators the engine does not implement. *)
Record Host := {
  JSON_parse : string -> option JsValue;         (* None: throws SyntaxError *)
  JSON_stringify : JsValue -> option string;     (* None: throws *)
  construct_throws : string -> bool;             (* new WebSocket(url) throws *)
  send_throws : Message -> bool;                 (* ws.send(m) throws *)
  fn_throws : nat -> nat -> bool                 (* user function, earlier calls *)
}.

(** ** Field updates *)

Definition set_ws x (s : SupaSocket) : SupaSocket :=
  {| ws := x; reconnectCount := reconnectCount s;
     heartbeatTimer := heartbeatTimer s;
     heartbeatTimeoutTimer := heartbeatTimeoutTimer s;
     connectionTimeoutTimer := connectionTimeoutTimer s;
     connectionManager := connectionManager s; eventBus := eventBus s;
     messageQueue := messageQueue s; lastMessageTime := lastMessageTime s;
     explicitClose := explicitClose s; currentBackoff := currentBackoff s;
     options := options s; timers := timers s; nextId := nextId s;
     trace := trace s |}.

Definition set_reconnectCount x (s : SupaSocket) : SupaSocket :=
  {| ws := ws s; reconnectCount := x; heartbeatTimer := heartbeatTimer s;
     heartbeatTimeoutTimer := heartbeatTimeoutTimer s;
     connectionTimeoutTimer := connectionTimeoutTimer s;
     connectionManager := connectionManager s; eventBus := eventBus s;
     messageQueue := messageQueue s; lastMessageTime := lastMessageTime s;
     explicitClose := explicitClose s; currentBackoff := currentBackoff s;
     options := options s; timers := timers s; nextId := nextId s;
     trace := trace s |}.

Definition set_heartbeatTimer x (s : SupaSocket) : SupaSocket :=
  {| ws := ws s; reconnectCount := reconnectCount s; heartbeatTimer := x;
     heartbeatTimeoutTimer := heartbeatTimeoutTimer s;
     connectionTimeoutTimer := connectionTimeoutTimer s;
     connectionManager := connectionManager s; eventBus := eventBus s;
     messageQueue := messageQueue s; lastMessageTime := lastMessageTime s;
     explicitClose := explicitClose s; currentBackoff := currentBackoff s;
     options := options s; timers := timers s; nextId := nextId s;
     trace := trace s |}.

Definition set_heartbeatTimeoutTimer x (s : SupaSocket) : SupaSocket :=
  {| ws := ws s; reconnectCount := reconnectCount s;
     heartbeatTimer := heartbeatTimer s; heartbeatTimeoutTimer := x;
     connectionTimeoutTimer := connectionTimeoutTimer s;
     connectionManager := connectionManager s; eventBus := eventBus s;
     messageQueue := messageQueue s; lastMessageTime := lastMessageTime s;
     explicitClose := explicitClose s; currentBackoff := currentBackoff s;
     options := options s; timers := timers s; nextId := nextId s;
     trace := trace s |}.

Definition set_connectionTimeoutTimer x (s : SupaSocket) : SupaSocket :=
  {| ws := ws s; reconnectCount := reconnectCount s;
     heartbeatTimer := heartbeatTimer s;
     heartbeatTimeoutTimer := heartbeatTimeoutTimer s;
     connectionTimeoutTimer := x; connectionManager := connectionManager s;
     eventBus := eventBus s; messageQueue := messageQueue s;
     lastMessageTime := lastMessageTime s; explicitClose := explicitClose s;
     currentBackoff := currentBackoff s; options := options s;
     timers := timers s; nextId := nextId s; trace := trace s |}.

Definition set_connectionManager x (s : SupaSocket) : SupaSocket :=
  {| ws := ws s; reconnectCount := reconnectCount s;
     heartbeatTimer := heartbeatTimer s;
     heartbeatTimeoutTimer := heartbeatTimeoutTimer s;
     connectionTimeoutTimer := connectionTimeoutTimer s;
     connectionManager := x; eventBus := eventBus s;
     messageQueue := messageQueue s; lastMessageTime := lastMessageTime s;
     explicitClose := explicitClose s; currentBackoff := currentBackoff s;
     options := options s; timers := timers s; nextId := nextId s;
     trace := trace s |}.

Definition set_eventBus x (s : SupaSocket) : SupaSocket :=
  {| ws := ws s; reconnectCount := reconnectCount s;
     heartbeatTimer := heartbeatTimer s;
     heartbeatTimeoutTimer := heartbeatTimeoutTimer s;
     connectionTimeoutTimer := connectionTimeoutTimer s;
     connectionManager := connectionManager s; eventBus := x;
     messageQueue := messageQueue s; lastMessageTime := lastMessageTime s;
     explicitClose := explicitClose s; currentBackoff := currentBackoff s;
     options := options s; timers := timers s; nextId := nextId s;
     trace := trace s |}.

Definition set_messageQueue x (s : SupaSocket) : SupaSocket :=
  {| ws := ws s; reconnectCount := reconnectCount s;
     heartbeatTimer := heartbeatTimer s;
     heartbeatTimeoutTimer := heartbeatTimeoutTimer s;
     connectionTimeoutTimer := connectionTimeoutTimer s;
     connectionManager := connectionManager s; eventBus := eventBus s;
     messageQueue := x; lastMessageTime := lastMessageTime s;
     explicitClose := explicitClose s; currentBackoff := currentBackoff s;
     options := options s; timers := timers s; nextId := nextId s;
     trace := trace s |}.

Definition set_lastMessageTime x (s : SupaSocket) : SupaSocket :=
  {| ws := ws s; reconnectCount := reconnectCount s;
     heartbeatTimer := heartbeatTimer s;
     heartbeatTimeoutTimer := heartbeatTimeoutTimer s;
     connectionTimeoutTimer := connectionTimeoutTimer s;
     connectionManager := connectionManager s; eventBus := eventBus s;
     messageQueue := messageQueue s; lastMessageTime := x;
     explicitClose := explicitClose s; currentBackoff := currentBackoff s;
     options := options s; timers := timers s; nextId := nextId s;
     trace := trace s |}.

Definition set_explicitClose x (s : SupaSocket) : SupaSocket :=
  {| ws := ws s; reconnectCount := reconnectCount s;
     heartbeatTimer := heartbeatTimer s;
     heartbeatTimeoutTimer := heartbeatTimeoutTimer s;
     connectionTimeoutTimer := connectionTimeoutTimer s;
     connectionManager := connectionManager s; eventBus := eventBus s;
     messageQueue := messageQueue s; lastMessageTime := lastMessageTime s;
     explicitClose := x; currentBackoff := currentBackoff s;
     options := options s; timers := timers s; nextId := nextId s;
     trace := trace s |}.

Definition set_currentBackoff x (s : SupaSocket) : SupaSocket :=
  {| ws := ws s; reconnectCount := reconnectCount s;
     heartbeatTimer := heartbeatTimer s;
     heartbeatTimeoutTimer := heartbeatTimeoutTimer s;
     connectionTimeoutTimer := connectionTimeoutTimer s;
     connectionManager := connectionManager s; eventBus := eventBus s;
     messageQueue := messageQueue s; lastMessageTime := lastMessageTime s;
     explicitClose := explicitClose s; currentBackoff := x;
     options := options s; timers := timers s; nextId := nextId s;
     trace := trace s |}.

Definition set_options x (s : SupaSocket) : SupaSocket :=
  {| ws := ws s; reconnectCount := reconnectCount s;
     heartbeatTimer := heartbeatTimer s;
     heartbeatTimeoutTimer := heartbeatTimeoutTimer s;
     connectionTimeoutTimer := connectionTimeoutTimer s;
     connectionManager := connectionManager s; eventBus := eventBus s;
     messageQueue := messageQueue s; lastMessageTime := lastMessageTime s;
     explicitClose := explicitClose s; currentBackoff := currentBackoff s;
     options := x; timers := timers s; nextId := nextId s;
     trace := trace s |}.

Definition set_timers x (s : SupaSocket) : SupaSocket :=
  {| ws := ws s; reconnectCount := reconnectCount s;
     heartbeatTimer := heartbeatTimer s;
     heartbeatTimeoutTimer := heartbeatTimeoutTimer s;
     connectionTimeoutTimer := connectionTimeoutTimer s;
     connectionManager := connectionManager s; eventBus := eventBus s;
     messageQueue := messageQueue s; lastMessageTime := lastMessageTime s;
     explicitClose := explicitClose s; currentBackoff := currentBackoff s;
     options := options s; timers := x; nextId := nextId s;
     trace := trace s |}.

Definition set_nextId x (s : SupaSocket) : SupaSocket :=
  {| ws := ws s; reconnectCount := reconnectCount s;
     heartbeatTimer := heartbeatTimer s;
     heartbeatTimeoutTimer := heartbeatTimeoutTimer s;
     connectionTimeoutTimer := connectionTimeoutTimer s;
     connectionManager := connectionManager s; eventBus := eventBus s;
     messageQueue := messageQueue s; lastMessageTime := lastMessageTime s;
     explicitClose := explicitClose s; currentBackoff := currentBackoff s;
     options := options s; timers := timers s; nextId := x;
     trace := trace s |}.

Definition set_trace x (s : SupaSocket) : SupaSocket :=
  {| ws := ws s; reconnectCount := reconnectCount s;
     heartbeatTimer := heartbeatTimer s;
     heartbeatTimeoutTimer := heartbeatTimeoutTimer s;
     connectionTimeoutTimer := connectionTimeoutTimer s;
     connectionManager := connectionManager s; eventBus := eventBus s;
     messageQueue := messageQueue s; lastMessageTime := lastMessageTime s;
     explicitClose := explicitClose s; currentBackoff := currentBackoff s;
     options := options s; timers := timers s; nextId := nextId s;
     trace := x |}.

(** ** The monad of method bodies

    A method runs on the instance and either returns or throws; what it
    did to the instance before throwing stays done. *)

Definition M (A : Type) : Type := SupaSocket -> Outcome A * SupaSocket.

Definition ret {A} (a : A) : M A := fun s => (Returned a, s).

Definition throw {A} (e : Exn) : M A := fun s => (Thrown e, s).

Definition bind {A B} (m : M A) (k : A -> M B) : M B :=
  fun s =>
    match m s with
    | (Returned a, s') => k a s'
    | (Thrown e, s') => (Thrown e, s')
    end.

(** [try { m } catch (error) { handler }] *)
Definition try_catch {A} (m : M A) (handler : Exn -> M A) : M A :=
  fun s =>
    match m s with
    | (Returned a, s') => (Returned a, s')
    | (Thrown e, s') => handler e s'
    end.

Definition get : M SupaSocket := fun s => (Returned s, s).

Definition modify (f : SupaSocket -> SupaSocket) : M unit :=
  fun s => (Returned tt, f s).

Declare Scope js_scope.
Delimit Scope js_scope with js.
Notation "x <- m ;; k" := (bind m (fun x => k))
  (at level 61, m at next level, right associativity) : js_scope.
Notation "m ;; k" := (bind m (fun _ => k))
  (at level 61, right associativity) : js_scope.
Open Scope js_scope.

Definition when (b : bool) (m : M unit) : M unit :=
  if b then m else ret tt.

(** [list.forEach(body)]: a throw of the body ends the loop. *)
Fixpoint forEach {A} (l : list A) (body : A -> M unit) : M unit :=
  match l with
  | [] => ret tt
  | x :: rest => body x ;; forEach rest body
  end.

Definition exec {A} (m : M A) (s : SupaSocket) : SupaSocket := snd (m s).
Definition result {A} (m : M A) (s : SupaSocket) : Outcome A := fst (m s).

Definition log (o : Obs) : M unit :=
  modify (fun s => set_trace (trace s ++ [o]) s).

Definition is_some {A} (o : option A) : bool :=
  match o with Some _ => true | None => false end.

(** ** [EventBus]: the map *)

Fixpoint bus_get (event : string) (bus : EventBus) : option (list Listener) :=
  match bus with
  | [] => None
  | (k, l) :: rest => if (k =? event)%string then Some l else bus_get event rest
  end.

Definition bus_has (event : string) (bus : EventBus) : bool :=
  is_some (bus_get event bus).

Fixpoint bus_set (event : string) (l : list Listener) (bus : EventBus) : EventBus :=
  match bus with
  | [] => [(event, l)]
  | (k, l') :: rest =>
      if (k =? event)%string then (k, l) :: rest else (k, l') :: bus_set event l rest
  end.

Fixpoint bus_delete (event : string) (bus : EventBus) : EventBus :=
  match bus with
  | [] => []
  | (k, l) :: rest =>
      if (k =? event)%string then rest else (k, l) :: bus_delete event rest
  end.

Definition bus_lookup (event : EventKey) (bus : EventBus) : option (list Listener) :=
  match event with
  | Named name => bus_get name bus
  | Keyed _ => None
  end.

Definition EventBus_on (event : string) (callback : Listener) (bus : EventBus) : EventBus :=
  let bus1 := if negb (bus_has event bus) then bus_set event [] bus else bus in
  match bus_get event bus1 with
  | Some callbacks => bus_set event (callbacks ++ [callback]) bus1
  | None => bus1
  end.

Definition EventBus_off (event : string) (callback : option Listener) (bus : EventBus)
  : EventBus :=
  match bus_get event bus with
  | None => bus
  | Some callbacks =>
      match callback with
      | None => bus_delete event bus
      | Some c =>
          let kept := filter (fun cb => negb (listener_eqb cb c)) callbacks in
          let bus1 := bus_set event kept bus in
          if (List.length kept =? 0)%nat then bus_delete event bus1 else bus1
      end
  end.

Definition EventBus_hasListeners (event : string) (bus : EventBus) : bool :=
  match bus_get event bus with
  | Some callbacks => (0 <? List.length callbacks)%nat
  | None => false
  end.

Definition EventBus_getEvents (bus : EventBus) : list string := map fst bus.

(** ** Host primitives *)

(** How often user function [f] was called so far. *)
Definition is_call_of (f : nat) (o : Obs) : bool :=
  match o with
  | Called g _ => g =? f
  | _ => false
  end.

Definition calls_of (f : nat) (t : list Obs) : nat := List.length (filter (is_call_of f) t).

Definition set_field (k : string) (v : JsValue) (fields : list (string * JsValue))
  : list (string * JsValue) :=
  if is_some (lookup_field k fields)
  then map (fun kv => if (fst kv =? k)%string then (k, v) else kv) fields
  else fields ++ [(k, v)].

(** [{ ...pingMessage, time }] *)
Definition spread_with_time (ping : JsValue) (now : Z) : JsValue :=
  match ping with
  | VObj fields => VObj (set_field "time" (VNum now) fields)
  | _ => VObj [("time"%string, VNum now)]
  end.

(** [WebSocket.close(code, reason)] rejects a code that is neither 1000 nor
    in 3000..4999 ([InvalidAccessError]) and a reason longer than 123 bytes
    ([SyntaxError]). *)
Definition close_code_invalid (code : option Z) : bool :=
  match code with
  | Some c => negb ((c =? 1000)%Z || ((3000 <=? c)%Z && (c <=? 4999)%Z))
  | None => false
  end.

Definition close_reason_invalid (reason : option string) : bool :=
  match reason with
  | Some r => (123 <? String.length r)%nat
  | None => false
  end.

Definition ws_after_close (r : option ReadyState) : option ReadyState :=
  match r with
  | Some WS_CONNECTING | Some WS_OPEN => Some WS_CLOSING
  | other => other
  end.

Definition ws_close (code : option Z) (reason : option string) : M unit :=
  if close_code_invalid code then throw InvalidAccessError
  else if close_reason_invalid reason then throw SyntaxError
  else log (WsClose code reason) ;;
       modify (fun s => set_ws (ws_after_close (ws s)) s).

Definition fresh : M nat :=
  s <- get ;;
  modify (set_nextId (S (nextId s))) ;;
  ret (nextId s).

(** [setTimeout] and [setInterval] *)
Definition setTimer (k : TimerKind) (d : Q) : M nat :=
  id <- fresh ;;
  modify (fun s => set_timers (timers s ++ [{| tid := id; kind := k; delay := d |}]) s) ;;
  log (TimerSet k id d) ;;
  ret id.

(** [clearTimeout] and [clearInterval] *)
Definition clearTimer (id : nat) : M unit :=
  modify (fun s => set_timers (filter (fun t => negb (tid t =? id)) (timers s)) s) ;;
  log (TimerCleared id).

Section Engine.

Variable host : Host.

(** A call of user function [f]: the call is recorded, then the function
    returns or throws as the host says. *)
Definition call_user (f : nat) (arg : Payload) : M unit :=
  s <- get ;;
  log (Called f arg) ;;
  if fn_throws host f (calls_of f (trace s)) then throw (UserThrow f) else ret tt.

(** [if (this.options.onX) this.options.onX(arg)] *)
Definition call_option (f : option nat) (arg : Payload) : M unit :=
  match f with
  | Some g => call_user g arg
  | None => ret tt
  end.

(** [this.ws = new WebSocket(url, protocols)]: when the constructor throws
    [this.ws] keeps its old value. *)
Definition new_WebSocket (target : string) : M unit :=
  if construct_throws host target then throw ConstructFailure
  else log (WsCreated target) ;; modify (set_ws (Some WS_CONNECTING)).

(** [this.ws.send(message)] *)
Definition ws_send (m : Message) : M unit :=
  if send_throws host m then throw SendFailure else log (Sent m).

(** ** [EventBus.emit], [SupaSocket.on], [off], [once] *)

Definition off (event : string) (callback : option Listener) : M unit :=
  modify (fun s => set_eventBus (EventBus_off event callback (eventBus s)) s).

Definition on (event : string) (callback : Listener) : M unit :=
  modify (fun s => set_eventBus (EventBus_on event callback (eventBus s)) s).

(** Calling a listener; [onceCallback] is
    [callback(data); this.off(event, onceCallback)]. *)
Definition call_listener (l : Listener) (data : Payload) : M unit :=
  match l with
  | UserListener f => call_user f data
  | OnceListener _ event f => call_user f data ;; off event (Some l)
  end.

(** [EventBus.emit]; the loop runs over the array read before it starts. *)
Definition emit (event : EventKey) (data : Payload) : M unit :=
  log (Published event data) ;;
  s <- get ;;
  match bus_lookup event (eventBus s) with
  | None => ret tt
  | Some callbacks =>
      forEach callbacks (fun callback =>
        try_catch (call_listener callback data) (fun _ => ret tt))
  end.

Definition once (event : string) (f : nat) : M unit :=
  w <- fresh ;;
  on event (OnceListener w event f).

Definition clearAllListeners : M unit := modify (set_eventBus []).

Definition hasListeners (event : string) : M bool :=
  s <- get ;; ret (EventBus_hasListeners event (eventBus s)).

(** ** [ConnectionManager] *)

(** [callback(newState, oldState)]; the observer registered by the
    constructor calls [options.onStatusChange] and publishes [statusChange]. *)
Definition invoke_observer (cb : StatusChangeCallback) (newState oldState : ConnectionState)
  : M unit :=
  log (Notified cb newState oldState) ;;
  match cb with
  | UserObserver f => call_user f (PStatusChange newState oldState)
  | EngineObserver =>
      s <- get ;;
      call_option (onStatusChange (options s)) (PStatusChange newState oldState) ;;
      emit (Named "statusChange") (PStatusChange newState oldState)
  end.

(** [set state(newState)] *)
Definition set_state (newState : ConnectionState) : M unit :=
  s <- get ;;
  let cm := connectionManager s in
  if state_eqb (_state cm) newState then ret tt
  else
    let oldState := _state cm in
    modify (set_connectionManager
              {| _state := newState;
                 statusChangeCallbacks := statusChangeCallbacks cm |}) ;;
    forEach (statusChangeCallbacks cm) (fun callback =>
      try_catch (invoke_observer callback newState oldState) (fun _ => ret tt)).

(** [ConnectionManager.onStatusChange(callback)] *)
Definition onStatusChange_register (cb : StatusChangeCallback) : M unit :=
  modify (fun s =>
    set_connectionManager
      {| _state := _state (connectionManager s);
         statusChangeCallbacks := statusChangeCallbacks (connectionManager s) ++ [cb] |} s).

Definition state_of (s : SupaSocket) : ConnectionState := _state (connectionManager s).

Definition isConnected (s : SupaSocket) : bool := state_eqb (state_of s) OPEN.

(** [this.ws && this.ws.readyState === WebSocket.OPEN] *)
Definition transport_open (s : SupaSocket) : bool :=
  match ws s with
  | Some WS_OPEN => true
  | _ => false
  end.

(** [this.ws && this.ws.readyState === WebSocket.CONNECTING] *)
Definition transport_connecting (s : SupaSocket) : bool :=
  match ws s with
  | Some WS_CONNECTING => true
  | _ => false
  end.

(** ** [SupaSocket]: heartbeat timers *)

Definition clearHeartbeatTimers : M unit :=
  s <- get ;;
  match heartbeatTimer s with
  | Some t => clearTimer t ;; modify (set_heartbeatTimer None)
  | None => ret tt
  end ;;
  s <- get ;;
  match heartbeatTimeoutTimer s with
  | Some t => clearTimer t ;; modify (set_heartbeatTimeoutTimer None)
  | None => ret tt
  end.

Definition resetHeartbeatTimeout : M unit :=
  s <- get ;;
  match heartbeatTimeoutTimer s with
  | Some t => clearTimer t ;; modify (set_heartbeatTimeoutTimer None)
  | None => ret tt
  end.

Definition startHeartbeatTimeout : M unit :=
  s <- get ;;
  match heartbeatTimeoutTimer s with
  | Some t => clearTimer t
  | None => ret tt
  end ;;
  s <- get ;;
  match positive (heartbeatTimeout (options s)) with
  | None => ret tt
  | Some timeout =>
      t <- setTimer HeartbeatTimeoutT timeout ;;
      modify (set_heartbeatTimeoutTimer (Some t))
  end.

Definition startHeartbeat : M unit :=
  clearHeartbeatTimers ;;
  s <- get ;;
  match positive (heartbeatInterval (options s)) with
  | None => ret tt
  | Some interval =>
      t <- setTimer HeartbeatIntervalT interval ;;
      modify (set_heartbeatTimer (Some t))
  end.

(** ** [SupaSocket.send] *)

Definition prepareMessage (data : JsValue) : M Message :=
  match data with
  | VStr s => ret (MText s)
  | VBinary b => ret (MBinary b)
  | other =>
      match JSON_stringify host other with
      | Some s => ret (MText s)
      | None => throw TypeError
      end
  end.

Definition send (data : JsValue) : M bool :=
  s <- get ;;
  if transport_open s then
    try_catch
      (message <- prepareMessage data ;;
       ws_send message ;;
       ret true)
      (fun error =>
         emit (Named "error") (PError sendError error (Some data)) ;;
         ret false)
  else if state_eqb (state_of s) CONNECTING || state_eqb (state_of s) RECONNECTING then
    modify (fun s => set_messageQueue (messageQueue s ++ [data]) s) ;;
    ret true
  else
    emit (Named "error") (PError sendError ClosedError (Some data)) ;;
    ret false.

Definition processMessageQueue : M unit :=
  s <- get ;;
  if (0 <? List.length (messageQueue s))%nat then
    forEach (messageQueue s) (fun msg => _ <- send msg ;; ret tt) ;;
    modify (set_messageQueue [])
  else ret tt.

(** ** [SupaSocket.performReconnect] *)

(** The delay of a reconnection made with [currentBackoff = backoff]. *)
Definition backoff_delay (opts : SupaSocketOptions) (backoff : nat) : Q :=
  let delay := or_default (reconnectInterval opts) 5000 in
  if (0 <? backoff)%nat then
    Qmin (or_default (maxReconnectDelay opts) 30000)
         (Qred (delay * Math_pow 1.5 backoff))
  else delay.

(** [this.reconnectCount >= (reconnectLimit || 5)] *)
Definition limit_reached (opts : SupaSocketOptions) (count : nat) : bool :=
  Qle_bool (or_default (reconnectLimit opts) 5) (inject_Z (Z.of_nat count)).

Definition performReconnect : M unit :=
  s <- get ;;
  let opts := options s in
  if limit_reached opts (reconnectCount s) then
    emit (Named "reconnectFailed")
         (PReconnectFailed (reconnectCount s) (reconnectLimit opts))
  else
    set_state RECONNECTING ;;
    modify (fun s => set_reconnectCount (S (reconnectCount s)) s) ;;
    s1 <- get ;;
    let delay := backoff_delay opts (currentBackoff s1) in
    modify (fun s => set_currentBackoff (S (currentBackoff s)) s) ;;
    s2 <- get ;;
    emit (Named "reconnecting")
         (PReconnecting (reconnectCount s2) (reconnectLimit opts) delay) ;;
    _ <- setTimer ReconnectDelayT delay ;;
    ret tt.

(** ** [SupaSocket.connect] and the transport callbacks *)

Definition clearConnectionTimeout : M unit :=
  s <- get ;;
  match connectionTimeoutTimer s with
  | Some t => clearTimer t ;; modify (set_connectionTimeoutTimer None)
  | None => ret tt
  end.

Definition connect : M unit :=
  clearConnectionTimeout ;;
  set_state CONNECTING ;;
  modify (set_explicitClose false) ;;
  try_catch
    (s <- get ;;
     new_WebSocket (url (options s)) ;;
     match positive (connectionTimeout (options s)) with
     | None => ret tt
     | Some timeout =>
         t <- setTimer ConnectionTimeoutT timeout ;;
         modify (set_connectionTimeoutTimer (Some t))
     end)
    (fun error =>
       set_state CLOSED ;;
       emit (Named "error") (PError initError error None) ;;
       s <- get ;;
       when (autoReconnect (options s)) performReconnect).

Definition handleConnectionFailure : M unit :=
  modify (set_ws None) ;;
  s <- get ;;
  if autoReconnect (options s) then performReconnect else set_state CLOSED.

(** The callback of the connection-timeout timer. *)
Definition onConnectionTimeout : M unit :=
  s <- get ;;
  emit (Named "connectionTimeout")
       (PConnectionTimeout (url (options s)) (connectionTimeout (options s))) ;;
  s <- get ;;
  if transport_connecting s then
    ws_close None None ;;
    handleConnectionFailure
  else ret tt.

(** [ws.onopen] *)
Definition onopen (event : DomEvent) : M unit :=
  clearConnectionTimeout ;;
  set_state OPEN ;;
  modify (set_reconnectCount 0) ;;
  modify (set_currentBackoff 0) ;;
  processMessageQueue ;;
  startHeartbeat ;;
  s <- get ;;
  call_option (onOpen (options s)) (PEvent event) ;;
  emit (Named "open") (PEvent event).

(** [Object.keys(pongMessage).every(key => ...)] *)
Fixpoint every (keys : list string) (test : string -> Outcome bool) : Outcome bool :=
  match keys with
  | [] => Returned true
  | key :: rest =>
      match test key with
      | Returned true => every rest test
      | Returned false => Returned false
      | Thrown e => Thrown e
      end
  end.

Definition pong_key_matches (data pongMessage : JsValue) (key : string) : Outcome bool :=
  match get_prop data key with
  | Thrown e => Thrown e
  | Returned v =>
      if negb (is_undefined v) then
        match get_prop pongMessage key with
        | Returned p => Returned (strict_eq v p)
        | Thrown e => Thrown e
        end
      else Returned false
  end.

Definition isPongMessage (opts : SupaSocketOptions) (data : JsValue) : Outcome bool :=
  if negb (truthy data) then Returned false
  else
    let parsed :=
      match data with
      | VStr s => JSON_parse host s
      | _ => Some data
      end in
    match parsed with
    | None => Returned false
    | Some data =>
        let pongMessage := pongMessage opts in
        if truthy pongMessage && is_object_type pongMessage then
          every (object_keys pongMessage) (pong_key_matches data pongMessage)
        else if truthy data && is_object_type data then
          match get_prop data "type" with
          | Returned t => Returned (strict_eq t (VStr "pong"))
          | Thrown e => Thrown e
          end
        else Returned false
    end.

Definition lift {A} (o : Outcome A) : M A := fun s => (o, s).

(** [ws.onmessage]; [now] is [Date.now()]. *)
Definition onmessage (event_data : Message) (now : Z) : M unit :=
  modify (set_lastMessageTime now) ;;
  try_catch
    (s <- get ;;
     let data :=
       match event_data with
       | MText text =>
           if autoParseMessage (options s) then
             match JSON_parse host text with
             | Some v => v
             | None => VStr text
             end
           else VStr text
       | MBinary b => VBinary b
       end in
     pong <- lift (isPongMessage (options s) data) ;;
     if pong then resetHeartbeatTimeout
     else
       emit (Named "message") (PData data) ;;
       if truthy data && is_object_type data then
         type <- lift (get_prop data "type") ;;
         when (truthy type) (emit (key_of type) (PData data))
       else ret tt)
    (fun error =>
       emit (Named "error") (PError messageError error (Some (message_value event_data)))).

(** [ws.onclose] *)
Definition onclose (event : DomEvent) : M unit :=
  clearConnectionTimeout ;;
  set_state CLOSED ;;
  clearHeartbeatTimers ;;
  s <- get ;;
  call_option (onClose (options s)) (PEvent event) ;;
  emit (Named "close") (PEvent event) ;;
  s <- get ;;
  when (negb (explicitClose s) && autoReconnect (options s)) performReconnect.

(** [ws.onerror] *)
Definition onerror (event : DomEvent) : M unit :=
  s <- get ;;
  call_option (onError (options s)) (PEvent event) ;;
  emit (Named "error") (PEvent event) ;;
  s <- get ;;
  when (transport_connecting s && retryOnError (options s)) handleConnectionFailure.

(** The callback of the heartbeat interval. *)
Definition onHeartbeat (now : Z) : M unit :=
  s <- get ;;
  let pingMessage := pingMessage (options s) in
  let pingMessage :=
    if is_object_type pingMessage && negb (is_null pingMessage)
    then spread_with_time pingMessage now else pingMessage in
  _ <- send pingMessage ;;
  startHeartbeatTimeout.

(** The callback of the heartbeat-timeout timer. *)
Definition onHeartbeatTimeout (now : Z) : M unit :=
  emit (Named "heartbeatTimeout") (PHeartbeatTimeout now) ;;
  s <- get ;;
  when (is_some (ws s)) (try_catch (ws_close None None) (fun _ => ret tt)) ;;
  s <- get ;;
  when (autoReconnect (options s)) performReconnect.

(** ** Public methods *)

Definition close (code : option Z) (reason : option string) : M unit :=
  modify (set_explicitClose true) ;;
  s <- get ;;
  when (is_some (ws s))
    (set_state CLOSING ;;
     clearHeartbeatTimers ;;
     try_catch (ws_close code reason) (fun _ => ret tt)) ;;
  set_state CLOSED.

Definition reconnect (resetReconnectCount : bool) : M bool :=
  s <- get ;;
  when (is_some (ws s)) (try_catch (ws_close None None) (fun _ => ret tt)) ;;
  when resetReconnectCount
    (modify (set_reconnectCount 0) ;; modify (set_currentBackoff 0)) ;;
  modify (set_explicitClose false) ;;
  connect ;;
  ret true.

Definition checkConnection : M ConnectionState :=
  s <- get ;;
  let state := state_of s in
  when (state_eqb state CLOSED && negb (explicitClose s) && autoReconnect (options s))
    performReconnect ;;
  ret state.

(** [updateOptions(options)]; [merge] is [old => ({ ...old, ...options })]. *)
Definition updateOptions (merge : SupaSocketOptions -> SupaSocketOptions) : M unit :=
  s <- get ;;
  let oldUrl := url (options s) in
  modify (set_options (merge (options s))) ;;
  s <- get ;;
  when (negb (oldUrl =? url (options s))%string && isConnected s)
    (_ <- reconnect true ;; ret tt) ;;
  s <- get ;;
  when (isConnected s && is_some (heartbeatTimer s)) startHeartbeat.

Definition set_autoReconnect (b : bool) (o : SupaSocketOptions) : SupaSocketOptions :=
  {| url := url o; reconnectLimit := reconnectLimit o;
     reconnectInterval := reconnectInterval o;
     heartbeatInterval := heartbeatInterval o;
     heartbeatTimeout := heartbeatTimeout o; autoReconnect := b;
     onOpen := onOpen o; onClose := onClose o; onError := onError o;
     onStatusChange := onStatusChange o; pingMessage := pingMessage o;
     pongMessage := pongMessage o; autoParseMessage := autoParseMessage o;
     maxReconnectDelay := maxReconnectDelay o; retryOnError := retryOnError o;
     connectionTimeout := connectionTimeout o |}.

Definition disableAutoReconnect : M unit :=
  modify (fun s => set_options (set_autoReconnect false (options s)) s).

Definition enableAutoReconnect : M unit :=
  modify (fun s => set_options (set_autoReconnect true (options s)) s).

Definition destroy : M unit :=
  s <- get ;;
  when (is_some (ws s))
    (try_catch (ws_close None None) (fun _ => ret tt) ;;
     modify (set_ws None)) ;;
  clearHeartbeatTimers ;;
  clearConnectionTimeout ;;
  clearAllListeners ;;
  set_state CLOSED ;;
  modify (set_messageQueue []).

(** The instance before the constructor body runs: field initialisers. *)
Definition blank (opts : SupaSocketOptions) : SupaSocket :=
  {| ws := None; reconnectCount := 0; heartbeatTimer := None;
     heartbeatTimeoutTimer := None; connectionTimeoutTimer := None;
     connectionManager := {| _state := CLOSED; statusChangeCallbacks := [] |};
     eventBus := []; messageQueue := []; lastMessageTime := 0%Z;
     explicitClose := false; currentBackoff := 0; options := opts;
     timers := []; nextId := 0; trace := [] |}.

(** [new SupaSocket(options)], [opts] being the options merged with the
    defaults. *)
Definition constructor (opts : SupaSocketOptions) : SupaSocket :=
  exec (onStatusChange_register EngineObserver ;; connect) (blank opts).

End Engine.

(** ** What happens to an instance

    Calls of the public methods, events of the socket in [this.ws] (the
    platform updates [readyState] before it runs the handler; with no
    socket in [this.ws] the handler runs all the same, for a socket that
    was dropped) and timers that fire.  An exception that leaves a handler
    goes to the host. *)

Inductive Op :=
| CallSend (data : JsValue)
| CallOn (event : string) (f : nat)
| CallOff (event : string) (f : option nat)
| CallOnce (event : string) (f : nat)
| CallClearAllListeners
| CallClose (code : option Z) (reason : option string)
| CallReconnect (resetReconnectCount : bool)
| CallCheckConnection
| CallUpdateOptions (merge : SupaSocketOptions -> SupaSocketOptions)
| CallDisableAutoReconnect
| CallEnableAutoReconnect
| CallDestroy
| TransportOpen
| TransportMessage (data : Message) (now : Z)
| TransportClose (code : Z) (reason : string)
| TransportError
| TimerFired (id : nat) (now : Z).

Definition ready (r : ReadyState) (s : SupaSocket) : SupaSocket :=
  match ws s with
  | Some _ => set_ws (Some r) s
  | None => s
  end.

Definition one_shot (k : TimerKind) : bool :=
  match k with
  | HeartbeatIntervalT => false
  | _ => true
  end.

Definition fire (host : Host) (t : Timer) (now : Z) : M unit :=
  when (one_shot (kind t))
    (modify (fun s => set_timers (filter (fun u => negb (tid u =? tid t)) (timers s)) s)) ;;
  match kind t with
  | ConnectionTimeoutT => onConnectionTimeout host
  | HeartbeatIntervalT => onHeartbeat host now
  | HeartbeatTimeoutT => onHeartbeatTimeout host now
  | ReconnectDelayT => connect host
  end.

Definition step (host : Host) (op : Op) (s : SupaSocket) : SupaSocket :=
  match op with
  | CallSend data => exec (send host data) s
  | CallOn event f => exec (on event (UserListener f)) s
  | CallOff event f => exec (off event (option_map UserListener f)) s
  | CallOnce event f => exec (once event f) s
  | CallClearAllListeners => exec clearAllListeners s
  | CallClose code reason => exec (close host code reason) s
  | CallReconnect r => exec (reconnect host r) s
  | CallCheckConnection => exec (checkConnection host) s
  | CallUpdateOptions merge => exec (updateOptions host merge) s
  | CallDisableAutoReconnect => exec disableAutoReconnect s
  | CallEnableAutoReconnect => exec enableAutoReconnect s
  | CallDestroy => exec (destroy host) s
  | TransportOpen => exec (onopen host OpenEvent) (ready WS_OPEN s)
  | TransportMessage data now => exec (onmessage host data now) s
  | TransportClose code reason =>
      exec (onclose host (CloseEvent code reason)) (ready WS_CLOSED s)
  | TransportError => exec (onerror host ErrorEvent) s
  | TimerFired id now =>
      match find (fun t => tid t =? id) (timers s) with
      | Some t => exec (fire host t now) s
      | None => s
      end
  end.

Definition run (host : Host) (ops : list Op) (s : SupaSocket) : SupaSocket :=
  fold_left (fun s op => step host op s) ops s.

(** * Vocabulary of the statements *)

(** ** Relations between the instance before and after a method *)

(** A method keeps a relation between the instance before and after. *)
Definition keeps (R : SupaSocket -> SupaSocket -> Prop) {A} (m : M A) : Prop :=
  forall s, R s (exec m s).

(** A method never throws. *)
Definition returns {A} (m : M A) : Prop :=
  forall s, exists a, result m s = Returned a.

(** A view of the instance is the same afterwards. *)
Definition same {X} (view : SupaSocket -> X) (s s' : SupaSocket) : Prop :=
  view s' = view s.

(** The trace grew by entries that all satisfy [P]. *)
Definition grows (P : Obs -> Prop) (s s' : SupaSocket) : Prop :=
  exists t, trace s' = trace s ++ t /\ Forall P t.

(** ** Views of the instance *)

(** Every field but the listener map and the trace. *)
Definition core (s : SupaSocket) :=
  (ws s, reconnectCount s, heartbeatTimer s, heartbeatTimeoutTimer s,
   connectionTimeoutTimer s, connectionManager s, messageQueue s,
   lastMessageTime s, explicitClose s, currentBackoff s, options s,
   timers s, nextId s).

(** The reconnect context. *)
Definition counters (s : SupaSocket) : nat * nat := (reconnectCount s, currentBackoff s).

Definition settled (s : SupaSocket) := (options s, reconnectCount s, currentBackoff s).

Definition open_view (s : SupaSocket) :=
  (ws s, messageQueue s, options s, connectionManager s).

(** [send] in this state appends to the queue (when the transport is not
    open). *)
Definition queues (s : SupaSocket) : bool :=
  state_eqb (state_of s) CONNECTING || state_eqb (state_of s) RECONNECTING.

(** ** Reading a trace *)

Definition is_call (o : Obs) : Prop :=
  match o with
  | Called _ _ => True
  | _ => False
  end.

Definition notification (o : Obs)
  : list (StatusChangeCallback * ConnectionState * ConnectionState) :=
  match o with
  | Notified cb newState oldState => [(cb, newState, oldState)]
  | _ => []
  end.

(** The observer invocations recorded in a trace, in order. *)
Definition notifications (t : list Obs) := flat_map notification t.

Definition reconnect_delay (o : Obs) : list Q :=
  match o with
  | TimerSet ReconnectDelayT _ d => [d]
  | _ => []
  end.

(** The delays of the reconnections scheduled in a trace, in order. *)
Definition reconnect_delays (t : list Obs) : list Q := flat_map reconnect_delay t.

Definition failure (o : Obs) : list (nat * option Q) :=
  match o with
  | Published _ (PReconnectFailed attempts limit) => [(attempts, limit)]
  | _ => []
  end.

(** The [{attempts, limit}] payloads published in a trace, in order. *)
Definition failures (t : list Obs) : list (nat * option Q) := flat_map failure t.

Definition sent_message (o : Obs) : list Message :=
  match o with
  | Sent m => [m]
  | _ => []
  end.

(** What went out through the transport, in order. *)
Definition sent (t : list Obs) : list Message := flat_map sent_message t.

Definition error_publish (o : Obs) : list (EventKey * ErrorKind * Exn * option JsValue) :=
  match o with
  | Published key (PError kind error data) => [(key, kind, error, data)]
  | _ => []
  end.

(** The error objects published, with the event they were published under. *)
Definition errors (t : list Obs) := flat_map error_publish t.

Definition publish (o : Obs) : list (EventKey * Payload) :=
  match o with
  | Published key data => [(key, data)]
  | _ => []
  end.

(** What was published, in order. *)
Definition publishes (t : list Obs) : list (EventKey * Payload) := flat_map publish t.

Definition is_sent (o : Obs) : bool :=
  match o with
  | Sent _ => true
  | _ => false
  end.

(** The heartbeat interval timer is set. *)
Definition is_heartbeat_start (o : Obs) : bool :=
  match o with
  | TimerSet HeartbeatIntervalT _ _ => true
  | _ => false
  end.

(** [open] is published. *)
Definition is_open_publish (o : Obs) : bool :=
  match o with
  | Published (Named name) _ => (name =? "open")%string
  | _ => false
  end.

(** The three parts of what the open callback does. *)
Definition before_heartbeat (o : Obs) : Prop :=
  is_heartbeat_start o = false /\ is_open_publish o = false.

Definition starting_heartbeat (o : Obs) : Prop :=
  is_sent o = false /\ is_open_publish o = false.

Definition announcing_open (o : Obs) : Prop :=
  is_sent o = false /\ is_heartbeat_start o = false.

Definition quiet_transport (o : Obs) : Prop := is_sent o = false.

(** Every field but the session state, the listener map and the trace,
    and what the trace says about reconnection. *)
Definition shell (s : SupaSocket) :=
  (ws s, reconnectCount s, heartbeatTimer s, heartbeatTimeoutTimer s,
   connectionTimeoutTimer s, messageQueue s, lastMessageTime s, explicitClose s,
   currentBackoff s, options s, timers s, nextId s,
   reconnect_delays (trace s), failures (trace s)).

(** ** Named parts of method bodies *)

(** The body of the loop of [set state]. *)
Definition guarded_observer (host : Host) (newState oldState : ConnectionState)
  (cb : StatusChangeCallback) : M unit :=
  try_catch (invoke_observer host cb newState oldState) (fun _ => ret tt).

(** The [try] block of [send]. *)
Definition transmit (host : Host) (data : JsValue) : M bool :=
  message <- prepareMessage host data ;;
  ws_send host message ;;
  ret true.

(** The [try] block of [connect]. *)
Definition open_socket (host : Host) : M unit :=
  s <- get ;;
  new_WebSocket host (url (options s)) ;;
  match positive (connectionTimeout (options s)) with
  | None => ret tt
  | Some timeout =>
      t <- setTimer ConnectionTimeoutT timeout ;;
      modify (set_connectionTimeoutTimer (Some t))
  end.

(** The caller sends the payloads one after the other. *)
Definition send_each (host : Host) (payloads : list JsValue) : M unit :=
  forEach payloads (fun msg => _ <- send host msg ;; ret tt).

(** ** Sending *)

(** [prepareMessage] as a function: the message, when there is one. *)
Definition serialized (host : Host) (data : JsValue) : option Message :=
  match data with
  | VStr s => Some (MText s)
  | VBinary b => Some (MBinary b)
  | other => option_map MText (JSON_stringify host other)
  end.

(** The messages a call [send(data)] puts on an open transport. *)
Definition transmitted (host : Host) (data : JsValue) : list Message :=
  match serialized host data with
  | Some m => if send_throws host m then [] else [m]
  | None => []
  end.

(** ** The pong test *)

(** The value the pong test looks into: nothing for a falsy payload, the
    parsed text for a string (nothing when it does not parse), the payload
    itself otherwise. *)
Definition decoded (host : Host) (data : JsValue) : option JsValue :=
  if truthy data then
    match data with
    | VStr s => JSON_parse host s
    | _ => Some data
    end
  else None.

(** A structured pong template is configured. *)
Definition structured (pongMessage : JsValue) : bool :=
  truthy pongMessage && is_object_type pongMessage.

(** [data[key]] is there and is [===] to [pongMessage[key]]. *)
Definition key_agrees (data pongMessage : JsValue) (key : string) : Prop :=
  exists v p,
    get_prop data key = Returned v /\ is_undefined v = false /\
    get_prop pongMessage key = Returned p /\ strict_eq v p = true.

(** The payload as [onmessage] sees it after the optional [JSON.parse]. *)
Definition received (host : Host) (opts : SupaSocketOptions) (event_data : Message)
  : JsValue :=
  match event_data with
  | MText text =>
      if autoParseMessage opts then
        match JSON_parse host text with
        | Some v => v
        | None => VStr text
        end
      else VStr text
  | MBinary b => VBinary b
  end.

(** The publish under [data.type], when there is one. *)
Definition type_publish (data : JsValue) : list (EventKey * Payload) :=
  if truthy data && is_object_type data then
    match get_prop data "type" with
    | Returned type => if truthy type then [(key_of type, PData data)] else []
    | Thrown _ => []
    end
  else [].

(** Every live heartbeat-timeout timer is the one held in
    [heartbeatTimeoutTimer]. *)
Definition one_watchdog (s : SupaSocket) : Prop :=
  forall t, In t (timers s) -> kind t = HeartbeatTimeoutT ->
            heartbeatTimeoutTimer s = Some (tid t).

(** No heartbeat-timeout timer is pending. *)
Definition no_watchdog (s : SupaSocket) : Prop :=
  forall t, In t (timers s) -> kind t <> HeartbeatTimeoutT.

Definition watched (s s' : SupaSocket) : Prop := one_watchdog s -> one_watchdog s'.

(** ** The reconnect context *)

(** The effective reconnection interval and cap: the configured numbers,
    or the built-in ones when they are 0 or unset. *)
Definition effective_interval (opts : SupaSocketOptions) : Q :=
  or_default (reconnectInterval opts) 5000.

Definition effective_cap (opts : SupaSocketOptions) : Q :=
  or_default (maxReconnectDelay opts) 30000.

(** [reconnectCount >= reconnectLimit], with the configured number taken
    as it is. *)
Definition at_stated_limit (s : SupaSocket) : bool :=
  match reconnectLimit (options s) with
  | Some limit => Qle_bool limit (inject_Z (Z.of_nat (reconnectCount s)))
  | None => false
  end.

(** From [s] to [s'] the reconnection options are the same, [n] failed
    attempts were counted, each adding one to both counters and scheduling
    one reconnection, with the delay of its backoff step. *)
Definition advances (s s' : SupaSocket) : Prop :=
  reconnectInterval (options s') = reconnectInterval (options s) /\
  maxReconnectDelay (options s') = maxReconnectDelay (options s) /\
  exists n,
    reconnectCount s' = (reconnectCount s + n)%nat /\
    currentBackoff s' = (currentBackoff s + n)%nat /\
    reconnect_delays (trace s')
    = reconnect_delays (trace s)
      ++ map (backoff_delay (options s)) (seq (currentBackoff s) n).

(** The view that [advances] leaves alone when no attempt is counted. *)
Definition context_view (s : SupaSocket) :=
  (options s, reconnectCount s, currentBackoff s, reconnect_delays (trace s)).

(** An operation that belongs to a run of failed attempts: neither a
    successful open, nor [reconnect(true)], nor a change of the options. *)
Definition within_run (op : Op) : bool :=
  match op with
  | TransportOpen => false
  | CallReconnect resetReconnectCount => negb resetReconnectCount
  | CallUpdateOptions _ => false
  | _ => true
  end.

(** An operation that resets the reconnect context: the open of the
    transport, [reconnect(true)], and [updateOptions] when it calls
    [reconnect(true)] (a new URL while the session is open). *)
Definition resets_context (op : Op) (s : SupaSocket) : bool :=
  match op with
  | TransportOpen => true
  | CallReconnect resetReconnectCount => resetReconnectCount
  | CallUpdateOptions merge =>
      negb (url (options s) =? url (merge (options s)))%string && isConnected s
  | _ => false
  end.

(** The state is [OPEN] afterwards only if it was before. *)
Definition not_opened (s s' : SupaSocket) : Prop :=
  state_of s' = OPEN -> state_of s = OPEN.

(** ** Concrete instances used in the examples *)

(** A host in which no collaborator throws and user functions throw as
    [throws] says; [JSON.parse] and [JSON.stringify] are given on the few
    texts and values the examples exchange. *)
Definition example_host (throws : nat -> nat -> bool) : Host :=
  {| JSON_parse := fun text =>
       if (text =? "0")%string then Some (VNum 0)
       else if (text =? "null")%string then Some VNull
       else None;
     JSON_stringify := fun v =>
       match v with
       | VNull => Some "null"%string
       | VBool true => Some "true"%string
       | VBool false => Some "false"%string
       | _ => None
       end;
     construct_throws := fun _ => false;
     send_throws := fun _ => false;
     fn_throws := throws |}.

Definition calm_host : Host := example_host (fun _ _ => false).

(** User function [f] throws when it is called for the first time and
    only then. *)
Definition throws_first (f : nat) : nat -> nat -> bool :=
  fun g earlier => (g =? f) && (earlier =? 0).

(** The defaults of the constructor, with the three reconnection options. *)
Definition options_with (limit interval maxDelay : option Q) : SupaSocketOptions :=
  {| url := "ws://localhost:8080";
     reconnectLimit := limit;
     reconnectInterval := interval;
     heartbeatInterval := Some 30000;
     heartbeatTimeout := Some 5000;
     autoReconnect := true;
     onOpen := None; onClose := None; onError := None; onStatusChange := None;
     pingMessage := VObj [("type"%string, VStr "ping"); ("time"%string, VNum 0)];
     pongMessage := VObj [("type"%string, VStr "pong")];
     autoParseMessage := true;
     maxReconnectDelay := maxDelay;
     retryOnError := true;
     connectionTimeout := Some 10000 |}.

Definition default_options : SupaSocketOptions :=
  options_with (Some 5) (Some 5000) (Some 30000).

Definition set_pongMessage (p : JsValue) (o : SupaSocketOptions) : SupaSocketOptions :=
  {| url := url o; reconnectLimit := reconnectLimit o;
     reconnectInterval := reconnectInterval o;
     heartbeatInterval := heartbeatInterval o;
     heartbeatTimeout := heartbeatTimeout o; autoReconnect := autoReconnect o;
     onOpen := onOpen o; onClose := onClose o; onError := onError o;
     onStatusChange := onStatusChange o; pingMessage := pingMessage o;
     pongMessage := p; autoParseMessage := autoParseMessage o;
     maxReconnectDelay := maxReconnectDelay o; retryOnError := retryOnError o;
     connectionTimeout := connectionTimeout o |}.

(** The transport closes abnormally, the reconnection timer fires, and so
    on: three connection attempts that fail one after the other. *)
Definition three_failures : list Op :=
  [ TransportClose 1006 ""; TimerFired 1 0;
    TransportClose 1006 ""; TimerFired 3 0;
    TransportClose 1006 "" ].

(** The instance after three failures with [reconnectLimit = 2]: two
    attempts made. *)
Definition exhausted_instance : SupaSocket :=
  run calm_host three_failures
    (constructor calm_host (options_with (Some 2) (Some 1000) (Some 5000))).

(** The transport opens, a callback is registered with [once], a text
    message arrives; then another. *)
Definition one_message : list Op :=
  [ TransportOpen; CallOnce "message" 7; TransportMessage (MText "a") 1 ].

Definition two_messages : list Op :=
  one_message ++ [ TransportMessage (MText "b") 2 ].

(** * Further members of the three classes *)

(** [EventBus.clear] *)
Definition EventBus_clear (bus : EventBus) : EventBus := [].

Definition observer_eqb (a b : StatusChangeCallback) : bool :=
  match a, b with
  | EngineObserver, EngineObserver => true
  | UserObserver f, UserObserver g => f =? g
  | _, _ => false
  end.

(** [ConnectionManager.removeStatusChangeCallback(callback)] *)
Definition removeStatusChangeCallback (cb : StatusChangeCallback) : M unit :=
  modify (fun s =>
    set_connectionManager
      {| _state := _state (connectionManager s);
         statusChangeCallbacks :=
           filter (fun c => negb (observer_eqb c cb))
                  (statusChangeCallbacks (connectionManager s)) |} s).

(** The getters of [SupaSocket]. *)
Definition connectionState (s : SupaSocket) : ConnectionState := state_of s.

(** [ConnectionState[state]] *)
Definition ConnectionState_name (c : ConnectionState) : string :=
  match c with
  | CONNECTING => "CONNECTING"
  | OPEN => "OPEN"
  | CLOSING => "CLOSING"
  | CLOSED => "CLOSED"
  | RECONNECTING => "RECONNECTING"
  end.

Definition connectionStateName (s : SupaSocket) : string :=
  ConnectionState_name (state_of s).

Definition events (s : SupaSocket) : list string := EventBus_getEvents (eventBus s).

(** [timeSinceLastMessage]; [now] is [Date.now()]. *)
Definition timeSinceLastMessage (now : Z) (s : SupaSocket) : Z :=
  if (lastMessageTime s =? 0)%Z then 0%Z else (now - lastMessageTime s)%Z.

Definition currentReconnectAttempt (s : SupaSocket) : nat := reconnectCount s.

Definition getOptions (s : SupaSocket) : SupaSocketOptions := options s.

Definition sendBinary (host : Host) (data : list byte) : M bool := send host (VBinary data).

Definition sendText (host : Host) (text : string) : M bool := send host (VStr text).

Definition sendJson (host : Host) (data : list (string * JsValue)) : M bool :=
  send host (VObj data).

(** * Vocabulary of the further properties *)

(** ** The listener map *)

(** The listeners registered under a key, in registration order. *)
Definition listeners_at (event : EventKey) (bus : EventBus) : list Listener :=
  match bus_lookup event bus with
  | Some callbacks => callbacks
  | None => []
  end.

Definition listeners (event : string) (bus : EventBus) : list Listener :=
  listeners_at (Named event) bus.

(** What a [Map] guarantees and what [on] and [off] maintain: a key occurs
    once, and no key holds an empty array. *)
Definition bus_wf (bus : EventBus) : Prop :=
  NoDup (EventBus_getEvents bus) /\ Forall (fun entry => snd entry <> []) bus.

(** [callback] is none of the listeners. *)
Definition unregistered (callback : Listener) (l : list Listener) : bool :=
  forallb (fun cb => negb (listener_eqb cb callback)) l.

(** The user function a listener ends up calling. *)
Definition listener_function (l : Listener) : nat :=
  match l with
  | UserListener f => f
  | OnceListener _ _ f => f
  end.

Definition bus_kept (s s' : SupaSocket) : Prop :=
  bus_wf (eventBus s) -> bus_wf (eventBus s').

(** What was called, in order: the function and its argument. *)
Definition call (o : Obs) : list (nat * Payload) :=
  match o with
  | Called f arg => [(f, arg)]
  | _ => []
  end.

Definition calls (t : list Obs) : list (nat * Payload) := flat_map call t.

(** The body of the loop of [EventBus.emit]. *)
Definition guarded_listener (host : Host) (data : Payload) (callback : Listener) : M unit :=
  try_catch (call_listener host callback data) (fun _ => ret tt).

(** ** What operations keep *)

(** The queue afterwards starts with the queue before. *)
Definition queue_kept (s s' : SupaSocket) : Prop :=
  exists more, messageQueue s' = messageQueue s ++ more.

(** While [autoReconnect] is off: it stays off, no reconnection is
    scheduled, [reconnectFailed] is not published, no attempt is counted and
    the state does not become [RECONNECTING]. *)
Definition idle (s s' : SupaSocket) : Prop :=
  autoReconnect (options s) = false ->
  autoReconnect (options s') = false /\
  reconnect_delays (trace s') = reconnect_delays (trace s) /\
  failures (trace s') = failures (trace s) /\
  (reconnectCount s' <= reconnectCount s)%nat /\
  (state_of s' = RECONNECTING -> state_of s = RECONNECTING).

(** An operation that leaves [autoReconnect] as it is or turns it off. *)
Definition leaves_autoReconnect_off (op : Op) : bool :=
  match op with
  | CallUpdateOptions _ | CallEnableAutoReconnect => false
  | _ => true
  end.

(** The attempt counter is 0, or it was incremented from a count below the
    limit. *)
Definition within_limit (s : SupaSocket) : Prop :=
  forall n, reconnectCount s = S n -> limit_reached (options s) n = false.

Definition limited (s s' : SupaSocket) : Prop :=
  reconnectLimit (options s') = reconnectLimit (options s) /\
  (within_limit s -> within_limit s').

Definition keeps_the_options (op : Op) : bool :=
  match op with
  | CallUpdateOptions _ => false
  | _ => true
  end.

(** ** The timer table *)

Definition kind_eqb (a b : TimerKind) : bool :=
  match a, b with
  | ConnectionTimeoutT, ConnectionTimeoutT | HeartbeatIntervalT, HeartbeatIntervalT
  | HeartbeatTimeoutT, HeartbeatTimeoutT | ReconnectDelayT, ReconnectDelayT => true
  | _, _ => false
  end.

(** The field in which the instance keeps the timer of a kind; the timer of
    a scheduled reconnection is kept nowhere. *)
Definition held (k : TimerKind) (s : SupaSocket) : option nat :=
  match k with
  | ConnectionTimeoutT => connectionTimeoutTimer s
  | HeartbeatIntervalT => heartbeatTimer s
  | HeartbeatTimeoutT => heartbeatTimeoutTimer s
  | ReconnectDelayT => None
  end.

(** The live timers of a kind. *)
Definition pending (k : TimerKind) (s : SupaSocket) : list Timer :=
  filter (fun t => kind_eqb (kind t) k) (timers s).

(** Timer identities are distinct and older than the next one, so are the
    identities held in the fields; every live timer but those of scheduled
    reconnections is the one held in the field of its kind, and a field
    holds no timer of another kind. *)
Definition tidy_of (ts : list Timer) (next : nat) (h : TimerKind -> option nat) : Prop :=
  NoDup (map tid ts) /\
  (forall t, In t ts -> (tid t < next)%nat) /\
  (forall k id, h k = Some id -> (id < next)%nat) /\
  (forall t, In t ts -> kind t <> ReconnectDelayT -> h (kind t) = Some (tid t)) /\
  (forall t k, In t ts -> h k = Some (tid t) -> kind t = k).

Definition tidy (s : SupaSocket) : Prop :=
  tidy_of (timers s) (nextId s) (fun k => held k s).

(** The table stays tidy and keeps the timers of scheduled reconnections. *)
Definition orderly (s s' : SupaSocket) : Prop :=
  tidy s ->
  tidy s' /\
  forall t, In t (timers s) -> kind t = ReconnectDelayT -> In t (timers s').

Definition timer_view (s : SupaSocket) :=
  (timers s, nextId s, heartbeatTimer s, heartbeatTimeoutTimer s, connectionTimeoutTimer s).

(** The sockets constructed, by URL, in order. *)
Definition socket_created (o : Obs) : list string :=
  match o with
  | WsCreated target => [target]
  | _ => []
  end.

Definition sockets (t : list Obs) : list string := flat_map socket_created t.

(** What [connect] leaves alone up to the construction of the socket. *)
Definition connect_view (s : SupaSocket) :=
  (ws s, options s, reconnectCount s, currentBackoff s,
   sockets (trace s), errors (trace s)).

(** An operation that leaves the queued payloads in the queue: any but the
    open of the transport and [destroy]. *)
Definition keeps_queued (op : Op) : bool :=
  match op with
  | TransportOpen | CallDestroy => false
  | _ => true
  end.

(** ** Further views *)

(** What a failed attempt and the close that follows it change step by
    step. *)
Definition attempt_view (s : SupaSocket) :=
  (options s, reconnectCount s, currentBackoff s, explicitClose s,
   reconnect_delays (trace s), failures (trace s)).


(** A host that serializes every value to the same text. *)
Definition plain_host : Host :=
  {| JSON_parse := fun _ => None;
     JSON_stringify := fun _ => Some "ping"%string;
     construct_throws := fun _ => false;
     send_throws := fun _ => false;
     fn_throws := fun _ _ => false |}.


(** After an explicit close: [explicitClose] stays on, nothing of the
    reconnect context changes, and a [CLOSED] state stays [CLOSED]. *)
Definition after_close (s s' : SupaSocket) : Prop :=
  explicitClose s = true ->
  explicitClose s' = true /\
  attempt_view s' = attempt_view s /\
  (state_of s = CLOSED -> state_of s' = CLOSED).

(** No user function throws. *)
Definition calm (host : Host) : Prop := forall f earlier, fn_throws host f earlier = false.

(** * Reasoning about method bodies *)

Lemma state_eqb_eq a b : state_eqb a b = true <-> a = b.
Proof. destruct a, b; simpl; split; intro H; try reflexivity; discriminate H. Qed.

Lemma state_eqb_refl a : state_eqb a a = true.
Proof. destruct a; reflexivity. Qed.

Lemma exec_bind {A B} (m : M A) (k : A -> M B) s :
  exec (bind m k) s =
  match result m s with
  | Returned a => exec (k a) (exec m s)
  | Thrown _ => exec m s
  end.
Proof. unfold exec, result, bind. destruct (m s) as [[a|e] s']; reflexivity. Qed.

Lemma result_bind {A B} (m : M A) (k : A -> M B) s :
  result (bind m k) s =
  match result m s with
  | Returned a => result (k a) (exec m s)
  | Thrown e => Thrown e
  end.
Proof. unfold exec, result, bind. destruct (m s) as [[a|e] s']; reflexivity. Qed.

Lemma exec_try_catch {A} (m : M A) (h : Exn -> M A) s :
  exec (try_catch m h) s =
  match result m s with
  | Returned _ => exec m s
  | Thrown e => exec (h e) (exec m s)
  end.
Proof. unfold exec, result, try_catch. destruct (m s) as [[a|e] s']; reflexivity. Qed.

Lemma result_try_catch {A} (m : M A) (h : Exn -> M A) s :
  result (try_catch m h) s =
  match result m s with
  | Returned a => Returned a
  | Thrown e => result (h e) (exec m s)
  end.
Proof. unfold exec, result, try_catch. destruct (m s) as [[a|e] s']; reflexivity. Qed.

(** ** Methods that keep a relation between the instance before and after *)

Section Keeps.

Variable R : SupaSocket -> SupaSocket -> Prop.
Context {R_pre : PreOrder R}.

Let R_refl : forall s, R s s := fun s => reflexivity s.
Let R_trans : forall s1 s2 s3, R s1 s2 -> R s2 s3 -> R s1 s3 :=
  fun s1 s2 s3 => transitivity (x := s1) (y := s2) (z := s3).

Lemma keeps_ret {A} (a : A) : keeps R (ret a).
Proof. intro s. apply R_refl. Qed.

Lemma keeps_throw {A} e : keeps R (@throw A e).
Proof. intro s. apply R_refl. Qed.

Lemma keeps_get : keeps R get.
Proof. intro s. apply R_refl. Qed.

Lemma keeps_lift {A} (o : Outcome A) : keeps R (lift o).
Proof. intro s. apply R_refl. Qed.

Lemma keeps_modify f : (forall s, R s (f s)) -> keeps R (modify f).
Proof. intros H s. apply H. Qed.

Lemma keeps_bind {A B} (m : M A) (k : A -> M B) :
  keeps R m -> (forall a, keeps R (k a)) -> keeps R (bind m k).
Proof.
  intros Hm Hk s. rewrite exec_bind.
  destruct (result m s); [eapply R_trans; [apply Hm | apply Hk] | apply Hm].
Qed.

Lemma keeps_try_catch {A} (m : M A) h :
  keeps R m -> (forall e, keeps R (h e)) -> keeps R (try_catch m h).
Proof.
  intros Hm Hh s. rewrite exec_try_catch.
  destruct (result m s); [apply Hm | eapply R_trans; [apply Hm | apply Hh]].
Qed.

Lemma keeps_forEach {A} (l : list A) body :
  (forall x, keeps R (body x)) -> keeps R (forEach l body).
Proof.
  intro H. induction l as [|x l IH]; simpl.
  - apply keeps_ret.
  - apply keeps_bind; [apply H | intros _; exact IH].
Qed.

Lemma keeps_when b m : keeps R m -> keeps R (when b m).
Proof. intro H. destruct b; simpl; [exact H | apply keeps_ret]. Qed.

End Keeps.

(** ** Methods that never throw *)

Lemma returns_ret {A} (a : A) : returns (ret a).
Proof. intro s. exists a. reflexivity. Qed.

Lemma returns_get : returns get.
Proof. intro s. exists s. reflexivity. Qed.

Lemma returns_modify f : returns (modify f).
Proof. intro s. exists tt. reflexivity. Qed.

Lemma returns_bind {A B} (m : M A) (k : A -> M B) :
  returns m -> (forall a, returns (k a)) -> returns (bind m k).
Proof.
  intros Hm Hk s. rewrite result_bind. destruct (Hm s) as [a ->]. apply Hk.
Qed.

Lemma returns_try_catch {A} (m : M A) h :
  (forall e, returns (h e)) -> returns (try_catch m h).
Proof.
  intros Hh s. rewrite result_try_catch.
  destruct (result m s) as [a|e]; [exists a; reflexivity | apply Hh].
Qed.

Lemma returns_forEach {A} (l : list A) body :
  (forall x, returns (body x)) -> returns (forEach l body).
Proof.
  intro H. induction l as [|x l IH]; simpl.
  - apply returns_ret.
  - apply returns_bind; [apply H | intros _; exact IH].
Qed.

Lemma returns_when b m : returns m -> returns (when b m).
Proof. intro H. destruct b; simpl; [exact H | apply returns_ret]. Qed.

Lemma returns_unit (m : M unit) s : returns m -> result m s = Returned tt.
Proof. intro H. destruct (H s) as [[] E]. exact E. Qed.

(** After a statement that never throws, the rest runs. *)
Lemma exec_seq {B} (m : M unit) (k : M B) s :
  returns m -> exec (m ;; k) s = exec k (exec m s).
Proof. intro H. rewrite exec_bind, (returns_unit s H). reflexivity. Qed.

Lemma result_seq {B} (m : M unit) (k : M B) s :
  returns m -> result (m ;; k) s = result k (exec m s).
Proof. intro H. rewrite result_bind, (returns_unit s H). reflexivity. Qed.

Create HintDb returns discriminated.
#[export] Hint Resolve returns_ret returns_get returns_modify returns_when : returns.

Ltac returns_tac :=
  repeat first
    [ apply returns_ret | apply returns_get | apply returns_modify
    | apply returns_bind; [ | intro ]
    | apply returns_try_catch; intro
    | apply returns_forEach; intro
    | apply returns_when
    | progress cbv zeta
    | match goal with
      | |- returns (match ?x with _ => _ end) => destruct x
      end
    | solve [ auto with returns ] ].

Lemma returns_log o : returns (log o).
Proof. apply returns_modify. Qed.

Lemma returns_fresh : returns fresh.
Proof. unfold fresh. returns_tac. Qed.

Lemma returns_setTimer k d : returns (setTimer k d).
Proof. unfold setTimer. returns_tac. Qed.

Lemma returns_clearTimer id : returns (clearTimer id).
Proof. unfold clearTimer. returns_tac. Qed.

#[export] Hint Resolve returns_log returns_fresh returns_setTimer returns_clearTimer : returns.

Lemma returns_off event cb : returns (off event cb).
Proof. apply returns_modify. Qed.

Lemma returns_on event cb : returns (on event cb).
Proof. apply returns_modify. Qed.

#[export] Hint Resolve returns_off returns_on : returns.

Section EngineReturns.

Variable host : Host.

Lemma returns_emit event data : returns (emit host event data).
Proof. unfold emit. returns_tac. Qed.

#[local] Hint Resolve returns_emit : returns.

Lemma returns_set_state n : returns (set_state host n).
Proof. unfold set_state. returns_tac. Qed.

#[local] Hint Resolve returns_set_state : returns.

Lemma returns_clearHeartbeatTimers : returns clearHeartbeatTimers.
Proof. unfold clearHeartbeatTimers. returns_tac. Qed.

Lemma returns_resetHeartbeatTimeout : returns resetHeartbeatTimeout.
Proof. unfold resetHeartbeatTimeout. returns_tac. Qed.

Lemma returns_startHeartbeatTimeout : returns startHeartbeatTimeout.
Proof. unfold startHeartbeatTimeout. returns_tac. Qed.

Lemma returns_startHeartbeat : returns startHeartbeat.
Proof.
  unfold startHeartbeat. returns_tac.
Qed.

Lemma returns_clearConnectionTimeout : returns clearConnectionTimeout.
Proof. unfold clearConnectionTimeout. returns_tac. Qed.

#[local] Hint Resolve returns_clearHeartbeatTimers returns_resetHeartbeatTimeout
  returns_startHeartbeatTimeout returns_startHeartbeat
  returns_clearConnectionTimeout : returns.

Lemma returns_send data : returns (send host data).
Proof. unfold send. returns_tac. Qed.

#[local] Hint Resolve returns_send : returns.

Lemma returns_processMessageQueue : returns (processMessageQueue host).
Proof. unfold processMessageQueue. returns_tac. Qed.

Lemma returns_performReconnect : returns (performReconnect host).
Proof. unfold performReconnect. returns_tac. Qed.

#[local] Hint Resolve returns_processMessageQueue returns_performReconnect : returns.

Lemma returns_connect : returns (connect host).
Proof. unfold connect. returns_tac. Qed.

#[local] Hint Resolve returns_connect : returns.

Lemma returns_checkConnection : returns (checkConnection host).
Proof. unfold checkConnection. returns_tac. Qed.

Lemma returns_close code reason : returns (close host code reason).
Proof. unfold close. returns_tac. Qed.

Lemma returns_reconnect r : returns (reconnect host r).
Proof. unfold reconnect. returns_tac. Qed.

End EngineReturns.

#[export] Hint Resolve returns_emit returns_set_state returns_clearHeartbeatTimers
  returns_resetHeartbeatTimeout returns_startHeartbeatTimeout returns_startHeartbeat
  returns_clearConnectionTimeout returns_send returns_processMessageQueue
  returns_performReconnect returns_connect returns_checkConnection returns_close
  returns_reconnect : returns.

(** ** Two relations: a view of the instance is the same; the trace grows *)

#[export] Instance same_PreOrder {X} (view : SupaSocket -> X) : PreOrder (same view).
Proof.
  split.
  - intro s. reflexivity.
  - intros s1 s2 s3 H12 H23. unfold same in *. congruence.
Qed.

#[export] Instance grows_PreOrder (P : Obs -> Prop) : PreOrder (grows P).
Proof.
  split.
  - intro s. exists []. split; [symmetry; apply app_nil_r | constructor].
  - intros s1 s2 s3 [t1 [E1 F1]] [t2 [E2 F2]]. exists (t1 ++ t2). split.
    + rewrite E2, E1. symmetry. apply app_assoc.
    + apply Forall_app. split; assumption.
Qed.

Lemma grows_weaken (P Q : Obs -> Prop) s s' :
  (forall o, P o -> Q o) -> grows P s s' -> grows Q s s'.
Proof.
  intros H [t [E F]]. exists t. split; [exact E|].
  eapply Forall_impl; [exact H | exact F].
Qed.

Lemma grows_log (P : Obs -> Prop) o s : P o -> grows P s (exec (log o) s).
Proof. intro H. exists [o]. split; [reflexivity | repeat constructor; exact H]. Qed.

Lemma grows_quiet (P : Obs -> Prop) s s' : trace s' = trace s -> grows P s s'.
Proof. intro E. exists []. split; [rewrite E; symmetry; apply app_nil_r | constructor]. Qed.

Create HintDb keeps discriminated.

Ltac head_of t :=
  lazymatch t with
  | ?f _ => head_of f
  | _ => t
  end.

(** Decompose a method body; [leaf] proves the relation for a field update. *)
Ltac keeps_with leaf :=
  repeat first
    [ solve [ auto 2 with keeps nocore ]
    | solve [ apply keeps_ret; typeclasses eauto ]
    | solve [ apply keeps_throw; typeclasses eauto ]
    | solve [ apply keeps_get; typeclasses eauto ]
    | solve [ apply keeps_lift; typeclasses eauto ]
    | apply keeps_when; [ typeclasses eauto | ]
    | apply keeps_forEach; [ typeclasses eauto | intro ]
    | apply keeps_bind; [ typeclasses eauto | | intro ]
    | apply keeps_try_catch; [ typeclasses eauto | | intro ]
    | solve [ apply keeps_modify; intro; leaf ]
    | progress cbv zeta
    | match goal with
      | |- keeps _ (match ?x with _ => _ end) => destruct x
      end
    | match goal with
      | |- keeps _ ?m =>
          let h := head_of m in
          lazymatch h with
          | @modify => fail
          | _ => progress unfold h
          end
      end ].

Ltac same_leaf :=
  unfold same; simpl;
  first [ reflexivity
        | rewrite !flat_map_app; simpl; rewrite ?app_nil_r; reflexivity ].

Ltac frame := keeps_with same_leaf.

Ltac grows_leaf :=
  first [ apply grows_quiet; reflexivity
        | apply grows_log; simpl; auto; tauto ].

Ltac trace_grows := keeps_with grows_leaf.

(** * Session State: [ConnectionManager] *)

Section SessionState.

Variable host : Host.

Lemma observer_body_frame cb n o :
  keeps (same (fun s => (connectionManager s, notifications (trace s))))
        (match cb with
         | UserObserver f => call_user host f (PStatusChange n o)
         | EngineObserver =>
             s <- get ;;
             call_option host (onStatusChange (options s)) (PStatusChange n o) ;;
             emit host (Named "statusChange") (PStatusChange n o)
         end).
Proof. unfold notifications. frame. Qed.

Lemma guarded_observer_effect n o cb s :
  let s' := exec (guarded_observer host n o cb) s in
  connectionManager s' = connectionManager s /\
  notifications (trace s') = notifications (trace s) ++ [(cb, n, o)].
Proof.
  unfold guarded_observer, invoke_observer. simpl.
  set (body := match cb with UserObserver f => _ | EngineObserver => _ end).
  assert (E : exec (try_catch (log (Notified cb n o) ;; body) (fun _ => ret tt)) s
              = exec (try_catch body (fun _ => ret tt)) (exec (log (Notified cb n o)) s)).
  { unfold exec, try_catch, bind, log, modify. simpl. reflexivity. }
  rewrite E.
  assert (K : keeps (same (fun s => (connectionManager s, notifications (trace s))))
                    (try_catch body (fun _ => ret tt))).
  { apply keeps_try_catch; [typeclasses eauto | apply observer_body_frame | intro; apply keeps_ret; typeclasses eauto]. }
  specialize (K (exec (log (Notified cb n o)) s)). unfold same in K.
  injection K as K1 K2. rewrite K1, K2. split; [reflexivity|].
  unfold exec, log, modify, notifications. simpl. rewrite flat_map_app. reflexivity.
Qed.

Lemma returns_guarded_observer n o cb : returns (guarded_observer host n o cb).
Proof. unfold guarded_observer. apply returns_try_catch. intro. apply returns_ret. Qed.

Lemma notify_all n o l : forall s,
  let s' := exec (forEach l (guarded_observer host n o)) s in
  connectionManager s' = connectionManager s /\
  notifications (trace s') =
    notifications (trace s) ++ map (fun cb => (cb, n, o)) l.
Proof.
  induction l as [|cb l IH]; intro s; simpl.
  - split; [reflexivity | symmetry; apply app_nil_r].
  - rewrite (exec_seq _ s (returns_guarded_observer n o cb)).
    destruct (guarded_observer_effect n o cb s) as [C1 N1].
    destruct (IH (exec (guarded_observer host n o cb) s)) as [C2 N2].
    split; [congruence|]. rewrite N2, N1, <- app_assoc. reflexivity.
Qed.

Lemma set_state_effect (s : SupaSocket) (newState : ConnectionState) :
  let s' := exec (set_state host newState) s in
  result (set_state host newState) s = Returned tt /\
  if state_eqb (state_of s) newState then s' = s
  else
    state_of s' = newState /\
    statusChangeCallbacks (connectionManager s')
      = statusChangeCallbacks (connectionManager s) /\
    notifications (trace s')
      = notifications (trace s)
        ++ map (fun cb => (cb, newState, state_of s))
               (statusChangeCallbacks (connectionManager s)).
Proof.
  cbv zeta. split; [apply returns_unit, returns_set_state|].
  unfold set_state, state_of, exec, bind, get. simpl.
  destruct (state_eqb (_state (connectionManager s)) newState) eqn:E; [reflexivity|].
  change (fun callback => try_catch (invoke_observer host callback newState
            (_state (connectionManager s))) (fun _ => ret tt))
    with (guarded_observer host newState (_state (connectionManager s))).
  set (s1 := set_connectionManager _ s).
  destruct (notify_all newState (_state (connectionManager s))
              (statusChangeCallbacks (connectionManager s)) s1) as [C N].
  unfold exec in C, N. unfold bind, modify. simpl.
  fold s1. rewrite C, N. repeat split; reflexivity.
Qed.

Lemma set_state_state (s : SupaSocket) (newState : ConnectionState) :
  state_of (exec (set_state host newState) s) = newState.
Proof.
  destruct (set_state_effect s newState) as [_ H].
  destruct (state_eqb (state_of s) newState) eqn:E.
  - cbv zeta in H. rewrite H. apply state_eqb_eq. exact E.
  - apply H.
Qed.

(** C6. [set state(newState)] never throws.  When [newState] is the current
    state nothing at all changes (no observer is called).  Otherwise the
    state becomes [newState], the observer list stays as it was, and the
    observers called are exactly the registered ones, each once, in
    registration order, each with [(newState, oldState)] - whatever the
    observers do, including throwing. *)
Theorem set_state_notifies_each_observer_once
  (s : SupaSocket) (newState : ConnectionState) :
  let s' := exec (set_state host newState) s in
  result (set_state host newState) s = Returned tt /\
  if state_eqb (state_of s) newState then s' = s
  else
    state_of s' = newState /\
    statusChangeCallbacks (connectionManager s')
      = statusChangeCallbacks (connectionManager s) /\
    notifications (trace s')
      = notifications (trace s)
        ++ map (fun cb => (cb, newState, state_of s))
               (statusChangeCallbacks (connectionManager s)).
Proof. exact (set_state_effect s newState). Qed.

End SessionState.

(** * Event Dispatcher: what a publish does *)

Lemma exec_get {B} (k : SupaSocket -> M B) s : exec (x <- get ;; k x) s = exec (k s) s.
Proof. reflexivity. Qed.

Lemma exec_modify {B} f (k : M B) s : exec (modify f ;; k) s = exec k (f s).
Proof. reflexivity. Qed.

Lemma result_get {B} (k : SupaSocket -> M B) s :
  result (x <- get ;; k x) s = result (k s) s.
Proof. reflexivity. Qed.

Lemma result_modify {B} f (k : M B) s : result (modify f ;; k) s = result k (f s).
Proof. reflexivity. Qed.

Section Dispatch.

Variable host : Host.

Lemma dispatch_frame callbacks data :
  keeps (same core)
    (forEach callbacks (fun callback =>
       try_catch (call_listener host callback data) (fun _ => ret tt))).
Proof. frame. Qed.

Lemma dispatch_calls callbacks data :
  keeps (grows is_call)
    (forEach callbacks (fun callback =>
       try_catch (call_listener host callback data) (fun _ => ret tt))).
Proof. trace_grows. Qed.

(** A publish touches nothing but the listener map and the trace, to which
    it adds the publish itself and then the calls of listeners. *)
Lemma emit_effect event data s :
  let s' := exec (emit host event data) s in
  core s' = core s /\
  exists t, trace s' = trace s ++ Published event data :: t /\ Forall is_call t.
Proof.
  cbv zeta. unfold emit, log. rewrite exec_modify, exec_get.
  set (s1 := set_trace _ s).
  destruct (bus_lookup event (eventBus s1)) as [callbacks|].
  - split.
    + apply (dispatch_frame callbacks data s1).
    + destruct (dispatch_calls callbacks data s1) as [t [E F]].
      exists t. split; [|exact F]. rewrite E. unfold s1. simpl.
      rewrite <- app_assoc. reflexivity.
  - split; [reflexivity|]. exists []. split; [reflexivity | constructor].
Qed.

End Dispatch.

(** * Reconnection Controller *)

Lemma exec_setTimer k d s :
  exec (_ <- setTimer k d ;; ret tt) s
  = set_trace (trace s ++ [TimerSet k (nextId s) d])
      (set_timers (timers s ++ [{| tid := nextId s; kind := k; delay := d |}])
         (set_nextId (S (nextId s)) s)).
Proof. reflexivity. Qed.

Section Reconnection.

Variable host : Host.

Lemma set_state_shell n : keeps (same shell) (set_state host n).
Proof. unfold shell, reconnect_delays, failures. frame. Qed.

Lemma emit_delays event data :
  keeps (same (fun s => reconnect_delays (trace s))) (emit host event data).
Proof. unfold reconnect_delays. frame. Qed.

Lemma performReconnect_exhausted s :
  limit_reached (options s) (reconnectCount s) = true ->
  performReconnect host s
  = emit host (Named "reconnectFailed")
      (PReconnectFailed (reconnectCount s) (reconnectLimit (options s))) s.
Proof.
  intro H. unfold performReconnect, bind at 1, get at 1. cbv zeta. rewrite H.
  reflexivity.
Qed.

Lemma failures_emit attempts limit s :
  failures (trace (exec (emit host (Named "reconnectFailed")
                           (PReconnectFailed attempts limit)) s))
  = failures (trace s) ++ [(attempts, limit)].
Proof.
  destruct (emit_effect host (Named "reconnectFailed")
              (PReconnectFailed attempts limit) s) as [_ [t [E F]]].
  rewrite E. unfold failures. rewrite flat_map_app. simpl. f_equal.
  replace (flat_map failure t) with (@nil (nat * option Q)); [reflexivity|].
  clear E. induction F as [|o t Ho F IH]; [reflexivity|].
  simpl. rewrite <- IH. destruct o; try contradiction. reflexivity.
Qed.

(** An invocation below the limit: one more attempt, one more backoff step,
    one reconnection scheduled after [backoff_delay]. *)
Lemma performReconnect_attempt s :
  limit_reached (options s) (reconnectCount s) = false ->
  let s' := exec (performReconnect host) s in
  state_of s' = RECONNECTING /\
  reconnectCount s' = S (reconnectCount s) /\
  currentBackoff s' = S (currentBackoff s) /\
  options s' = options s /\
  (ws s', messageQueue s', explicitClose s') = (ws s, messageQueue s, explicitClose s) /\
  timers s' = timers s ++ [{| tid := nextId s; kind := ReconnectDelayT;
                              delay := backoff_delay (options s) (currentBackoff s) |}] /\
  reconnect_delays (trace s')
    = reconnect_delays (trace s) ++ [backoff_delay (options s) (currentBackoff s)] /\
  failures (trace s') = failures (trace s).
Proof.
  intro H. cbv zeta. unfold performReconnect. rewrite exec_get. cbv zeta. rewrite H.
  rewrite (exec_seq _ s (returns_set_state host RECONNECTING)).
  pose proof (set_state_shell RECONNECTING s) as K1.
  pose proof (set_state_state host s RECONNECTING) as St.
  set (s1 := exec (set_state host RECONNECTING) s) in *.
  rewrite exec_modify, exec_get. cbv zeta. rewrite exec_modify, exec_get.
  set (s3 := set_currentBackoff _ _).
  rewrite (exec_seq _ s3 (returns_emit host _ _)).
  match goal with |- context [exec (emit host ?e ?d) s3] =>
    destruct (emit_effect host e d s3) as [C [t [E F]]];
    pose proof (emit_delays e d s3) as D;
    set (s4 := exec (emit host e d) s3) in *
  end.
  assert (Fl : failures (trace s4) = failures (trace s3)).
  { rewrite E. unfold failures. rewrite flat_map_app. simpl.
    replace (flat_map failure t) with (@nil (nat * option Q));
      [apply app_nil_r|].
    clear E. induction F as [|o t Ho F IH]; [reflexivity|].
    simpl. rewrite <- IH. destruct o; try contradiction. reflexivity. }
  unfold same, shell in K1. unfold core in C. unfold same in D.
  injection K1 as K1a K1b K1c K1d K1e K1f K1g K1h K1i K1j K1k K1l K1m K1n.
  injection C as Ca Cb Cc Cd Ce Cf Cg Ch Ci Cj Ck Cl Cm.
  rewrite exec_setTimer. unfold state_of.
  cbn [connectionManager reconnectCount currentBackoff options ws messageQueue
       explicitClose timers trace set_trace set_timers set_nextId].
  assert (Ed : forall tr id d, reconnect_delays (tr ++ [TimerSet ReconnectDelayT id d])
                               = reconnect_delays tr ++ [d]).
  { intros. unfold reconnect_delays. rewrite flat_map_app. reflexivity. }
  assert (Ef : forall tr id d, failures (tr ++ [TimerSet ReconnectDelayT id d])
                               = failures tr).
  { intros. unfold failures. rewrite flat_map_app. apply app_nil_r. }
  rewrite Ed, Ef, D, Fl. subst s3.
  cbn [trace set_currentBackoff set_reconnectCount currentBackoff].
  rewrite Cf, Cb, Cj, Ck, Ca, Cg, Ci, Cl, Cm.
  rewrite K1a, K1b, K1f, K1h, K1i, K1j, K1k, K1l, K1m, K1n.
  repeat split; try reflexivity. exact St.
Qed.

End Reconnection.

(** ** The attempt limit *)

Section ReconnectionLimit.

Variable host : Host.

Lemma exhausted_once s :
  limit_reached (options s) (reconnectCount s) = true ->
  let s' := exec (performReconnect host) s in
  core s' = core s /\
  failures (trace s')
    = failures (trace s) ++ [(reconnectCount s, reconnectLimit (options s))] /\
  reconnect_delays (trace s') = reconnect_delays (trace s).
Proof.
  intro H. cbv zeta. unfold exec. rewrite (performReconnect_exhausted host s H).
  fold (exec (emit host (Named "reconnectFailed")
          (PReconnectFailed (reconnectCount s) (reconnectLimit (options s)))) s).
  split; [apply emit_effect|]. split; [apply failures_emit | apply emit_delays].
Qed.

Lemma core_counters s s' :
  core s' = core s ->
  reconnectCount s' = reconnectCount s /\ currentBackoff s' = currentBackoff s /\
  options s' = options s /\ state_of s' = state_of s /\ timers s' = timers s.
Proof.
  unfold core, state_of. intro H.
  injection H as Ha Hb Hc Hd He Hf Hg Hh Hi Hj Hk Hl Hm.
  rewrite Hb, Hj, Hk, Hf, Hl. repeat split; reflexivity.
Qed.

(** C10 (as amended: the threshold is [reconnectLimit], or 5 when
    [reconnectLimit] is 0 or unset).  When the reconnection routine is
    entered with [reconnectCount] at or above the threshold, however many
    times in a row, nothing of the instance changes but the trace: the
    session state, both counters, the options, the queue and the timers
    are as before, and every invocation publishes [reconnectFailed] with
    the same [{attempts, limit}]. *)
Theorem exhausted_reconnect_mutates_nothing (s : SupaSocket) (n : nat) :
  limit_reached (options s) (reconnectCount s) = true ->
  let sn := Nat.iter n (exec (performReconnect host)) s in
  core sn = core s /\
  state_of sn = state_of s /\
  reconnectCount sn = reconnectCount s /\
  currentBackoff sn = currentBackoff s /\
  failures (trace sn)
    = failures (trace s) ++ repeat (reconnectCount s, reconnectLimit (options s)) n.
Proof.
  intro H. cbv zeta. induction n as [|n IH]; simpl.
  - repeat split; try reflexivity. symmetry. apply app_nil_r.
  - destruct IH as [C [St [Rc [Cb Fl]]]].
    set (sn := Nat.iter n (exec (performReconnect host)) s) in *.
    destruct (core_counters C) as [_ [_ [Op _]]].
    assert (Hn : limit_reached (options sn) (reconnectCount sn) = true)
      by (rewrite Op, Rc; exact H).
    destruct (exhausted_once sn Hn) as [C' [Fl' _]].
    assert (C2 : core (exec (performReconnect host) sn) = core s) by congruence.
    destruct (core_counters C2) as [R2 [B2 [_ [S2 _]]]].
    repeat split; try assumption.
    rewrite Fl', Fl, Rc, Op, <- app_assoc. f_equal.
    change ([(reconnectCount s, reconnectLimit (options s))])
      with (repeat (reconnectCount s, reconnectLimit (options s)) 1).
    rewrite <- repeat_app. replace (n + 1)%nat with (S n) by lia. reflexivity.
Qed.

(** C2 (as amended: the threshold is [reconnectLimit], or 5 when
    [reconnectLimit] is 0 or unset).  An invocation of the reconnection
    routine at or above the threshold publishes [reconnectFailed] with
    [{attempts: reconnectCount, limit: reconnectLimit}] and schedules
    nothing (the timers are untouched); below it, it publishes no failure
    and schedules one reconnection.  With [reconnectLimit = 2],
    [reconnectInterval = 1000], [maxReconnectDelay = 5000], three failures
    in a row schedule reconnections after 1000 and 1500 and then publish
    [reconnectFailed] with [{attempts: 2, limit: 2}]. *)
Theorem reconnect_stops_at_limit (s : SupaSocket) :
  let s' := exec (performReconnect host) s in
  (if Qle_bool (or_default (reconnectLimit (options s)) 5)
               (inject_Z (Z.of_nat (reconnectCount s)))
   then failures (trace s')
          = failures (trace s) ++ [(reconnectCount s, reconnectLimit (options s))] /\
        timers s' = timers s /\
        reconnect_delays (trace s') = reconnect_delays (trace s)
   else failures (trace s') = failures (trace s) /\
        reconnect_delays (trace s')
          = reconnect_delays (trace s)
            ++ [backoff_delay (options s) (currentBackoff s)]) /\
  let s3 := run calm_host three_failures
              (constructor calm_host (options_with (Some 2) (Some 1000) (Some 5000))) in
  reconnect_delays (trace s3) = [1000; 1500] /\
  failures (trace s3) = [(2%nat, Some 2)].
Proof.
  cbv zeta. split; [|split; vm_compute; reflexivity].
  fold (limit_reached (options s) (reconnectCount s)).
  destruct (limit_reached (options s) (reconnectCount s)) eqn:H.
  - destruct (exhausted_once s H) as [C [Fl D]].
    destruct (core_counters C) as [_ [_ [_ [_ T]]]]. auto.
  - destruct (performReconnect_attempt host s H) as [_ [_ [_ [_ [_ [_ [D Fl]]]]]]].
    auto.
Qed.

(** * [checkConnection] *)

Lemma checkConnection_effect (s : SupaSocket) :
  result (checkConnection host) s = Returned (state_of s) /\
  exec (checkConnection host) s
  = if state_eqb (state_of s) CLOSED && negb (explicitClose s)
       && autoReconnect (options s)
    then exec (performReconnect host) s else s.
Proof.
  unfold checkConnection. rewrite result_get, exec_get. cbv zeta.
  set (c := state_eqb (state_of s) CLOSED && negb (explicitClose s)
            && autoReconnect (options s)).
  assert (R : returns (when c (performReconnect host)))
    by (apply returns_when, returns_performReconnect).
  rewrite (result_seq _ s R), (exec_seq _ s R). split; [reflexivity|].
  destruct c; reflexivity.
Qed.

(** C9 (as amended: the state returned is the one read when the call
    starts).  [checkConnection()] runs the reconnection routine exactly when
    the session state is [CLOSED], the last close was not explicit and
    auto-reconnect is on, and does nothing else; it returns the session
    state as it was on entry. *)
Theorem checkConnection_returns_state_on_entry (s : SupaSocket) :
  result (checkConnection host) s = Returned (state_of s) /\
  exec (checkConnection host) s
  = if state_eqb (state_of s) CLOSED && negb (explicitClose s)
       && autoReconnect (options s)
    then exec (performReconnect host) s else s.
Proof. exact (checkConnection_effect s). Qed.

End ReconnectionLimit.

(** The instance of the scenario after its third failure is at the limit;
    two more invocations change nothing and publish the same payload. *)
Lemma exhausted_reconnect_mutates_nothing_witness :
  limit_reached (options exhausted_instance) (reconnectCount exhausted_instance) = true /\
  let sn := Nat.iter 2 (exec (performReconnect calm_host)) exhausted_instance in
  core sn = core exhausted_instance /\
  state_of sn = state_of exhausted_instance /\
  reconnectCount sn = reconnectCount exhausted_instance /\
  currentBackoff sn = currentBackoff exhausted_instance /\
  failures (trace sn)
    = failures (trace exhausted_instance)
      ++ repeat (reconnectCount exhausted_instance,
                 reconnectLimit (options exhausted_instance)) 2.
Proof.
  split; [reflexivity|].
  apply (exhausted_reconnect_mutates_nothing calm_host exhausted_instance 2).
  reflexivity.
Defined.

(** With [reconnectLimit: 0] the threshold is 5: the first failure of a new
    instance, at [reconnectCount = 0 >= 0], publishes no [reconnectFailed]
    and schedules a reconnection. *)
Lemma limit_zero_reconnects :
  let s := constructor calm_host (options_with (Some 0) (Some 1000) (Some 5000)) in
  let s' := exec (performReconnect calm_host) s in
  at_stated_limit s = true /\
  failures (trace s') = [] /\
  reconnect_delays (trace s') = [1000].
Proof. vm_compute. repeat split; reflexivity. Qed.

(** With [reconnectLimit: 0], an invocation at [reconnectCount = 1] (the
    second connection attempt is under way) changes the session state and
    both counters. *)
Lemma limit_zero_mutates :
  let s := run calm_host [TransportClose 1006 ""; TimerFired 1 0]
             (constructor calm_host (options_with (Some 0) (Some 1000) (Some 5000))) in
  let s' := exec (performReconnect calm_host) s in
  at_stated_limit s = true /\
  (state_of s, reconnectCount s, currentBackoff s) = (CONNECTING, 1, 1)%nat /\
  (state_of s', reconnectCount s', currentBackoff s') = (RECONNECTING, 2, 2)%nat /\
  failures (trace s') = [].
Proof. vm_compute. repeat split; reflexivity. Qed.

(** A closed instance with auto-reconnect on and no explicit close:
    [checkConnection()] returns [CLOSED] while the state it leaves is
    [RECONNECTING]. *)
Lemma checkConnection_returns_stale_state :
  let s := run calm_host
             [CallDisableAutoReconnect; TransportClose 1006 ""; CallEnableAutoReconnect]
             (constructor calm_host default_options) in
  result (checkConnection calm_host) s = Returned CLOSED /\
  state_of (exec (checkConnection calm_host) s) = RECONNECTING.
Proof. vm_compute. split; reflexivity. Qed.

(** * [send] *)

Lemma calls_unselected {X} (sel : Obs -> list X) t :
  (forall f a, sel (Called f a) = []) -> Forall is_call t -> flat_map sel t = [].
Proof.
  intros H F. induction F as [|o t Ho F IH]; [reflexivity|].
  simpl. rewrite IH. destruct o; try contradiction. rewrite H. reflexivity.
Qed.

Lemma emit_selected {X} (sel : Obs -> list X) host event data s :
  (forall f a, sel (Called f a) = []) ->
  flat_map sel (trace (exec (emit host event data) s))
  = flat_map sel (trace s) ++ sel (Published event data).
Proof.
  intro H. destruct (emit_effect host event data s) as [_ [t [E F]]].
  rewrite E, flat_map_app. simpl. rewrite (calls_unselected sel H F).
  rewrite app_nil_r. reflexivity.
Qed.

Lemma prepareMessage_serialized host data s :
  prepareMessage host data s
  = (match serialized host data with
     | Some m => Returned m
     | None => Thrown TypeError
     end, s).
Proof.
  unfold prepareMessage, serialized.
  destruct data; try reflexivity; simpl;
    match goal with |- context [JSON_stringify host ?v] =>
      destruct (JSON_stringify host v); reflexivity end.
Qed.

Section Send.

Variable host : Host.

Lemma transmit_effect data s :
  transmit host data s
  = match serialized host data with
    | Some m =>
        if send_throws host m then (Thrown SendFailure, s)
        else (Returned true, set_trace (trace s ++ [Sent m]) s)
    | None => (Thrown TypeError, s)
    end.
Proof.
  unfold transmit, bind at 1. rewrite prepareMessage_serialized.
  destruct (serialized host data) as [m|]; [|reflexivity].
  unfold ws_send, bind. destruct (send_throws host m); reflexivity.
Qed.

Lemma send_failed error data s :
  let report := emit host (Named "error") (PError sendError error (Some data)) ;; ret false in
  result report s = Returned false /\
  core (exec report s) = core s /\
  sent (trace (exec report s)) = sent (trace s) /\
  errors (trace (exec report s))
    = errors (trace s) ++ [(Named "error", sendError, error, Some data)].
Proof.
  cbv zeta.
  rewrite (exec_seq _ s (returns_emit host _ _)), (result_seq _ s (returns_emit host _ _)).
  change (exec (ret false) ?x) with x.
  split; [reflexivity|]. split; [apply emit_effect|]. split.
  - unfold sent. rewrite (emit_selected sent_message); [apply app_nil_r | reflexivity].
  - unfold errors. rewrite (emit_selected error_publish); reflexivity.
Qed.

Lemma send_open data s :
  transport_open s = true ->
  let s' := exec (send host data) s in
  core s' = core s /\
  sent (trace s') = sent (trace s) ++ transmitted host data /\
  match serialized host data with
  | Some m =>
      if send_throws host m
      then result (send host data) s = Returned false /\
           errors (trace s')
             = errors (trace s) ++ [(Named "error", sendError, SendFailure, Some data)]
      else result (send host data) s = Returned true /\
           s' = set_trace (trace s ++ [Sent m]) s
  | None =>
      result (send host data) s = Returned false /\
      errors (trace s')
        = errors (trace s) ++ [(Named "error", sendError, TypeError, Some data)]
  end.
Proof.
  intro H. cbv zeta. unfold send, transmitted.
  rewrite exec_get, result_get, H. fold (transmit host data).
  rewrite exec_try_catch, result_try_catch.
  assert (T : transmit host data s = (result (transmit host data) s, exec (transmit host data) s))
    by (unfold result, exec; destruct (transmit host data s); reflexivity).
  rewrite transmit_effect in T.
  destruct (serialized host data) as [m|].
  - destruct (send_throws host m); injection T as <- <-.
    + destruct (send_failed SendFailure data s) as [R [C [S E]]].
      rewrite app_nil_r. auto.
    + unfold sent. cbn [trace set_trace]. rewrite flat_map_app.
      repeat split; reflexivity.
  - injection T as <- <-. destruct (send_failed TypeError data s) as [R [C [S E]]].
    rewrite app_nil_r. auto.
Qed.

Lemma send_queued data s :
  transport_open s = false -> queues s = true ->
  result (send host data) s = Returned true /\
  exec (send host data) s = set_messageQueue (messageQueue s ++ [data]) s.
Proof.
  intros H Q. unfold send. rewrite exec_get, result_get, H.
  unfold queues in Q. rewrite Q. split; reflexivity.
Qed.

Lemma send_rejected data s :
  transport_open s = false -> queues s = false ->
  let s' := exec (send host data) s in
  result (send host data) s = Returned false /\
  core s' = core s /\
  sent (trace s') = sent (trace s) /\
  errors (trace s')
    = errors (trace s) ++ [(Named "error", sendError, ClosedError, Some data)].
Proof.
  intros H Q. cbv zeta. unfold send. rewrite exec_get, result_get, H.
  unfold queues in Q. rewrite Q. apply send_failed.
Qed.

(** C3 (as amended: the transport is looked at first, the session state
    only when the transport is not open).  [send(data)] does one of three
    things.  On an open transport the payload is serialized (a string or
    binary as it is, anything else through [JSON.stringify]) and handed to
    the transport: [true] when that succeeds, [false] and a [sendError]
    error event when serializing or sending throws; the queue is untouched.
    Otherwise, in state [CONNECTING] or [RECONNECTING], the payload is
    appended to the queue, nothing else changes, and the result is [true].
    Otherwise a [sendError] error event is published, the result is [false],
    nothing is sent and the queue (as every field but the listener map and
    the trace) is as before. *)
Theorem send_one_of_three_ways (s : SupaSocket) (data : JsValue) :
  let s' := exec (send host data) s in
  let r := result (send host data) s in
  if transport_open s then
    messageQueue s' = messageQueue s /\
    sent (trace s') = sent (trace s) ++ transmitted host data /\
    match serialized host data with
    | Some m =>
        if send_throws host m
        then r = Returned false /\
             errors (trace s')
               = errors (trace s) ++ [(Named "error", sendError, SendFailure, Some data)]
        else r = Returned true /\ s' = set_trace (trace s ++ [Sent m]) s
    | None =>
        r = Returned false /\
        errors (trace s')
          = errors (trace s) ++ [(Named "error", sendError, TypeError, Some data)]
    end
  else if queues s then
    r = Returned true /\ s' = set_messageQueue (messageQueue s ++ [data]) s
  else
    r = Returned false /\
    core s' = core s /\
    messageQueue s' = messageQueue s /\
    sent (trace s') = sent (trace s) /\
    errors (trace s')
      = errors (trace s) ++ [(Named "error", sendError, ClosedError, Some data)].
Proof.
  cbv zeta. destruct (transport_open s) eqn:H.
  - destruct (send_open data s H) as [C [S M]]. split; [|split; assumption].
    unfold core in C. injection C as Ca Cb Cc Cd Ce Cf Cg Ch Ci Cj Ck Cl Cm. exact Cg.
  - destruct (queues s) eqn:Q.
    + apply send_queued; assumption.
    + destruct (send_rejected data s H Q) as [R [C [S E]]].
      repeat split; try assumption.
      unfold core in C. injection C as Ca Cb Cc Cd Ce Cf Cg Ch Ci Cj Ck Cl Cm. exact Cg.
Qed.

End Send.

(** After [close(1001)] on an open connection ([WebSocket.close] rejects the
    code, the transport stays open) the session state is [CLOSED]; a send
    goes out, returns [true], and publishes no error. *)
Lemma send_in_closed_state_transmits :
  let s := run calm_host [TransportOpen; CallClose (Some 1001%Z) None]
             (constructor calm_host default_options) in
  let s' := exec (send calm_host (VStr "hi")) s in
  state_of s = CLOSED /\
  result (send calm_host (VStr "hi")) s = Returned true /\
  sent (trace s') = sent (trace s) ++ [MText "hi"] /\
  errors (trace s') = errors (trace s).
Proof. vm_compute. repeat split; reflexivity. Qed.

(** * Heartbeat: recognising a pong *)

Lemma every_true keys test :
  every keys test = Returned true <-> forall key, In key keys -> test key = Returned true.
Proof.
  induction keys as [|k keys IH]; simpl.
  - split; [intros _ key [] | reflexivity].
  - destruct (test k) as [[|]|e] eqn:E.
    + rewrite IH. split.
      * intros H key [<-|Hin]; [exact E | apply H, Hin].
      * intros H key Hin. apply H. right. exact Hin.
    + split; [discriminate|]. intro H. rewrite <- E. apply H. left. reflexivity.
    + split; [discriminate|]. intro H. rewrite <- E. apply H. left. reflexivity.
Qed.

Lemma pong_key_matches_true data pongMessage key :
  pong_key_matches data pongMessage key = Returned true
  <-> key_agrees data pongMessage key.
Proof.
  unfold pong_key_matches, key_agrees. split.
  - destruct (get_prop data key) as [v|e]; [|discriminate].
    destruct (is_undefined v) eqn:U; simpl; [discriminate|].
    destruct (get_prop pongMessage key) as [p|e]; [|discriminate].
    intro H. injection H as H. exists v, p. auto.
  - intros [v [p [-> [-> [-> H]]]]]. simpl. rewrite H. reflexivity.
Qed.

Lemma strict_eq_pong t : strict_eq t (VStr "pong") = true <-> t = VStr "pong".
Proof.
  destruct t; simpl; split; try discriminate.
  - intro H. apply String.eqb_eq in H. subst. reflexivity.
  - intro H. injection H as ->. reflexivity.
Qed.

Lemma get_prop_truthy data key :
  truthy data = true -> exists v, get_prop data key = Returned v.
Proof.
  destruct data; simpl; try discriminate; intros _; eauto.
  destruct (lookup_field key fields); eauto.
Qed.

Section Pong.

Variable host : Host.

Lemma isPongMessage_true opts data :
  isPongMessage host opts data = Returned true <->
  exists d, decoded host data = Some d /\
    if structured (pongMessage opts)
    then forall key, In key (object_keys (pongMessage opts)) ->
                     key_agrees d (pongMessage opts) key
    else truthy d = true /\ is_object_type d = true /\
         get_prop d "type" = Returned (VStr "pong").
Proof.
  unfold isPongMessage, decoded, structured.
  destruct (truthy data) eqn:T; simpl.
  2:{ split; [discriminate | intros [d [H _]]; discriminate]. }
  set (parsed := match data with VStr s => JSON_parse host s | _ => Some data end).
  destruct parsed as [d|].
  2:{ split; [discriminate | intros [d [H _]]; discriminate]. }
  destruct (truthy (pongMessage opts) && is_object_type (pongMessage opts)).
  - rewrite every_true. split.
    + intro H. exists d. split; [reflexivity|]. intros key Hin.
      apply pong_key_matches_true, H, Hin.
    + intros [d' [E H]] key Hin. injection E as <-.
      apply pong_key_matches_true, H, Hin.
  - split.
    + intro H. exists d. split; [reflexivity|].
      destruct (truthy d); [|discriminate]. destruct (is_object_type d); [|discriminate].
      simpl in H. destruct (get_prop d "type") as [t|e]; [|discriminate].
      injection H as H. apply strict_eq_pong in H. subst. auto.
    + intros [d' [E [H1 [H2 H3]]]]. injection E as <-.
      rewrite H1, H2, H3. reflexivity.
Qed.

Lemma resetHeartbeatTimeout_effect s :
  let s' := exec resetHeartbeatTimeout s in
  heartbeatTimeoutTimer s' = None /\
  timers s' = match heartbeatTimeoutTimer s with
              | Some t => filter (fun u => negb (tid u =? t)) (timers s)
              | None => timers s
              end /\
  publishes (trace s') = publishes (trace s).
Proof.
  cbv zeta. unfold resetHeartbeatTimeout. rewrite exec_get.
  destruct (heartbeatTimeoutTimer s) as [t|] eqn:E.
  - unfold exec, clearTimer, log, bind, modify. simpl.
    unfold publishes. rewrite flat_map_app. simpl. rewrite app_nil_r. auto.
  - unfold exec, ret. simpl. auto.
Qed.

Lemma onmessage_effect s event_data now :
  let data := received host (options s) event_data in
  let s' := exec (onmessage host event_data now) s in
  match isPongMessage host (options s) data with
  | Returned true =>
      result (onmessage host event_data now) s = Returned tt /\
      heartbeatTimeoutTimer s' = None /\
      timers s' = match heartbeatTimeoutTimer s with
                  | Some t => filter (fun u => negb (tid u =? t)) (timers s)
                  | None => timers s
                  end /\
      publishes (trace s') = publishes (trace s)
  | Returned false =>
      publishes (trace s')
      = publishes (trace s) ++ (Named "message", PData data) :: type_publish data
  | Thrown e =>
      publishes (trace s')
      = publishes (trace s)
        ++ [(Named "error", PError messageError e (Some (message_value event_data)))]
  end.
Proof.
  cbv zeta. unfold onmessage. rewrite exec_modify, result_modify.
  set (s0 := set_lastMessageTime now s).
  rewrite exec_try_catch, result_try_catch, exec_get, result_get.
  change (options s0) with (options s).
  fold (received host (options s) event_data).
  set (data := received host (options s) event_data).
  rewrite exec_bind, result_bind.
  change (result (lift ?o) s0) with o. change (exec (lift ?o) s0) with s0.
  destruct (isPongMessage host (options s) data) as [[|]|e].
  - rewrite (returns_unit s0 returns_resetHeartbeatTimeout).
    split; [reflexivity|]. apply (resetHeartbeatTimeout_effect s0).
  - set (body := emit host (Named "message") (PData data) ;; _).
    assert (P : publishes (trace (exec body s0))
                = publishes (trace s) ++ (Named "message", PData data) :: type_publish data).
    { unfold body. rewrite (exec_seq _ s0 (returns_emit host _ _)).
      set (s1 := exec (emit host (Named "message") (PData data)) s0).
      assert (P1 : publishes (trace s1) = publishes (trace s) ++ [(Named "message", PData data)]).
      { unfold s1, publishes. rewrite (emit_selected publish); reflexivity. }
      unfold type_publish.
      destruct (truthy data && is_object_type data).
      - rewrite exec_bind. change (result (lift ?o) s1) with o.
        change (exec (lift ?o) s1) with s1.
        destruct (get_prop data "type") as [t|e'].
        + destruct (truthy t); simpl when.
          * unfold publishes. rewrite (emit_selected publish); [|reflexivity].
            fold (publishes (trace s1)). rewrite P1, <- app_assoc. reflexivity.
          * change (exec (ret tt) s1) with s1. rewrite P1. reflexivity.
        + rewrite P1. reflexivity.
      - change (exec (ret tt) s1) with s1. rewrite P1. reflexivity. }
    assert (R : result body s0 = Returned tt).
    { unfold body. rewrite (result_seq _ s0 (returns_emit host _ _)).
      destruct (truthy data && is_object_type data) eqn:T; [|reflexivity].
      apply andb_prop in T. destruct T as [T _].
      destruct (get_prop_truthy data "type" T) as [t Et].
      rewrite result_bind, Et. change (result (lift ?o) ?x) with o. cbv iota beta.
      apply returns_unit, returns_when, returns_emit. }
    rewrite R. exact P.
  - unfold publishes. rewrite (emit_selected publish); reflexivity.
Qed.

End Pong.

(** With the template [{}], every key of the template (there is none) has
    an equal value in the payload [0], yet [0] is no pong: the text ["0"]
    is published as a message. *)
Lemma falsy_payload_never_matches :
  let opts := set_pongMessage (VObj []) default_options in
  let s := run calm_host [TransportOpen] (constructor calm_host opts) in
  let s' := step calm_host (TransportMessage (MText "0") 1) s in
  structured (pongMessage opts) = true /\
  received calm_host opts (MText "0") = VNum 0 /\
  (forall key, In key (object_keys (pongMessage opts)) ->
               key_agrees (VNum 0) (pongMessage opts) key) /\
  isPongMessage calm_host opts (VNum 0) = Returned false /\
  publishes (trace s') = publishes (trace s) ++ [(Named "message", PData (VNum 0))].
Proof.
  cbv zeta. split; [reflexivity|]. split; [reflexivity|]. split; [intros key []|].
  split; vm_compute; reflexivity.
Qed.

(** * Event Dispatcher: [once] *)

(** C8.  A callback registered with [once] that throws on its first call is
    still registered afterwards and is called again by the next publish:
    two publishes of [message], two calls.  (A callback that returns is
    removed by its first call and is called once.) *)
Theorem once_callback_that_throws_runs_twice :
  let host := example_host (throws_first 7) in
  let start := constructor host default_options in
  let calm := constructor calm_host default_options in
  calls_of 7 (trace (run host one_message start)) = 1%nat /\
  EventBus_hasListeners "message" (eventBus (run host one_message start)) = true /\
  calls_of 7 (trace (run host two_messages start)) = 2%nat /\
  EventBus_hasListeners "message" (eventBus (run calm_host one_message calm)) = false /\
  calls_of 7 (trace (run calm_host two_messages calm)) = 1%nat.
Proof. vm_compute. repeat split; reflexivity. Qed.

(** * Outbound Queue *)

Lemma unsent (P : Obs -> Prop) t :
  (forall o, P o -> is_sent o = false) -> Forall P t -> sent t = [].
Proof.
  intros H F. induction F as [|o t Ho F IH]; [reflexivity|].
  unfold sent in *. simpl. rewrite IH. apply H in Ho.
  destruct o; try reflexivity. discriminate Ho.
Qed.

Section Queue.

Variable host : Host.

Lemma returns_send_once msg : returns (_ <- send host msg ;; ret tt).
Proof. returns_tac. Qed.

Lemma exec_send_once msg s : exec (_ <- send host msg ;; ret tt) s = exec (send host msg) s.
Proof.
  rewrite exec_bind. destruct (returns_send host msg s) as [b ->]. reflexivity.
Qed.

Lemma send_each_open payloads : forall s,
  transport_open s = true ->
  let s' := exec (send_each host payloads) s in
  core s' = core s /\
  sent (trace s') = sent (trace s) ++ flat_map (transmitted host) payloads.
Proof.
  induction payloads as [|d l IH]; intros s H; cbv zeta.
  - split; [reflexivity | symmetry; apply app_nil_r].
  - unfold send_each. simpl forEach.
    rewrite (exec_seq _ s (returns_send_once d)), exec_send_once.
    destruct (send_open host d s H) as [C [S _]].
    set (s1 := exec (send host d) s) in *.
    assert (H1 : transport_open s1 = true).
    { unfold transport_open. unfold core in C.
      injection C as Ca _ _ _ _ _ _ _ _ _ _ _ _. rewrite Ca. exact H. }
    destruct (IH s1 H1) as [C' S']. unfold send_each in C', S'.
    split; [congruence|]. rewrite S', S, <- app_assoc. reflexivity.
Qed.

Lemma send_each_queued payloads : forall s,
  transport_open s = false -> queues s = true ->
  exec (send_each host payloads) s = set_messageQueue (messageQueue s ++ payloads) s.
Proof.
  induction payloads as [|d l IH]; intros s H Q.
  - simpl. rewrite app_nil_r. destruct s; reflexivity.
  - unfold send_each. simpl forEach.
    rewrite (exec_seq _ s (returns_send_once d)), exec_send_once.
    destruct (send_queued host d s H Q) as [_ ->].
    fold (send_each host l). rewrite IH; [|exact H|exact Q].
    simpl. rewrite <- app_assoc. reflexivity.
Qed.

Lemma send_each_rejected payloads : forall s,
  transport_open s = false -> queues s = false ->
  let s' := exec (send_each host payloads) s in
  core s' = core s /\ sent (trace s') = sent (trace s).
Proof.
  induction payloads as [|d l IH]; intros s H Q; cbv zeta.
  - split; reflexivity.
  - unfold send_each. simpl forEach.
    rewrite (exec_seq _ s (returns_send_once d)), exec_send_once.
    destruct (send_rejected host d s H Q) as [_ [C [S _]]].
    set (s1 := exec (send host d) s) in *.
    unfold core in C. pose proof C as C0.
    injection C as Ca Cb Cc Cd Ce Cf Cg Ch Ci Cj Ck Cl Cm.
    assert (H1 : transport_open s1 = false) by (unfold transport_open; rewrite Ca; exact H).
    assert (Q1 : queues s1 = false) by (unfold queues, state_of; rewrite Cf; exact Q).
    destruct (IH s1 H1 Q1) as [C' S']. unfold send_each in C', S'.
    split; [unfold core in *; congruence | congruence].
Qed.

(** Draining on an open transport: every queued payload is handed to
    [send] once, in order; then the queue is empty. *)
Lemma processMessageQueue_open s :
  transport_open s = true ->
  let s' := exec (processMessageQueue host) s in
  messageQueue s' = [] /\
  (ws s', connectionManager s', options s', heartbeatTimer s', heartbeatTimeoutTimer s')
    = (ws s, connectionManager s, options s, heartbeatTimer s, heartbeatTimeoutTimer s) /\
  sent (trace s') = sent (trace s) ++ flat_map (transmitted host) (messageQueue s).
Proof.
  intro H. cbv zeta. unfold processMessageQueue. rewrite exec_get.
  destruct (messageQueue s) as [|d l] eqn:Q.
  - simpl. change (exec (ret tt) s) with s.
    rewrite Q, app_nil_r. repeat split; reflexivity.
  - cbn [List.length Nat.ltb Nat.leb]. fold (send_each host (d :: l)).
    assert (R : returns (send_each host (d :: l)))
      by (apply returns_forEach; intro; apply returns_send_once).
    rewrite (exec_seq _ s R).
    destruct (send_each_open (d :: l) s H) as [C S].
    set (s1 := exec (send_each host (d :: l)) s) in *.
    change (exec (modify (set_messageQueue [])) s1) with (set_messageQueue [] s1).
    cbn [messageQueue ws connectionManager options heartbeatTimer heartbeatTimeoutTimer
         trace set_messageQueue].
    unfold core in C. injection C as Ca Cb Cc Cd Ce Cf Cg Ch Ci Cj Ck Cl Cm.
    rewrite S, Ca, Cf, Ck, Cc, Cd. repeat split; reflexivity.
Qed.

End Queue.

(** ** The transport-open callback *)

Section Open.

Variable host : Host.

Ltac order_leaf :=
  first [ apply grows_quiet; reflexivity
        | apply grows_log; repeat split; reflexivity ].

Lemma clearConnectionTimeout_order :
  keeps (grows (fun o => before_heartbeat o /\ quiet_transport o)) clearConnectionTimeout.
Proof. keeps_with order_leaf. Qed.

Lemma set_state_order n :
  keeps (grows (fun o => before_heartbeat o /\ quiet_transport o)) (set_state host n).
Proof. keeps_with order_leaf. Qed.

Lemma processMessageQueue_order :
  keeps (grows before_heartbeat) (processMessageQueue host).
Proof. keeps_with order_leaf. Qed.

Lemma clearHeartbeatTimers_order :
  keeps (grows starting_heartbeat) clearHeartbeatTimers.
Proof. keeps_with order_leaf. Qed.

Lemma open_tail_order event :
  keeps (grows announcing_open)
    (s <- get ;;
     call_option host (onOpen (options s)) (PEvent event) ;;
     emit host (Named "open") (PEvent event)).
Proof. keeps_with order_leaf. Qed.

Lemma clearConnectionTimeout_view :
  keeps (same open_view) clearConnectionTimeout.
Proof. unfold open_view. frame. Qed.

Lemma set_state_view n :
  keeps (same (fun s => (ws s, messageQueue s, options s))) (set_state host n).
Proof. frame. Qed.

Lemma startHeartbeat_view :
  keeps (same (fun s => (messageQueue s, connectionManager s))) startHeartbeat.
Proof. frame. Qed.

Lemma open_tail_view event :
  keeps (same (fun s => (messageQueue s, connectionManager s)))
    (s <- get ;;
     call_option host (onOpen (options s)) (PEvent event) ;;
     emit host (Named "open") (PEvent event)).
Proof. frame. Qed.

(** Starting the heartbeat: old timers are cleared, then the interval
    timer is set when an interval is configured. *)
Lemma startHeartbeat_order s :
  exists t,
    trace (exec startHeartbeat s) = trace s ++ t /\
    Forall starting_heartbeat t /\
    match positive (heartbeatInterval (options s)) with
    | Some interval => exists id, In (TimerSet HeartbeatIntervalT id interval) t
    | None => True
    end.
Proof.
  unfold startHeartbeat.
  rewrite (exec_seq _ s returns_clearHeartbeatTimers).
  destruct (clearHeartbeatTimers_order s) as [t [E F]].
  assert (O : options (exec clearHeartbeatTimers s) = options s).
  { assert (K : keeps (same options) clearHeartbeatTimers) by frame. apply K. }
  set (s1 := exec clearHeartbeatTimers s) in *.
  rewrite exec_get, O.
  destruct (positive (heartbeatInterval (options s))) as [interval|].
  - exists (t ++ [TimerSet HeartbeatIntervalT (nextId s1) interval]). split; [|split].
    + unfold exec, bind, setTimer, fresh, log, bind, get, modify, ret. simpl.
      rewrite E, app_assoc. reflexivity.
    + apply Forall_app. split; [exact F|]. repeat constructor.
    + exists (nextId s1). apply in_or_app. right. left. reflexivity.
  - exists t. auto.
Qed.

(** The open publish is made unless [onOpen] throws. *)
Lemma open_tail_publishes event s :
  let tail := (s <- get ;;
               call_option host (onOpen (options s)) (PEvent event) ;;
               emit host (Named "open") (PEvent event)) in
  match result tail s with
  | Returned _ =>
      exists t1 t2, trace (exec tail s)
                    = trace s ++ t1 ++ Published (Named "open") (PEvent event) :: t2
  | Thrown _ => True
  end.
Proof.
  cbv zeta. rewrite result_get, exec_get, result_bind, exec_bind.
  assert (G : keeps (grows (fun _ => True))
                (call_option host (onOpen (options s)) (PEvent event)))
    by keeps_with order_leaf.
  destruct (G s) as [t1 [E1 _]].
  destruct (result (call_option host (onOpen (options s)) (PEvent event)) s) as [[]|e].
  - rewrite (returns_unit _ (returns_emit host _ _)).
    destruct (emit_effect host (Named "open") (PEvent event)
                (exec (call_option host (onOpen (options s)) (PEvent event)) s))
      as [_ [t2 [E2 _]]].
    exists t1, t2. rewrite E2, E1, <- app_assoc. reflexivity.
  - exact I.
Qed.

Lemma sent_app t1 t2 : sent (t1 ++ t2) = sent t1 ++ sent t2.
Proof. apply flat_map_app. Qed.

Lemma onopen_effect event s :
  transport_open s = true ->
  let s' := exec (onopen host event) s in
  state_of s' = OPEN /\
  messageQueue s' = [] /\
  sent (trace s') = sent (trace s) ++ flat_map (transmitted host) (messageQueue s) /\
  exists t1 t2 t3,
    trace s' = trace s ++ t1 ++ t2 ++ t3 /\
    Forall before_heartbeat t1 /\
    Forall starting_heartbeat t2 /\
    Forall announcing_open t3 /\
    sent t1 = flat_map (transmitted host) (messageQueue s) /\
    match positive (heartbeatInterval (options s)) with
    | Some interval => exists id, In (TimerSet HeartbeatIntervalT id interval) t2
    | None => True
    end /\
    match result (onopen host event) s with
    | Returned _ => In (Published (Named "open") (PEvent event)) t3
    | Thrown _ => True
    end.
Proof.
  intro H. cbv zeta. unfold onopen.
  rewrite (exec_seq _ s returns_clearConnectionTimeout),
          (result_seq _ s returns_clearConnectionTimeout).
  destruct (clearConnectionTimeout_order s) as [ta [Ea Fa]].
  pose proof (clearConnectionTimeout_view s) as Va.
  set (s1 := exec clearConnectionTimeout s) in *.
  rewrite (exec_seq _ s1 (returns_set_state host OPEN)),
          (result_seq _ s1 (returns_set_state host OPEN)).
  destruct (set_state_order OPEN s1) as [tb [Eb Fb]].
  pose proof (set_state_view OPEN s1) as Vb.
  pose proof (set_state_state host s1 OPEN) as St.
  set (s2 := exec (set_state host OPEN) s1) in *.
  rewrite !exec_modify, !result_modify.
  set (s3 := set_currentBackoff 0 (set_reconnectCount 0 s2)).
  unfold same, open_view in Va, Vb.
  injection Va as Va1 Va2 Va3 Va4. injection Vb as Vb1 Vb2 Vb3.
  assert (H3 : transport_open s3 = true).
  { unfold transport_open. change (ws s3) with (ws s2). rewrite Vb1, Va1. exact H. }
  rewrite (exec_seq _ s3 (returns_processMessageQueue host)),
          (result_seq _ s3 (returns_processMessageQueue host)).
  destruct (processMessageQueue_order s3) as [tc [Ec Fc]].
  destruct (processMessageQueue_open host s3 H3) as [Q5 [V5 S5]].
  set (s5 := exec (processMessageQueue host) s3) in *.
  injection V5 as V5a V5b V5c V5d V5e.
  rewrite (exec_seq _ s5 returns_startHeartbeat), (result_seq _ s5 returns_startHeartbeat).
  destruct (startHeartbeat_order s5) as [t2 [E2 [F2 P2]]].
  pose proof (startHeartbeat_view s5) as V6.
  set (s6 := exec startHeartbeat s5) in *.
  destruct (open_tail_order event s6) as [t3 [E3 F3]].
  pose proof (open_tail_view event s6) as V7.
  pose proof (open_tail_publishes event s6) as P3. cbv zeta in P3.
  set (tail := (s <- get ;; call_option host (onOpen (options s)) (PEvent event) ;;
                emit host (Named "open") (PEvent event))) in *.
  unfold same in V6, V7. injection V6 as V6a V6b. injection V7 as V7a V7b.
  change (trace s3) with (trace s2) in *. change (messageQueue s3) with (messageQueue s2) in *.
  change (options s3) with (options s2) in *.
  change (connectionManager s3) with (connectionManager s2) in *.
  assert (Sc : sent tc = flat_map (transmitted host) (messageQueue s)).
  { rewrite Ec, sent_app, Vb2, Va2 in S5. apply app_inv_head in S5. exact S5. }
  assert (Sa : sent ta = []).
  { apply (unsent (P := fun o => before_heartbeat o /\ quiet_transport o));
      [intros o [_ Ho]; exact Ho | exact Fa]. }
  assert (Sb : sent tb = []).
  { apply (unsent (P := fun o => before_heartbeat o /\ quiet_transport o));
      [intros o [_ Ho]; exact Ho | exact Fb]. }
  assert (S2 : sent t2 = []).
  { apply (unsent (P := starting_heartbeat)); [intros o [Ho _]; exact Ho | exact F2]. }
  assert (S3 : sent t3 = []).
  { apply (unsent (P := announcing_open)); [intros o [Ho _]; exact Ho | exact F3]. }
  assert (T : trace (exec tail s6) = trace s ++ (ta ++ tb ++ tc) ++ t2 ++ t3).
  { rewrite E3, E2, Ec, Eb, Ea. rewrite <- !app_assoc. reflexivity. }
  split; [unfold state_of; rewrite V7b, V6b, V5b; exact St|].
  split; [rewrite V7a, V6a; exact Q5|].
  split.
  { rewrite T, !sent_app, Sa, Sb, Sc, S2, S3. simpl. rewrite !app_nil_r. reflexivity. }
  exists (ta ++ tb ++ tc), t2, t3.
  split; [exact T|]. split.
  { apply Forall_app. split; [eapply Forall_impl; [|exact Fa]; intros o [Ho _]; exact Ho|].
    apply Forall_app. split; [eapply Forall_impl; [|exact Fb]; intros o [Ho _]; exact Ho|].
    exact Fc. }
  split; [exact F2|]. split; [exact F3|].
  split; [rewrite !sent_app, Sa, Sb, Sc; reflexivity|].
  split; [rewrite V5c, Vb3, Va3 in P2; exact P2|].
  destruct (result tail s6) as [[]|e]; [|exact I].
  destruct P3 as [u1 [u2 E]]. rewrite E3 in E. apply app_inv_head in E.
  rewrite E. apply in_or_app. right. left. reflexivity.
Qed.

End Open.

(** * Backoff arithmetic *)

Lemma pow_positive n : 0 < Math_pow 1.5 n.
Proof. induction n; cbn [Math_pow]; [reflexivity | lra]. Qed.

Lemma pow_grows n : Math_pow 1.5 n <= Math_pow 1.5 (S n).
Proof. cbn [Math_pow]. pose proof (pow_positive n). lra. Qed.

Lemma pow_at_least_linear n : 1 + inject_Z (Z.of_nat n) * (1 # 2) <= Math_pow 1.5 n.
Proof.
  induction n.
  - vm_compute. discriminate.
  - rewrite Nat2Z.inj_succ. unfold Z.succ. rewrite inject_Z_plus. cbn [Math_pow].
    pose proof (pow_positive n).
    assert (0 <= inject_Z (Z.of_nat n))
      by (change 0 with (inject_Z 0); rewrite <- Zle_Qle; lia).
    change (inject_Z 1) with 1. lra.
Qed.

Lemma pow_passes_any_bound (interval bound : Q) :
  0 < interval ->
  exists K, forall k, (K <= k)%nat -> bound <= interval * Math_pow 1.5 k.
Proof.
  intro HI. destruct (Qarchimedean (2 * bound / interval)) as [p Hp].
  exists (Pos.to_nat p). intros k Hk.
  pose proof (pow_at_least_linear k) as B.
  assert (Hk' : inject_Z (Z.pos p) <= inject_Z (Z.of_nat k))
    by (rewrite <- Zle_Qle; lia).
  change (Z.pos p # 1) with (inject_Z (Z.pos p)) in Hp.
  assert (E : 2 * bound < inject_Z (Z.of_nat k) * interval).
  { assert (Eq : 2 * bound / interval * interval == 2 * bound) by (field; intro; lra).
    rewrite <- Eq.
    apply Qlt_le_trans with (inject_Z (Z.pos p) * interval).
    - apply Qmult_lt_compat_r; assumption.
    - apply Qmult_le_compat_r; lra. }
  nra.
Qed.

Section Backoff.

Variable opts : SupaSocketOptions.

Let interval : Q := or_default (reconnectInterval opts) 5000.
Let cap : Q := or_default (maxReconnectDelay opts) 30000.

Lemma backoff_delay_first : backoff_delay opts 0 = interval.
Proof. reflexivity. Qed.

Lemma backoff_delay_later k :
  backoff_delay opts (S k) == Qmin cap (interval * Math_pow 1.5 (S k)).
Proof.
  unfold backoff_delay. cbn [Nat.ltb Nat.leb].
  apply Q.min_compat; [reflexivity | apply Qred_correct].
Qed.

Lemma backoff_delay_le_cap k : interval <= cap -> backoff_delay opts k <= cap.
Proof.
  intro H. destruct k; [exact H|]. rewrite backoff_delay_later. apply Q.le_min_l.
Qed.

Lemma backoff_delay_grows k :
  0 < interval -> interval <= cap -> backoff_delay opts k <= backoff_delay opts (S k).
Proof.
  intros H0 H. destruct k.
  - rewrite backoff_delay_later, backoff_delay_first.
    apply Q.min_glb; [exact H|]. cbn [Math_pow]. lra.
  - rewrite !backoff_delay_later. apply Q.min_le_compat_l.
    pose proof (pow_grows (S k)). nra.
Qed.

Lemma backoff_delay_saturates :
  0 < interval -> exists K, forall k, (K <= k)%nat -> backoff_delay opts k = cap.
Proof.
  intro H0. destruct (pow_passes_any_bound cap H0) as [K HK].
  exists (S K). intros k Hk. destruct k as [|k]; [lia|].
  unfold backoff_delay. cbn [Nat.ltb Nat.leb]. fold interval cap.
  assert (L : cap <= Qred (interval * Math_pow 1.5 (S k))).
  { rewrite Qred_correct. apply HK. lia. }
  unfold Qmin, GenericMinMax.gmin.
  destruct (cap ?= Qred (interval * Math_pow 1.5 (S k))) eqn:C; try reflexivity.
  exfalso. apply Qgt_alt in C. lra.
Qed.

Lemma backoff_delays_sorted n : forall b,
  0 < interval -> interval <= cap ->
  Sorted Qle (map (backoff_delay opts) (seq b n)).
Proof.
  induction n as [|n IH]; intros b H0 H; simpl.
  - constructor.
  - constructor; [apply IH; assumption|].
    destruct n; simpl; constructor. apply backoff_delay_grows; assumption.
Qed.

Lemma backoff_delays_capped n b :
  interval <= cap -> Forall (fun d => d <= cap) (map (backoff_delay opts) (seq b n)).
Proof.
  intro H. apply Forall_forall. intros d Hd. apply in_map_iff in Hd.
  destruct Hd as [k [<- _]]. apply backoff_delay_le_cap. exact H.
Qed.

End Backoff.

Lemma backoff_delay_ext o o' k :
  reconnectInterval o' = reconnectInterval o ->
  maxReconnectDelay o' = maxReconnectDelay o ->
  backoff_delay o' k = backoff_delay o k.
Proof. intros H1 H2. unfold backoff_delay. rewrite H1, H2. reflexivity. Qed.

(** * The reconnect context across operations *)

#[export] Instance advances_PreOrder : PreOrder advances.
Proof.
  split.
  - intro s. split; [reflexivity|]. split; [reflexivity|]. exists 0%nat.
    rewrite !Nat.add_0_r. simpl. rewrite app_nil_r. auto.
  - intros s1 s2 s3 [I1 [M1 [n1 [C1 [B1 D1]]]]] [I2 [M2 [n2 [C2 [B2 D2]]]]].
    split; [congruence|]. split; [congruence|]. exists (n1 + n2)%nat.
    split; [lia|]. split; [lia|].
    rewrite D2, D1, <- app_assoc, seq_app, map_app, B1. f_equal. f_equal.
    apply map_ext. intro k. apply backoff_delay_ext; assumption.
Qed.

Lemma advances_still s s' : context_view s' = context_view s -> advances s s'.
Proof.
  unfold context_view. intro H. injection H as Ho Hc Hb Hd.
  split; [rewrite Ho; reflexivity|]. split; [rewrite Ho; reflexivity|].
  exists 0%nat. rewrite !Nat.add_0_r, Hc, Hb, Hd. simpl. rewrite app_nil_r. auto.
Qed.

Lemma advances_options s s' :
  reconnectInterval (options s') = reconnectInterval (options s) ->
  maxReconnectDelay (options s') = maxReconnectDelay (options s) ->
  (reconnectCount s', currentBackoff s', reconnect_delays (trace s'))
  = (reconnectCount s, currentBackoff s, reconnect_delays (trace s)) ->
  advances s s'.
Proof.
  intros Hi Hm H. injection H as Hc Hb Hd.
  split; [exact Hi|]. split; [exact Hm|].
  exists 0%nat. rewrite !Nat.add_0_r, Hc, Hb, Hd. simpl. rewrite app_nil_r. auto.
Qed.

Ltac advances_leaf :=
  apply advances_still; unfold context_view, reconnect_delays; simpl;
  first [ reflexivity
        | rewrite !flat_map_app; simpl; rewrite ?app_nil_r; reflexivity ].

Section Context.

Variable host : Host.

Lemma performReconnect_advances : keeps advances (performReconnect host).
Proof.
  intro s. destruct (limit_reached (options s) (reconnectCount s)) eqn:H.
  - destruct (exhausted_once host s H) as [C [_ D]].
    destruct (core_counters C) as [Rc [Cb [Op _]]].
    apply advances_still. unfold context_view. rewrite Op, Rc, Cb, D. reflexivity.
  - destruct (performReconnect_attempt host s H) as [_ [Rc [Cb [Op [_ [_ [D _]]]]]]].
    split; [rewrite Op; reflexivity|]. split; [rewrite Op; reflexivity|].
    exists 1%nat. rewrite Rc, Cb, D. simpl. repeat split; first [lia | reflexivity].
Qed.

#[local] Hint Resolve performReconnect_advances : keeps.

Ltac advance := keeps_with advances_leaf.

Lemma connect_advances : keeps advances (connect host).
Proof. advance. Qed.

#[local] Hint Resolve connect_advances : keeps.

Lemma send_advances data : keeps advances (send host data).
Proof. advance. Qed.

Lemma close_advances code reason : keeps advances (close host code reason).
Proof. advance. Qed.

Lemma reconnect_false_advances : keeps advances (reconnect host false).
Proof. unfold reconnect. cbn [when]. advance. Qed.

Lemma checkConnection_advances : keeps advances (checkConnection host).
Proof. advance. Qed.

Lemma destroy_advances : keeps advances (destroy host).
Proof. advance. Qed.

Lemma onmessage_advances data now : keeps advances (onmessage host data now).
Proof. advance. Qed.

Lemma onclose_advances event : keeps advances (onclose host event).
Proof. advance. Qed.

Lemma onerror_advances event : keeps advances (onerror host event).
Proof. advance. Qed.

Lemma fire_advances t now : keeps advances (fire host t now).
Proof. unfold fire. destruct t as [id [] d]; cbn [kind one_shot when]; advance. Qed.

Lemma ready_advances r s : advances s (ready r s).
Proof. unfold ready. destruct (ws s); advances_leaf. Qed.

Lemma step_advances op s : within_run op = true -> advances s (step host op s).
Proof.
  destruct op; simpl; intro W; try discriminate W.
  - apply send_advances.
  - assert (K : keeps advances (on event (UserListener f))) by advance. apply K.
  - assert (K : keeps advances (off event (option_map UserListener f))) by advance.
    apply K.
  - assert (K : keeps advances (once event f)) by advance. apply K.
  - assert (K : keeps advances clearAllListeners) by advance. apply K.
  - apply close_advances.
  - destruct resetReconnectCount; [discriminate W|]. apply reconnect_false_advances.
  - apply checkConnection_advances.
  - apply advances_options; reflexivity.
  - apply advances_options; reflexivity.
  - apply destroy_advances.
  - apply onmessage_advances.
  - transitivity (ready WS_CLOSED s); [apply ready_advances | apply onclose_advances].
  - apply onerror_advances.
  - destruct (find (fun t => tid t =? id) (timers s)); [apply fire_advances | reflexivity].
Qed.

Lemma run_advances ops : forall s,
  forallb within_run ops = true -> advances s (run host ops s).
Proof.
  induction ops as [|op ops IH]; intros s H; simpl.
  - reflexivity.
  - simpl in H. apply andb_prop in H. destruct H as [H1 H2].
    transitivity (step host op s); [apply step_advances, H1 | apply IH, H2].
Qed.

(** ** Where the context is reset *)

Lemma performReconnect_counters s :
  counters (exec (performReconnect host) s)
  = if limit_reached (options s) (reconnectCount s)
    then counters s
    else (S (reconnectCount s), S (currentBackoff s)).
Proof.
  unfold counters. destruct (limit_reached (options s) (reconnectCount s)) eqn:H.
  - destruct (exhausted_once host s H) as [C _].
    destruct (core_counters C) as [Rc [Cb _]]. rewrite Rc, Cb. reflexivity.
  - destruct (performReconnect_attempt host s H) as [_ [Rc [Cb _]]].
    rewrite Rc, Cb. reflexivity.
Qed.

Lemma open_rest_counters event :
  keeps (same counters)
    (processMessageQueue host ;;
     startHeartbeat ;;
     s <- get ;;
     call_option host (onOpen (options s)) (PEvent event) ;;
     emit host (Named "open") (PEvent event)).
Proof. unfold counters. frame. Qed.

Lemma onopen_counters event s : counters (exec (onopen host event) s) = (0, 0)%nat.
Proof.
  unfold onopen.
  rewrite (exec_seq _ s returns_clearConnectionTimeout).
  rewrite (exec_seq _ _ (returns_set_state host OPEN)).
  rewrite !exec_modify. rewrite open_rest_counters. reflexivity.
Qed.

Lemma clearConnectionTimeout_settled : keeps (same settled) clearConnectionTimeout.
Proof. unfold settled. frame. Qed.

Lemma set_state_settled n : keeps (same settled) (set_state host n).
Proof. unfold settled. frame. Qed.

Lemma emit_settled event data : keeps (same settled) (emit host event data).
Proof. unfold settled. frame. Qed.

Lemma open_socket_settled : keeps (same settled) (open_socket host).
Proof. unfold settled. frame. Qed.

Lemma open_socket_result s :
  match result (open_socket host) s with
  | Returned _ => True
  | Thrown _ => construct_throws host (url (options s)) = true
  end.
Proof.
  unfold open_socket. rewrite result_get. unfold new_WebSocket.
  destruct (construct_throws host (url (options s))).
  - destruct (result _ s); auto.
  - assert (R : returns
      (log (WsCreated (url (options s))) ;; modify (set_ws (Some WS_CONNECTING)) ;;
       match positive (connectionTimeout (options s)) with
       | None => ret tt
       | Some timeout =>
           t <- setTimer ConnectionTimeoutT timeout ;;
           modify (set_connectionTimeoutTimer (Some t))
       end)) by returns_tac.
    destruct (R s) as [a E].
    match goal with |- match result ?m s with _ => _ end =>
      change m with
        (log (WsCreated (url (options s))) ;; modify (set_ws (Some WS_CONNECTING)) ;;
         match positive (connectionTimeout (options s)) with
         | None => ret tt
         | Some timeout =>
             t <- setTimer ConnectionTimeoutT timeout ;;
             modify (set_connectionTimeoutTimer (Some t))
         end)
    end.
    rewrite E. exact I.
Qed.

(** [connect()] counts at most one failed attempt, and none when the
    socket can be constructed. *)
Lemma connect_counters s :
  let s' := exec (connect host) s in
  options s' = options s /\
  if construct_throws host (url (options s))
  then counters s' = counters s \/
       counters s' = (S (reconnectCount s), S (currentBackoff s))
  else counters s' = counters s.
Proof.
  cbv zeta. unfold connect.
  rewrite (exec_seq _ s returns_clearConnectionTimeout).
  pose proof (clearConnectionTimeout_settled s) as P1.
  set (s1 := exec clearConnectionTimeout s) in *.
  rewrite (exec_seq _ s1 (returns_set_state host CONNECTING)).
  pose proof (set_state_settled CONNECTING s1) as P2.
  set (s2 := exec (set_state host CONNECTING) s1) in *.
  rewrite exec_modify.
  set (s3 := set_explicitClose false s2).
  fold (open_socket host).
  rewrite exec_try_catch.
  pose proof (open_socket_settled s3) as Q.
  pose proof (open_socket_result s3) as T.
  unfold same, settled in P1, P2, Q.
  change (options s3) with (options s2) in *.
  change (reconnectCount s3) with (reconnectCount s2) in *.
  change (currentBackoff s3) with (currentBackoff s2) in *.
  injection P1 as P1o P1c P1b. injection P2 as P2o P2c P2b. injection Q as Qo Qc Qb.
  destruct (result (open_socket host) s3) as [[]|e].
  - split; [congruence|]. unfold counters.
    destruct (construct_throws host (url (options s))); [left|]; congruence.
  - set (s4 := exec (open_socket host) s3) in *.
    rewrite (exec_seq _ s4 (returns_set_state host CLOSED)).
    pose proof (set_state_settled CLOSED s4) as U1.
    set (s5 := exec (set_state host CLOSED) s4) in *.
    rewrite (exec_seq _ s5 (returns_emit host _ _)).
    pose proof (emit_settled (Named "error") (PError initError e None) s5) as U2.
    set (s6 := exec (emit host (Named "error") (PError initError e None)) s5) in *.
    unfold same, settled in U1, U2.
    injection U1 as U1o U1c U1b. injection U2 as U2o U2c U2b.
    rewrite exec_get.
    assert (O : options (exec (when (autoReconnect (options s6)) (performReconnect host)) s6)
                = options s6).
    { destruct (autoReconnect (options s6)); [|reflexivity]. simpl.
      assert (K : keeps (same options) (performReconnect host)) by frame. apply K. }
    split; [congruence|].
    rewrite P2o, P1o in T. rewrite T.
    destruct (autoReconnect (options s6)); simpl when.
    + rewrite performReconnect_counters.
      destruct (limit_reached (options s6) (reconnectCount s6)).
      * left. unfold counters. congruence.
      * right. congruence.
    + left. change (exec (ret tt) s6) with s6. unfold counters. congruence.
Qed.

Lemma returns_closing_socket (b : bool) :
  returns (when b (try_catch (ws_close None None) (fun _ => ret tt))).
Proof. returns_tac. Qed.

Lemma reconnect_true_counters s :
  let s' := exec (reconnect host true) s in
  options s' = options s /\
  if construct_throws host (url (options s))
  then counters s' = (0, 0)%nat \/ counters s' = (1, 1)%nat
  else counters s' = (0, 0)%nat.
Proof.
  cbv zeta. unfold reconnect. rewrite exec_get.
  rewrite (exec_seq _ s (returns_closing_socket (is_some (ws s)))).
  assert (P : options (exec (when (is_some (ws s))
                (try_catch (ws_close None None) (fun _ => ret tt))) s) = options s).
  { destruct (is_some (ws s)); reflexivity. }
  set (s1 := exec _ s) in *.
  cbn [when].
  assert (R : returns (modify (set_reconnectCount 0) ;; modify (set_currentBackoff 0)))
    by returns_tac.
  rewrite (exec_seq _ s1 R). rewrite exec_modify.
  set (s3 := set_explicitClose false _).
  rewrite (exec_seq _ s3 (returns_connect host)).
  change (exec (ret true) ?x) with x.
  destruct (connect_counters s3) as [O C].
  change (options s3) with (options s1) in *. rewrite P in *.
  split; [exact O|].
  destruct (construct_throws host (url (options s))); exact C.
Qed.

Lemma startHeartbeat_settled : keeps (same settled) startHeartbeat.
Proof. unfold settled. frame. Qed.

(** [updateOptions]: the merged options are installed; a new URL on an
    open session goes through [reconnect(true)]. *)
Lemma updateOptions_counters merge s :
  let s' := exec (updateOptions host merge) s in
  options s' = merge (options s) /\
  if negb (url (options s) =? url (merge (options s)))%string && isConnected s
  then if construct_throws host (url (merge (options s)))
       then counters s' = (0, 0)%nat \/ counters s' = (1, 1)%nat
       else counters s' = (0, 0)%nat
  else counters s' = counters s.
Proof.
  cbv zeta. unfold updateOptions. rewrite exec_get, exec_modify, exec_get.
  set (s1 := set_options (merge (options s)) s).
  change (options s1) with (merge (options s)).
  change (isConnected s1) with (isConnected s).
  set (c := negb (url (options s) =? url (merge (options s)))%string && isConnected s).
  assert (R : returns (when c (_ <- reconnect host true ;; ret tt))) by returns_tac.
  rewrite (exec_seq _ s1 R).
  assert (T : forall x, exec (when (isConnected x && is_some (heartbeatTimer x))
                                startHeartbeat) x = x \/
                       settled (exec (when (isConnected x && is_some (heartbeatTimer x))
                                        startHeartbeat) x) = settled x).
  { intro x. destruct (isConnected x && is_some (heartbeatTimer x)); [right|left].
    - apply startHeartbeat_settled.
    - reflexivity. }
  assert (T' : forall x, settled (exec (x0 <- get ;;
                 when (isConnected x0 && is_some (heartbeatTimer x0)) startHeartbeat) x)
               = settled x).
  { intro x. rewrite exec_get. destruct (T x) as [-> | E]; [reflexivity | exact E]. }
  set (s2 := exec (when c (_ <- reconnect host true ;; ret tt)) s1) in *.
  specialize (T' s2). unfold settled in T'. injection T' as To Tc Tb.
  unfold counters. rewrite To, Tc, Tb.
  destruct c; unfold s2; simpl when.
  - rewrite exec_bind. destruct (returns_reconnect host true s1) as [b ->].
    change (exec (ret tt) ?x) with x.
    destruct (reconnect_true_counters s1) as [O C]. split; [exact O|]. exact C.
  - split; reflexivity.
Qed.

End Context.

Section ContextClaims.

Variable host : Host.

(** C7.  A failed attempt (an invocation of the reconnection routine)
    leaves both counters alone at the limit and adds one to each below it.
    The open of the transport sets both to 0.  [reconnect(true)] (also when
    [updateOptions] calls it) sets both to 0; they are both 1 afterwards
    only when the new socket cannot even be constructed and that failure
    is counted.  No other operation resets them: both advance by the same
    number of attempts. *)
Theorem reconnect_context_reset_only_by_open_and_reconnect_true
  (op : Op) (s : SupaSocket) :
  let s' := step host op s in
  counters (exec (performReconnect host) s)
  = (if limit_reached (options s) (reconnectCount s)
     then counters s
     else (S (reconnectCount s), S (currentBackoff s))) /\
  if resets_context op s then
    match op with
    | TransportOpen => counters s' = (0, 0)%nat
    | _ =>
        if construct_throws host (url (options s'))
        then counters s' = (0, 0)%nat \/ counters s' = (1, 1)%nat
        else counters s' = (0, 0)%nat
    end
  else
    exists n, reconnectCount s' = (reconnectCount s + n)%nat /\
              currentBackoff s' = (currentBackoff s + n)%nat.
Proof.
  cbv zeta. split; [apply performReconnect_counters|].
  destruct op; cbn [resets_context];
    try (match goal with
         | |- context [step host ?o s] =>
             destruct (step_advances host o s eq_refl) as [_ [_ [n [C [B _]]]]]
         end;
         exists n; split; assumption).
  - destruct resetReconnectCount.
    + cbn [step]. destruct (reconnect_true_counters host s) as [O C]. rewrite O. exact C.
    + destruct (step_advances host (CallReconnect false) s eq_refl)
        as [_ [_ [n [C [B _]]]]]. exists n. split; assumption.
  - cbn [step]. destruct (updateOptions_counters host merge s) as [O C].
    destruct (negb (url (options s) =? url (merge (options s)))%string && isConnected s).
    + rewrite O. exact C.
    + exists 0%nat. unfold counters in C. injection C as C1 C2.
      rewrite C1, C2, !Nat.add_0_r. split; reflexivity.
  - cbn [step]. apply onopen_counters.
Qed.

(** C1 (as amended: the interval and the cap are the configured numbers, or
    5000 and 30000 when these are 0 or unset; the consequence needs the
    interval positive and not above the cap).  The first backoff step waits
    the interval, a later step [k] the smaller of the cap and
    [interval * 1.5^k]; the reconnection routine schedules the delay of the
    current step and then adds one to the step (nothing at the attempt
    limit).  When the interval is positive and not above the cap: over any
    run of operations without a successful open, a [reconnect(true)] or a
    change of options, the delays scheduled are those of consecutive steps,
    they never decrease and none is above the cap; and from some step on
    the delay is the cap. *)
Theorem backoff_delays_grow_up_to_the_cap (s : SupaSocket) (ops : list Op) :
  (backoff_delay (options s) 0 = effective_interval (options s) /\
   forall k, backoff_delay (options s) (S k)
             == Qmin (effective_cap (options s))
                     (effective_interval (options s) * Math_pow 1.5 (S k))) /\
  (let r := exec (performReconnect host) s in
   if limit_reached (options s) (reconnectCount s)
   then reconnect_delays (trace r) = reconnect_delays (trace s) /\
        currentBackoff r = currentBackoff s
   else reconnect_delays (trace r)
        = reconnect_delays (trace s) ++ [backoff_delay (options s) (currentBackoff s)] /\
        currentBackoff r = S (currentBackoff s)) /\
  (0 < effective_interval (options s) ->
   effective_interval (options s) <= effective_cap (options s) ->
   (forallb within_run ops = true ->
    exists n,
      let delays := map (backoff_delay (options s)) (seq (currentBackoff s) n) in
      reconnect_delays (trace (run host ops s)) = reconnect_delays (trace s) ++ delays /\
      currentBackoff (run host ops s) = (currentBackoff s + n)%nat /\
      Sorted Qle delays /\
      Forall (fun d => d <= effective_cap (options s)) delays) /\
   exists K, forall k, (K <= k)%nat ->
                       backoff_delay (options s) k = effective_cap (options s)).
Proof.
  split; [|split].
  - split; [reflexivity | intro k; apply backoff_delay_later].
  - cbv zeta. destruct (limit_reached (options s) (reconnectCount s)) eqn:L.
    + destruct (exhausted_once host s L) as [C [_ D]].
      destruct (core_counters C) as [_ [B _]]. split; assumption.
    + destruct (performReconnect_attempt host s L) as [_ [_ [B [_ [_ [_ [D _]]]]]]].
      split; assumption.
  - intros H0 H. split.
    + intro W. destruct (run_advances host ops s W) as [_ [_ [n [_ [B D]]]]].
      exists n. cbv zeta. split; [exact D|]. split; [exact B|]. split.
      * apply backoff_delays_sorted; assumption.
      * apply backoff_delays_capped. exact H.
    + apply backoff_delay_saturates. exact H0.
Qed.

End ContextClaims.

(** A new instance with the default options (5000 up to 30000) and three
    failures in a row. *)
Lemma backoff_delays_grow_up_to_the_cap_witness :
  let s := constructor calm_host default_options in
  0 < effective_interval (options s) /\
  effective_interval (options s) <= effective_cap (options s) /\
  forallb within_run three_failures = true /\
  (exists n,
     let delays := map (backoff_delay (options s)) (seq (currentBackoff s) n) in
     reconnect_delays (trace (run calm_host three_failures s))
     = reconnect_delays (trace s) ++ delays /\
     currentBackoff (run calm_host three_failures s) = (currentBackoff s + n)%nat /\
     Sorted Qle delays /\
     Forall (fun d => d <= effective_cap (options s)) delays) /\
  exists K, forall k, (K <= k)%nat -> backoff_delay (options s) k = effective_cap (options s).
Proof.
  cbv zeta.
  assert (H0 : 0 < effective_interval (options (constructor calm_host default_options)))
    by reflexivity.
  assert (H : effective_interval (options (constructor calm_host default_options))
              <= effective_cap (options (constructor calm_host default_options)))
    by (unfold Qle; simpl; lia).
  assert (W : forallb within_run three_failures = true) by reflexivity.
  split; [exact H0|]. split; [exact H|]. split; [exact W|].
  destruct (backoff_delays_grow_up_to_the_cap calm_host
              (constructor calm_host default_options) three_failures)
    as [_ [_ C]].
  destruct (C H0 H) as [R S]. split; [exact (R W) | exact S].
Defined.

(** With [reconnectInterval = 10000] above [maxReconnectDelay = 5000] the
    first delay is over the cap and the second is smaller than the first. *)
Lemma interval_above_cap_breaks_monotonicity :
  let opts := options_with (Some 5) (Some 10000) (Some 5000) in
  let s := run calm_host three_failures (constructor calm_host opts) in
  maxReconnectDelay opts = Some 5000 /\
  reconnect_delays (trace s) = [10000; 5000; 5000] /\
  ~ 10000 <= 5000.
Proof.
  cbv zeta. split; [reflexivity|]. split; [vm_compute; reflexivity|].
  unfold Qle. simpl. lia.
Qed.

(** * The heartbeat watchdog *)

#[export] Instance watched_PreOrder : PreOrder watched.
Proof. split; unfold watched; [intros s H; exact H | intros s1 s2 s3 H1 H2 H; auto]. Qed.

Lemma cleared_no_watchdog s id :
  one_watchdog s -> heartbeatTimeoutTimer s = Some id ->
  forall t, In t (filter (fun u => negb (tid u =? id)) (timers s)) ->
            kind t <> HeartbeatTimeoutT.
Proof.
  intros H E t Hin K. apply filter_In in Hin. destruct Hin as [Hin Hne].
  specialize (H t Hin K). rewrite E in H. injection H as ->.
  rewrite Nat.eqb_refl in Hne. discriminate.
Qed.

Lemma resetHeartbeatTimeout_no_watchdog s :
  one_watchdog s -> no_watchdog (exec resetHeartbeatTimeout s).
Proof.
  intro H. unfold resetHeartbeatTimeout. rewrite exec_get.
  destruct (heartbeatTimeoutTimer s) as [id|] eqn:E.
  - unfold exec, clearTimer, log, bind, modify, no_watchdog. simpl.
    apply (cleared_no_watchdog H E).
  - intros t Hin K. specialize (H t Hin K). rewrite E in H. discriminate.
Qed.

Lemma no_watchdog_one s : no_watchdog s -> one_watchdog s.
Proof. intros H t Hin K. destruct (H t Hin K). Qed.

Lemma resetHeartbeatTimeout_watched : keeps watched resetHeartbeatTimeout.
Proof. intros s H. apply no_watchdog_one, resetHeartbeatTimeout_no_watchdog, H. Qed.

Lemma clearHeartbeatTimers_watched : keeps watched clearHeartbeatTimers.
Proof.
  intros s H. apply no_watchdog_one.
  unfold clearHeartbeatTimers. rewrite exec_get.
  set (first := match heartbeatTimer s with Some t => _ | None => _ end).
  assert (R : returns first) by (unfold first; returns_tac).
  rewrite (exec_seq _ s R).
  assert (W : one_watchdog (exec first s)).
  { unfold first. destruct (heartbeatTimer s) as [id|]; [|exact H].
    unfold exec, clearTimer, log, bind, modify. simpl.
    intros t Hin. apply filter_In in Hin. apply H, Hin. }
  apply (resetHeartbeatTimeout_no_watchdog W).
Qed.

Lemma startHeartbeatTimeout_watched : keeps watched startHeartbeatTimeout.
Proof.
  intros s H. unfold startHeartbeatTimeout. rewrite exec_get.
  set (clear := match heartbeatTimeoutTimer s with Some t => _ | None => _ end).
  assert (R : returns clear) by (unfold clear; returns_tac).
  rewrite (exec_seq _ s R).
  assert (N : no_watchdog (exec clear s) /\ options (exec clear s) = options s).
  { unfold clear. destruct (heartbeatTimeoutTimer s) as [id|] eqn:E.
    - split; [|reflexivity]. unfold exec, clearTimer, log, bind, modify, no_watchdog. simpl.
      apply (cleared_no_watchdog H E).
    - split; [|reflexivity]. intros t Hin K. specialize (H t Hin K).
      rewrite E in H. discriminate. }
  destruct N as [N O]. set (s1 := exec clear s) in *.
  rewrite exec_get. destruct (positive (heartbeatTimeout (options s1))) as [d|].
  - unfold exec, bind, setTimer, fresh, log, bind, get, modify, ret. simpl.
    intros t Hin K. simpl in Hin. apply in_app_or in Hin. destruct Hin as [Hin|[<-|[]]].
    + destruct (N t Hin K).
    + reflexivity.
  - change (exec (ret tt) s1) with s1.
    intros t Hin K. destruct (N t Hin K).
Qed.

Ltac watched_leaf :=
  unfold watched, one_watchdog; simpl;
  let H := fresh "H" in let t := fresh "t" in let Hin := fresh "Hin" in
  intros H t Hin;
  first [ exact (H t Hin)
        | apply filter_In in Hin; exact (H t (proj1 Hin))
        | apply in_app_or in Hin; destruct Hin as [Hin|[<-|[]]];
          [ exact (H t Hin) | simpl; discriminate ] ].

Section Watchdog.

Variable host : Host.

#[local] Hint Resolve resetHeartbeatTimeout_watched clearHeartbeatTimers_watched
  startHeartbeatTimeout_watched : keeps.

Ltac watch := keeps_with watched_leaf.

Lemma fire_watched t now : keeps watched (fire host t now).
Proof. unfold fire. destruct t as [id [] d]; cbn [kind one_shot when]; watch. Qed.

Lemma step_watched op s : one_watchdog s -> one_watchdog (step host op s).
Proof.
  destruct op; simpl.
  - assert (K : keeps watched (send host data)) by watch. apply K.
  - assert (K : keeps watched (on event (UserListener f))) by watch. apply K.
  - assert (K : keeps watched (off event (option_map UserListener f))) by watch. apply K.
  - assert (K : keeps watched (once event f)) by watch. apply K.
  - assert (K : keeps watched clearAllListeners) by watch. apply K.
  - assert (K : keeps watched (close host code reason)) by watch. apply K.
  - assert (K : keeps watched (reconnect host resetReconnectCount)) by watch. apply K.
  - assert (K : keeps watched (checkConnection host)) by watch. apply K.
  - assert (K : keeps watched (updateOptions host merge)) by watch. apply K.
  - intro H. exact H.
  - intro H. exact H.
  - assert (K : keeps watched (destroy host)) by watch. apply K.
  - assert (K : keeps watched (onopen host OpenEvent)) by watch.
    intro H. apply K. unfold ready. destruct (ws s); exact H.
  - assert (K : keeps watched (onmessage host data now)) by watch. apply K.
  - assert (K : keeps watched (onclose host (CloseEvent code reason))) by watch.
    intro H. apply K. unfold ready. destruct (ws s); exact H.
  - assert (K : keeps watched (onerror host ErrorEvent)) by watch. apply K.
  - destruct (find (fun t => tid t =? id) (timers s)); [apply fire_watched | auto].
Qed.

Lemma constructor_watched opts : one_watchdog (constructor host opts).
Proof.
  unfold constructor.
  assert (K : keeps watched (onStatusChange_register EngineObserver ;; connect host))
    by watch.
  apply K. intros t [].
Qed.

Lemma run_watched ops : forall s, one_watchdog s -> one_watchdog (run host ops s).
Proof.
  induction ops as [|op ops IH]; intros s H; simpl; [exact H|].
  apply IH, step_watched, H.
Qed.

(** On an instance made by the constructor and driven by any operations, a
    message that passes the pong test leaves no heartbeat-timeout timer
    pending. *)
Lemma pong_disarms_watchdog opts ops event_data now :
  let s := run host ops (constructor host opts) in
  match isPongMessage host (options s) (received host (options s) event_data) with
  | Returned true => no_watchdog (exec (onmessage host event_data now) s)
  | _ => True
  end.
Proof.
  cbv zeta. set (s := run host ops (constructor host opts)).
  assert (W : one_watchdog s) by apply run_watched, constructor_watched.
  unfold onmessage. rewrite exec_modify.
  set (s0 := set_lastMessageTime now s).
  rewrite exec_try_catch, exec_get, result_get.
  change (options s0) with (options s).
  fold (received host (options s) event_data).
  rewrite exec_bind, result_bind.
  change (result (lift ?o) s0) with o. change (exec (lift ?o) s0) with s0.
  destruct (isPongMessage host (options s) (received host (options s) event_data))
    as [[|]|e]; try exact I.
  rewrite (returns_unit s0 returns_resetHeartbeatTimeout).
  apply resetHeartbeatTimeout_no_watchdog. exact W.
Qed.

(** C4 (as amended: only a truthy payload can match, a text payload stands
    for its JSON decoding and never matches when it does not parse, and
    equal means [===]).  The pong test answers [true] exactly when the
    payload has a decoding [d] and: with a structured template, every key of
    the template has in [d] a value that is not [undefined] and is [===] to
    the template's (other keys of [d] do not matter); without one, [d] is an
    object whose [type] is ["pong"].  A message whose payload passes the
    test clears the timer held in [heartbeatTimeoutTimer], empties that
    field, and publishes nothing at all; a payload that fails it is
    published as [message] and then under its [type], if it has one.  On an
    instance made by the constructor and driven by any operations, the
    timer so cleared is the only heartbeat-timeout timer there can be:
    none is pending afterwards. *)
Theorem pong_is_matched_and_swallowed
  (s : SupaSocket) (data : JsValue) (event_data : Message) (now : Z)
  (opts : SupaSocketOptions) (ops : list Op) :
  (isPongMessage host (options s) data = Returned true <->
   exists d, decoded host data = Some d /\
     if structured (pongMessage (options s))
     then forall key, In key (object_keys (pongMessage (options s))) ->
                      key_agrees d (pongMessage (options s)) key
     else truthy d = true /\ is_object_type d = true /\
          get_prop d "type" = Returned (VStr "pong")) /\
  (let inbound := received host (options s) event_data in
   let s' := exec (onmessage host event_data now) s in
   match isPongMessage host (options s) inbound with
   | Returned true =>
       result (onmessage host event_data now) s = Returned tt /\
       heartbeatTimeoutTimer s' = None /\
       timers s' = match heartbeatTimeoutTimer s with
                   | Some t => filter (fun u => negb (tid u =? t)) (timers s)
                   | None => timers s
                   end /\
       publishes (trace s') = publishes (trace s)
   | Returned false =>
       publishes (trace s')
       = publishes (trace s) ++ (Named "message", PData inbound) :: type_publish inbound
   | Thrown e =>
       publishes (trace s')
       = publishes (trace s)
         ++ [(Named "error", PError messageError e (Some (message_value event_data)))]
   end) /\
  let r := run host ops (constructor host opts) in
  match isPongMessage host (options r) (received host (options r) event_data) with
  | Returned true => no_watchdog (exec (onmessage host event_data now) r)
  | _ => True
  end.
Proof.
  split; [apply isPongMessage_true|].
  split; [apply onmessage_effect | apply pong_disarms_watchdog].
Qed.

End Watchdog.

(** * Entering [OPEN] *)

#[export] Instance not_opened_PreOrder : PreOrder not_opened.
Proof.
  split; unfold not_opened; [intros s H; exact H | intros s1 s2 s3 H1 H2 H; auto].
Qed.

Ltac not_opened_leaf := unfold not_opened, state_of; simpl; exact (fun H => H).

Section Entering.

Variable host : Host.

Lemma set_state_not_opened n : state_eqb n OPEN = false -> keeps not_opened (set_state host n).
Proof.
  intros N s H. rewrite set_state_state in H. subst n. discriminate N.
Qed.

#[local] Hint Resolve set_state_not_opened : keeps.
#[local] Hint Extern 1 (state_eqb _ OPEN = false) => reflexivity : keeps.

Ltac stay := keeps_with not_opened_leaf.

Lemma fire_not_opened t now : keeps not_opened (fire host t now).
Proof. unfold fire. destruct t as [id [] d]; cbn [kind one_shot when]; stay. Qed.

(** Only the open of the transport takes the session into [OPEN]. *)
Lemma only_open_enters_OPEN op s :
  op = TransportOpen \/ state_of (step host op s) <> OPEN \/ state_of s = OPEN.
Proof.
  destruct (state_eqb (state_of (step host op s)) OPEN) eqn:E.
  2:{ right. left. intro H. rewrite H in E. discriminate E. }
  apply state_eqb_eq in E.
  destruct op; simpl in E; try (left; reflexivity); right; right; revert E.
  - assert (K : keeps not_opened (send host data)) by stay. apply K.
  - assert (K : keeps not_opened (on event (UserListener f))) by stay. apply K.
  - assert (K : keeps not_opened (off event (option_map UserListener f))) by stay.
    apply K.
  - assert (K : keeps not_opened (once event f)) by stay. apply K.
  - assert (K : keeps not_opened clearAllListeners) by stay. apply K.
  - assert (K : keeps not_opened (close host code reason)) by stay. apply K.
  - assert (K : keeps not_opened (reconnect host resetReconnectCount)) by stay. apply K.
  - assert (K : keeps not_opened (checkConnection host)) by stay. apply K.
  - assert (K : keeps not_opened (updateOptions host merge)) by stay.
    intro E. apply K in E. exact E.
  - intro E. exact E.
  - intro E. exact E.
  - assert (K : keeps not_opened (destroy host)) by stay. apply K.
  - assert (K : keeps not_opened (onmessage host data now)) by stay. apply K.
  - assert (K : keeps not_opened (onclose host (CloseEvent code reason))) by stay.
    intro E. apply K in E. unfold ready in E. destruct (ws s); exact E.
  - assert (K : keeps not_opened (onerror host ErrorEvent)) by stay. apply K.
  - destruct (find (fun t => tid t =? id) (timers s)); [apply fire_not_opened | auto].
Qed.

End Entering.
(** * The listener map *)

Lemma bus_get_set_same event l bus : bus_get event (bus_set event l bus) = Some l.
Proof.
  induction bus as [|[k l'] rest IH]; simpl.
  - rewrite String.eqb_refl. reflexivity.
  - destruct (k =? event)%string eqn:E; simpl; rewrite E; [reflexivity | exact IH].
Qed.

Lemma bus_get_set_other event other l bus :
  other <> event -> bus_get other (bus_set event l bus) = bus_get other bus.
Proof.
  intro N. induction bus as [|[k l'] rest IH]; simpl.
  - destruct (event =? other)%string eqn:E; [|reflexivity].
    apply String.eqb_eq in E. congruence.
  - destruct (k =? event)%string eqn:E; simpl.
    + apply String.eqb_eq in E. subst k.
      destruct (event =? other)%string eqn:E'; [|reflexivity].
      apply String.eqb_eq in E'. congruence.
    + rewrite IH. reflexivity.
Qed.

Lemma bus_get_delete_other event other bus :
  other <> event -> bus_get other (bus_delete event bus) = bus_get other bus.
Proof.
  intro N. induction bus as [|[k l'] rest IH]; simpl; [reflexivity|].
  destruct (k =? event)%string eqn:E; simpl.
  - apply String.eqb_eq in E. subst k.
    destruct (event =? other)%string eqn:E'; [|reflexivity].
    apply String.eqb_eq in E'. congruence.
  - rewrite IH. reflexivity.
Qed.

Lemma bus_get_absent event bus :
  ~ In event (EventBus_getEvents bus) <-> bus_get event bus = None.
Proof.
  unfold EventBus_getEvents. induction bus as [|[k l] rest IH]; simpl.
  - split; [reflexivity | intros _ []].
  - destruct (k =? event)%string eqn:E.
    + apply String.eqb_eq in E. split; [intro H; destruct H; left; exact E | discriminate].
    + apply String.eqb_neq in E. rewrite <- IH. tauto.
Qed.

Lemma bus_get_delete_same event bus :
  NoDup (EventBus_getEvents bus) -> bus_get event (bus_delete event bus) = None.
Proof.
  unfold EventBus_getEvents. induction bus as [|[k l] rest IH]; simpl; intro H; [reflexivity|].
  inversion H as [|? ? Hk Hrest]; subst.
  destruct (k =? event)%string eqn:E; simpl.
  - apply String.eqb_eq in E. subst k. apply bus_get_absent. exact Hk.
  - rewrite E. apply IH. exact Hrest.
Qed.

Lemma keys_set event l bus :
  EventBus_getEvents (bus_set event l bus)
  = if bus_has event bus then EventBus_getEvents bus else EventBus_getEvents bus ++ [event].
Proof.
  unfold EventBus_getEvents, bus_has. induction bus as [|[k l'] rest IH]; simpl; [reflexivity|].
  destruct (k =? event)%string eqn:E; simpl; [reflexivity|].
  rewrite IH. destruct (is_some (bus_get event rest)); reflexivity.
Qed.

Lemma keys_delete event bus :
  forall k, In k (EventBus_getEvents (bus_delete event bus)) -> In k (EventBus_getEvents bus).
Proof.
  unfold EventBus_getEvents. induction bus as [|[k' l] rest IH]; simpl; intros k H; [exact H|].
  destruct (k' =? event)%string; simpl in H; [right; exact H|].
  destruct H as [H|H]; [left; exact H | right; apply IH, H].
Qed.

Lemma NoDup_delete event bus :
  NoDup (EventBus_getEvents bus) -> NoDup (EventBus_getEvents (bus_delete event bus)).
Proof.
  unfold EventBus_getEvents. induction bus as [|[k l] rest IH]; simpl; intro H; [exact H|].
  inversion H as [|? ? Hk Hrest]; subst.
  destruct (k =? event)%string; simpl; [exact Hrest|].
  constructor; [|apply IH, Hrest].
  intro K. apply Hk. apply (keys_delete event rest), K.
Qed.

Lemma NoDup_set event l bus :
  NoDup (EventBus_getEvents bus) -> NoDup (EventBus_getEvents (bus_set event l bus)).
Proof.
  intro H. rewrite keys_set. unfold bus_has.
  destruct (bus_get event bus) eqn:E; simpl; [exact H|].
  apply bus_get_absent in E.
  apply NoDup_app; [exact H | repeat constructor; intros [] | ].
  intros k K [<-|[]]. exact (E K).
Qed.

Lemma Forall_set (P : string * list Listener -> Prop) event l bus :
  P (event, l) -> Forall P bus -> Forall P (bus_set event l bus).
Proof.
  intros Hl. induction bus as [|[k l'] rest IH]; simpl; intro H.
  - repeat constructor. exact Hl.
  - inversion H; subst. destruct (k =? event)%string eqn:E.
    + apply String.eqb_eq in E. subst k. constructor; assumption.
    + constructor; [assumption | apply IH; assumption].
Qed.

Lemma Forall_delete (P : string * list Listener -> Prop) event bus :
  Forall P bus -> Forall P (bus_delete event bus).
Proof.
  induction bus as [|[k l'] rest IH]; simpl; intro H; [exact H|].
  inversion H; subst. destruct (k =? event)%string; [assumption|].
  constructor; [assumption | apply IH; assumption].
Qed.

Lemma bus_set_same event l bus : bus_get event bus = Some l -> bus_set event l bus = bus.
Proof.
  induction bus as [|[k l'] rest IH]; simpl; [discriminate|].
  destruct (k =? event)%string eqn:E.
  - intro H. injection H as ->. reflexivity.
  - intro H. rewrite (IH H). reflexivity.
Qed.

Lemma bus_set_set event l1 l2 bus :
  bus_set event l2 (bus_set event l1 bus) = bus_set event l2 bus.
Proof.
  induction bus as [|[k l'] rest IH]; simpl.
  - rewrite String.eqb_refl. reflexivity.
  - destruct (k =? event)%string eqn:E; simpl; rewrite E; [reflexivity|].
    rewrite IH. reflexivity.
Qed.

Lemma bus_delete_set_absent event l bus :
  bus_get event bus = None -> bus_delete event (bus_set event l bus) = bus.
Proof.
  induction bus as [|[k l'] rest IH]; simpl.
  - intros _. rewrite String.eqb_refl. reflexivity.
  - destruct (k =? event)%string eqn:E; [discriminate|].
    intro H. simpl. rewrite E, (IH H). reflexivity.
Qed.

Lemma bus_get_nonempty event l bus :
  Forall (fun entry => snd entry <> []) bus -> bus_get event bus = Some l -> l <> [].
Proof.
  induction bus as [|[k l'] rest IH]; simpl; intro H; [discriminate|].
  inversion H as [|? ? Hl Hrest]; subst.
  destruct (k =? event)%string; [intro E; injection E as <-; exact Hl | apply IH, Hrest].
Qed.

Lemma listeners_get event bus :
  listeners event bus = match bus_get event bus with Some l => l | None => [] end.
Proof. reflexivity. Qed.

Lemma EventBus_on_get event callback bus :
  bus_get event (EventBus_on event callback bus) = Some (listeners event bus ++ [callback]).
Proof.
  unfold EventBus_on, bus_has, listeners, listeners_at, bus_lookup.
  destruct (bus_get event bus) as [l|] eqn:E; simpl.
  - rewrite E. apply bus_get_set_same.
  - rewrite bus_get_set_same. apply bus_get_set_same.
Qed.

Lemma EventBus_on_other event other callback bus :
  other <> event -> bus_get other (EventBus_on event callback bus) = bus_get other bus.
Proof.
  intro N. unfold EventBus_on, bus_has.
  destruct (bus_get event bus) as [l|] eqn:E; simpl.
  - rewrite E. apply bus_get_set_other, N.
  - rewrite bus_get_set_same, bus_set_set. apply bus_get_set_other, N.
Qed.

Lemma EventBus_on_keys event callback bus :
  EventBus_getEvents (EventBus_on event callback bus)
  = if bus_has event bus then EventBus_getEvents bus else EventBus_getEvents bus ++ [event].
Proof.
  unfold EventBus_on, bus_has.
  destruct (bus_get event bus) as [l|] eqn:E; simpl.
  - rewrite E, keys_set. unfold bus_has. rewrite E. reflexivity.
  - rewrite bus_get_set_same, bus_set_set, keys_set. unfold bus_has. rewrite E. reflexivity.
Qed.

Lemma EventBus_on_wf event callback bus : bus_wf bus -> bus_wf (EventBus_on event callback bus).
Proof.
  intros [N F]. split.
  - rewrite EventBus_on_keys. unfold bus_has.
    destruct (bus_get event bus) eqn:E; simpl; [exact N|].
    apply bus_get_absent in E.
    apply NoDup_app; [exact N | repeat constructor; intros [] | ].
    intros k K [<-|[]]. exact (E K).
  - unfold EventBus_on, bus_has.
    destruct (bus_get event bus) as [l|] eqn:E; simpl.
    + rewrite E. apply Forall_set; [|exact F]. simpl. destruct l; discriminate.
    + rewrite bus_get_set_same, bus_set_set. apply Forall_set; [|exact F]. discriminate.
Qed.

Lemma EventBus_off_get event callback bus :
  NoDup (EventBus_getEvents bus) ->
  listeners event (EventBus_off event callback bus)
  = match callback with
    | None => []
    | Some c => filter (fun cb => negb (listener_eqb cb c)) (listeners event bus)
    end.
Proof.
  intro N. rewrite !listeners_get. unfold EventBus_off.
  destruct (bus_get event bus) as [l|] eqn:E.
  - destruct callback as [c|].
    + cbv zeta. destruct (filter _ l) as [|x kept] eqn:K; simpl.
      * rewrite bus_get_delete_same; [reflexivity | apply NoDup_set, N].
      * rewrite bus_get_set_same. reflexivity.
    + rewrite bus_get_delete_same; [reflexivity | exact N].
  - rewrite E. destruct callback; reflexivity.
Qed.

Lemma EventBus_off_other event other callback bus :
  other <> event -> bus_get other (EventBus_off event callback bus) = bus_get other bus.
Proof.
  intro N. unfold EventBus_off.
  destruct (bus_get event bus) as [l|] eqn:E; [|reflexivity].
  destruct callback as [c|].
  - cbv zeta. destruct (List.length _ =? 0)%nat.
    + rewrite bus_get_delete_other, bus_get_set_other; auto.
    + apply bus_get_set_other, N.
  - apply bus_get_delete_other, N.
Qed.

Lemma Forall_delete_set (P : string * list Listener -> Prop) event l bus :
  Forall P bus -> Forall P (bus_delete event (bus_set event l bus)).
Proof.
  induction bus as [|[k l'] rest IH]; simpl; intro H.
  - rewrite String.eqb_refl. constructor.
  - inversion H; subst. destruct (k =? event)%string eqn:E; simpl; rewrite E.
    + assumption.
    + constructor; [assumption | apply IH; assumption].
Qed.

Lemma EventBus_off_wf event callback bus : bus_wf bus -> bus_wf (EventBus_off event callback bus).
Proof.
  intros [N F]. unfold EventBus_off.
  destruct (bus_get event bus) as [l|] eqn:E; [|split; assumption].
  destruct callback as [c|].
  - cbv zeta. destruct (filter _ l) as [|x kept] eqn:K; simpl.
    + split; [apply NoDup_delete, NoDup_set, N | apply Forall_delete_set, F].
    + split; [apply NoDup_set, N | apply Forall_set; [discriminate | exact F]].
  - split; [apply NoDup_delete, N | apply Forall_delete, F].
Qed.

Lemma listener_eqb_refl l : listener_eqb l l = true.
Proof. destruct l; simpl; apply Nat.eqb_refl. Qed.

Lemma filter_unregistered callback l :
  unregistered callback l = true ->
  filter (fun cb => negb (listener_eqb cb callback)) l = l.
Proof.
  unfold unregistered. induction l as [|x l IH]; simpl; [reflexivity|].
  intro H. apply andb_prop in H. destruct H as [H1 H2]. rewrite H1, (IH H2). reflexivity.
Qed.

(** X1.  [on(event, callback)] adds the callback after the listeners the
    event already has (a callback registered twice is listed twice), leaves
    the listeners of every other event as they were, and lists the event
    among the registered events, at the end when it is new. *)
Theorem on_appends_the_listener (event : string) (callback : Listener) (bus : EventBus) :
  let bus' := EventBus_on event callback bus in
  listeners event bus' = listeners event bus ++ [callback] /\
  (forall other, other <> event -> listeners other bus' = listeners other bus) /\
  EventBus_hasListeners event bus' = true /\
  EventBus_getEvents bus'
  = if bus_has event bus then EventBus_getEvents bus else EventBus_getEvents bus ++ [event].
Proof.
  cbv zeta. split; [|split; [|split]].
  - rewrite (listeners_get event (EventBus_on _ _ _)), EventBus_on_get. reflexivity.
  - intros other N. rewrite !listeners_get, (EventBus_on_other callback bus N). reflexivity.
  - unfold EventBus_hasListeners. rewrite EventBus_on_get, length_app. simpl.
    apply Nat.ltb_lt. lia.
  - apply EventBus_on_keys.
Qed.

(** X2.  On a map whose keys are distinct and hold no empty array:
    [off(event)] leaves the event without listeners, [off(event, callback)]
    removes every registration of the callback under the event and keeps
    the other listeners in their order; the listeners of other events stay;
    an event that is not registered, or a callback that is not one of its
    listeners, changes nothing; and the map is again of that kind. *)
Theorem off_removes_the_listener
  (event : string) (callback : option Listener) (bus : EventBus) :
  bus_wf bus ->
  let bus' := EventBus_off event callback bus in
  listeners event bus'
  = match callback with
    | None => []
    | Some c => filter (fun cb => negb (listener_eqb cb c)) (listeners event bus)
    end /\
  (forall other, other <> event -> listeners other bus' = listeners other bus) /\
  (bus_has event bus = false -> bus' = bus) /\
  (forall c, callback = Some c -> unregistered c (listeners event bus) = true -> bus' = bus) /\
  EventBus_hasListeners event bus' = negb (List.length (listeners event bus') =? 0)%nat /\
  bus_wf bus'.
Proof.
  intros W. cbv zeta. destruct W as [N F].
  split; [apply EventBus_off_get, N|].
  split; [intros other Ne; rewrite !listeners_get, (EventBus_off_other callback bus Ne);
          reflexivity|].
  split; [|split; [|split]].
  - unfold bus_has, EventBus_off. destruct (bus_get event bus); [discriminate | reflexivity].
  - intros c -> U. rewrite listeners_get in U. unfold EventBus_off.
    destruct (bus_get event bus) as [l|] eqn:E; [|reflexivity].
    cbv zeta. rewrite (filter_unregistered c l U), (bus_set_same event bus E).
    pose proof (bus_get_nonempty event F E) as Hl.
    destruct l; [contradiction | reflexivity].
  - rewrite listeners_get. unfold EventBus_hasListeners.
    destruct (bus_get event (EventBus_off event callback bus)) as [l|]; [|reflexivity].
    destruct l; reflexivity.
  - apply EventBus_off_wf. split; assumption.
Qed.

(** A map with two events, the second with two listeners. *)
Lemma off_removes_the_listener_witness :
  let bus := EventBus_on "close" (UserListener 3)
               (EventBus_on "close" (UserListener 2)
                  (EventBus_on "open" (UserListener 1) [])) in
  bus_wf bus /\
  listeners "close" (EventBus_off "close" (Some (UserListener 2)) bus) = [UserListener 3].
Proof.
  cbv zeta.
  assert (W : bus_wf (EventBus_on "close" (UserListener 3)
                        (EventBus_on "close" (UserListener 2)
                           (EventBus_on "open" (UserListener 1) [])))).
  { split; [vm_compute; repeat constructor; simpl; intuition discriminate|].
    vm_compute. repeat constructor; discriminate. }
  split; [exact W|].
  exact (proj1 (off_removes_the_listener "close" (Some (UserListener 2)) W)).
Defined.

(** X3.  Registering a callback that is not yet a listener of the event and
    removing it again gives back the map as it was. *)
Theorem on_then_off_is_identity (event : string) (callback : Listener) (bus : EventBus) :
  bus_wf bus ->
  unregistered callback (listeners event bus) = true ->
  EventBus_off event (Some callback) (EventBus_on event callback bus) = bus.
Proof.
  intros [N F] U. rewrite listeners_get in U.
  unfold EventBus_off. rewrite EventBus_on_get, listeners_get. cbv zeta.
  rewrite filter_app. simpl. rewrite listener_eqb_refl. simpl. rewrite app_nil_r.
  unfold EventBus_on, bus_has.
  destruct (bus_get event bus) as [l|] eqn:E; simpl.
  - rewrite E, (filter_unregistered callback l U), bus_set_set, (bus_set_same event bus E).
    pose proof (bus_get_nonempty event F E) as Hl.
    destruct l; [contradiction | reflexivity].
  - rewrite bus_get_set_same, !bus_set_set. simpl.
    apply bus_delete_set_absent, E.
Qed.

Lemma on_then_off_is_identity_witness :
  let bus := EventBus_on "open" (UserListener 1) [] in
  bus_wf bus /\ unregistered (OnceListener 5 "open" 1) (listeners "open" bus) = true /\
  EventBus_off "open" (Some (OnceListener 5 "open" 1))
    (EventBus_on "open" (OnceListener 5 "open" 1) bus) = bus.
Proof.
  cbv zeta.
  assert (W : bus_wf (EventBus_on "open" (UserListener 1) [])).
  { split; vm_compute; repeat constructor; [intros [] | discriminate]. }
  split; [exact W|]. split; [reflexivity|].
  apply (on_then_off_is_identity "open" (OnceListener 5 "open" 1) W). reflexivity.
Defined.

(** * Publishing *)

Ltac project :=
  cbn [ws reconnectCount heartbeatTimer heartbeatTimeoutTimer connectionTimeoutTimer
       connectionManager eventBus messageQueue lastMessageTime explicitClose
       currentBackoff options timers nextId trace
       set_ws set_reconnectCount set_heartbeatTimer set_heartbeatTimeoutTimer
       set_connectionTimeoutTimer set_connectionManager set_eventBus set_messageQueue
       set_lastMessageTime set_explicitClose set_currentBackoff set_options set_timers
       set_nextId set_trace _state statusChangeCallbacks].

Lemma calls_of_app f t t' : calls_of f (t ++ t') = (calls_of f t + calls_of f t')%nat.
Proof. unfold calls_of. rewrite filter_app, length_app. reflexivity. Qed.

Section Publishing.

Variable host : Host.

Lemma call_user_effect f arg s :
  exec (call_user host f arg) s = set_trace (trace s ++ [Called f arg]) s /\
  result (call_user host f arg) s
  = if fn_throws host f (calls_of f (trace s)) then Thrown (UserThrow f) else Returned tt.
Proof.
  unfold call_user, exec, result, bind, get, log, modify, throw, ret. simpl.
  destruct (fn_throws host f (calls_of f (trace s))); split; reflexivity.
Qed.

Lemma guarded_listener_effect data l s :
  let s' := exec (guarded_listener host data l) s in
  trace s' = trace s ++ [Called (listener_function l) data] /\
  core s' = core s /\
  (eventBus s' = eventBus s \/
   exists event, eventBus s' = EventBus_off event (Some l) (eventBus s)) /\
  match l with
  | UserListener _ => eventBus s' = eventBus s
  | OnceListener _ event f =>
      fn_throws host f (calls_of f (trace s)) = false ->
      eventBus s' = EventBus_off event (Some l) (eventBus s)
  end.
Proof.
  cbv zeta. unfold guarded_listener. rewrite exec_try_catch.
  destruct l as [f|w event f]; cbn [call_listener listener_function].
  - destruct (call_user_effect f data s) as [E R]. rewrite R, E.
    destruct (fn_throws host f _); repeat split; auto.
  - rewrite result_bind, exec_bind.
    destruct (call_user_effect f data s) as [E R]. rewrite R, E.
    destruct (fn_throws host f _).
    + repeat split; auto. discriminate.
    + repeat split; auto. right. exists event. reflexivity.
Qed.

Lemma returns_guarded_listener data l : returns (guarded_listener host data l).
Proof. unfold guarded_listener. apply returns_try_catch. intro. apply returns_ret. Qed.

Lemma EventBus_off_shrinks event c bus other :
  bus_wf bus ->
  incl (listeners other (EventBus_off event (Some c) bus)) (listeners other bus).
Proof.
  intros [N F] l H. destruct (String.eqb_spec other event) as [->|Ne].
  - rewrite (EventBus_off_get event (Some c) bus N) in H. apply filter_In in H. apply H.
  - rewrite !listeners_get in *. rewrite (EventBus_off_other (Some c) bus Ne) in H. exact H.
Qed.

(** The loop of [emit]: every listener of the array is called once, in
    order; the map only loses listeners. *)
Lemma dispatch_exact data callbacks : forall s,
  let s' := exec (forEach callbacks (guarded_listener host data)) s in
  trace s' = trace s ++ map (fun l => Called (listener_function l) data) callbacks /\
  core s' = core s /\
  (bus_wf (eventBus s) ->
   bus_wf (eventBus s') /\
   forall other, incl (listeners other (eventBus s')) (listeners other (eventBus s))).
Proof.
  induction callbacks as [|l rest IH]; intro s; cbn [forEach map].
  - cbv zeta. change (exec (ret tt) s) with s. rewrite app_nil_r.
    split; [reflexivity|]. split; [reflexivity|]. intro W. split; [exact W|].
    intros other x Hx. exact Hx.
  - cbv zeta. rewrite (exec_seq _ s (returns_guarded_listener data l)).
    destruct (guarded_listener_effect data l s) as [T [C [B _]]].
    destruct (IH (exec (guarded_listener host data l) s)) as [T' [C' B']].
    cbv zeta in T', C', B'. set (s1 := exec (guarded_listener host data l) s) in *.
    split; [rewrite T', T, <- app_assoc; reflexivity|].
    split; [congruence|].
    intro W.
    assert (W1 : bus_wf (eventBus s1) /\
                 forall other, incl (listeners other (eventBus s1))
                                    (listeners other (eventBus s))).
    { destruct B as [->|[event ->]].
      - split; [exact W | intros other x Hx; exact Hx].
      - split; [apply EventBus_off_wf, W | intro other; apply EventBus_off_shrinks, W]. }
    destruct W1 as [W1 I1]. destruct (B' W1) as [W2 I2].
    split; [exact W2|]. intros other x Hx. apply I1, I2, Hx.
Qed.

Lemma emit_exact event data s :
  let s' := exec (emit host event data) s in
  result (emit host event data) s = Returned tt /\
  core s' = core s /\
  trace s' = trace s ++ Published event data
                        :: map (fun l => Called (listener_function l) data)
                               (listeners_at event (eventBus s)) /\
  (bus_wf (eventBus s) ->
   bus_wf (eventBus s') /\
   forall other, incl (listeners other (eventBus s')) (listeners other (eventBus s))).
Proof.
  cbv zeta. split; [apply returns_unit, returns_emit|].
  unfold emit, log. rewrite exec_modify, exec_get.
  set (s1 := set_trace _ s). unfold listeners_at.
  change (eventBus s1) with (eventBus s).
  destruct (bus_lookup event (eventBus s)) as [callbacks|].
  - destruct (dispatch_exact data callbacks s1) as [T [C B]].
    cbv zeta in T, C, B. unfold guarded_listener in T, C, B.
    split; [rewrite C; reflexivity|].
    split; [rewrite T; unfold s1; project; rewrite <- app_assoc; reflexivity|].
    exact B.
  - change (exec (ret tt) s1) with s1.
    split; [reflexivity|]. split; [reflexivity|]. intro W. split; [exact W|].
    intros other x Hx. exact Hx.
Qed.

(** X4.  A publish never throws, touches nothing of the instance but the
    listener map and the trace, and calls every listener registered under
    the event exactly once, in registration order, each with the published
    data - whether or not some of them throw.  An event without listeners
    calls nothing. *)
Theorem emit_calls_each_listener_once (event : EventKey) (data : Payload) (s : SupaSocket) :
  let s' := exec (emit host event data) s in
  result (emit host event data) s = Returned tt /\
  core s' = core s /\
  trace s' = trace s ++ Published event data
                        :: map (fun l => Called (listener_function l) data)
                               (listeners_at event (eventBus s)).
Proof.
  destruct (emit_exact event data s) as [R [C [T _]]]. repeat split; assumption.
Qed.

End Publishing.

(** * [once], when the callback returns *)

Lemma calls_of_other_listeners f data L :
  (forall l, In l L -> listener_function l <> f) ->
  calls_of f (map (fun l => Called (listener_function l) data) L) = 0%nat.
Proof.
  unfold calls_of. induction L as [|l L IH]; intro H; simpl; [reflexivity|].
  destruct (Nat.eqb_spec (listener_function l) f) as [E|_].
  - destruct (H l (or_introl eq_refl) E).
  - apply IH. intros l' Hl'. apply H. right. exact Hl'.
Qed.

Lemma calls_of_published f event data t :
  calls_of f (Published event data :: t) = calls_of f t.
Proof. reflexivity. Qed.

Section Once.

Variable host : Host.

Lemma once_effect event f s :
  exec (once event f) s
  = set_eventBus (EventBus_on event (OnceListener (nextId s) event f) (eventBus s))
      (set_nextId (S (nextId s)) s).
Proof. reflexivity. Qed.

(** A [once] wrapper whose callback returns is no longer a listener of its
    event after the loop that called it. *)
Lemma dispatch_removes w event f data callbacks : forall s,
  (forall earlier, fn_throws host f earlier = false) ->
  bus_wf (eventBus s) ->
  In (OnceListener w event f) callbacks ->
  forall l, In l (listeners event
                    (eventBus (exec (forEach callbacks (guarded_listener host data)) s))) ->
            listener_eqb l (OnceListener w event f) = false.
Proof.
  induction callbacks as [|x rest IH]; intros s Hf W Hin l Hl; [destruct Hin|].
  cbn [forEach] in Hl. rewrite (exec_seq _ s (returns_guarded_listener host data x)) in Hl.
  destruct (guarded_listener_effect host data x s) as [_ [_ [B O]]]. cbv zeta in B, O.
  set (s1 := exec (guarded_listener host data x) s) in *.
  assert (W1 : bus_wf (eventBus s1)).
  { destruct B as [->|[e ->]]; [exact W | apply EventBus_off_wf, W]. }
  destruct Hin as [->|Hin].
  - destruct (dispatch_exact host data rest s1) as [_ [_ K]].
    destruct (K W1) as [_ I]. apply I in Hl.
    rewrite (O (Hf _)) in Hl.
    rewrite (EventBus_off_get event (Some (OnceListener w event f)) (eventBus s) (proj1 W)) in Hl.
    apply filter_In in Hl. destruct Hl as [_ Hl]. apply negb_true_iff in Hl. exact Hl.
  - apply (IH s1 Hf W1 Hin l Hl).
Qed.

(** X5.  A callback registered with [once] that does not throw, and that is
    not otherwise listening to the event: the first publish of the event
    calls it once, the second does not call it, and after the first publish
    the listeners of the event are among those there were before [once]. *)
Theorem once_callback_that_returns_runs_once
  (s : SupaSocket) (event : string) (f : nat) (first second : Payload) :
  (forall earlier, fn_throws host f earlier = false) ->
  bus_wf (eventBus s) ->
  (forall l, In l (listeners event (eventBus s)) -> listener_function l <> f) ->
  let s1 := exec (once event f) s in
  let s2 := exec (emit host (Named event) first) s1 in
  let s3 := exec (emit host (Named event) second) s2 in
  calls_of f (trace s2) = S (calls_of f (trace s)) /\
  calls_of f (trace s3) = S (calls_of f (trace s)) /\
  incl (listeners event (eventBus s2)) (listeners event (eventBus s)).
Proof.
  intros Hf W Hno. cbv zeta. rewrite once_effect.
  set (wrapper := OnceListener (nextId s) event f).
  set (s1 := set_eventBus _ _).
  assert (L1 : listeners event (eventBus s1) = listeners event (eventBus s) ++ [wrapper]).
  { unfold s1. project.
    apply (proj1 (on_appends_the_listener event wrapper (eventBus s))). }
  assert (W1 : bus_wf (eventBus s1)) by (unfold s1; project; apply EventBus_on_wf, W).
  destruct (emit_exact host (Named event) first s1) as [_ [_ [T2 B2]]].
  cbv zeta in T2, B2. destruct (B2 W1) as [W2 I2].
  set (s2 := exec (emit host (Named event) first) s1) in *.
  assert (Gone : forall l, In l (listeners event (eventBus s2)) ->
                           In l (listeners event (eventBus s))).
  { intros l Hl.
    assert (Hl1 : In l (listeners event (eventBus s1))) by apply I2, Hl.
    rewrite L1 in Hl1. apply in_app_or in Hl1. destruct Hl1 as [Hl1|[<-|[]]]; [exact Hl1|].
    exfalso.
    assert (E : listener_eqb wrapper wrapper = false).
    { unfold s2, emit, log in Hl. rewrite exec_modify, exec_get in Hl.
      set (s1' := set_trace _ s1) in Hl.
      change (bus_lookup (Named event) (eventBus s1'))
        with (bus_get event (eventBus s1)) in Hl.
      pose proof L1 as L1'. rewrite listeners_get in L1'.
      destruct (bus_get event (eventBus s1)) as [callbacks|] eqn:G.
      - apply (dispatch_removes (nextId s) event f first callbacks s1' Hf W1); [|exact Hl].
        rewrite L1'. apply in_or_app. right. left. reflexivity.
      - destruct (listeners event (eventBus s)); discriminate L1'. }
    rewrite listener_eqb_refl in E. discriminate E. }
  assert (C2 : calls_of f (trace s2) = S (calls_of f (trace s))).
  { rewrite T2. change (trace s1) with (trace s).
    change (listeners_at (Named event) (eventBus s1)) with (listeners event (eventBus s1)).
    rewrite calls_of_app, calls_of_published, L1, map_app, calls_of_app.
    rewrite (@calls_of_other_listeners f first _ Hno).
    unfold calls_of. simpl. rewrite Nat.eqb_refl. simpl. lia. }
  split; [exact C2|]. split; [|exact Gone].
  destruct (emit_exact host (Named event) second s2) as [_ [_ [T3 _]]]. cbv zeta in T3.
  rewrite T3, calls_of_app, calls_of_published, C2.
  change (listeners_at (Named event) (eventBus s2)) with (listeners event (eventBus s2)).
  rewrite (@calls_of_other_listeners f second (listeners event (eventBus s2))); [lia|].
  intros l Hl. apply Hno, Gone, Hl.
Qed.

End Once.

(** The new instance of the examples, function 7 registered once under
    [message]. *)
Lemma once_callback_that_returns_runs_once_witness :
  let s := constructor calm_host default_options in
  calls_of 7 (trace (exec (emit calm_host (Named "message") (PData VNull))
                       (exec (emit calm_host (Named "message") (PData VNull))
                          (exec (once "message" 7) s))))
  = S (calls_of 7 (trace s)).
Proof.
  cbv zeta.
  refine (proj1 (proj2 (@once_callback_that_returns_runs_once calm_host
            (constructor calm_host default_options) "message" 7%nat (PData VNull) (PData VNull)
            _ _ _))).
  - intro earlier. reflexivity.
  - vm_compute. split; constructor.
  - intros l H. vm_compute in H. destruct H.
Defined.

(** * Properties kept by every operation *)

(** Splits [R s (step host op s)] into the methods the operations run;
    [solver] proves [keeps R] of a method. *)
Ltac by_operation solver :=
  cbn [step];
  lazymatch goal with
  | |- ?R ?s (exec ?m (ready ?r ?s)) =>
      transitivity (ready r s);
      [ | let K := fresh "K" in assert (K : keeps R m) by solver; apply K ]
  | |- ?R ?s (exec ?m ?s) =>
      let K := fresh "K" in assert (K : keeps R m) by solver; apply K
  | |- ?R ?s (match find ?p (timers ?s) with _ => _ end) =>
      let t := fresh "t" in
      destruct (find p (timers s)) as [t|]; [ | reflexivity ];
      lazymatch goal with
      | |- _ _ (exec ?m _) =>
          let K := fresh "K" in
          assert (K : keeps R m)
            by (unfold fire; destruct t as [? [] ?]; cbn [kind one_shot when]; solver);
          apply K
      end
  end.

#[export] Instance bus_kept_PreOrder : PreOrder bus_kept.
Proof. split; unfold bus_kept; [intros s H; exact H | intros s1 s2 s3 H1 H2 H; auto]. Qed.

Ltac bus_leaf :=
  unfold bus_kept; project;
  first [ exact (fun H => H)
        | apply EventBus_on_wf
        | apply EventBus_off_wf
        | intros _; unfold bus_wf, EventBus_getEvents; simpl; split; constructor ].

Ltac keep_bus := keeps_with bus_leaf.

Section ListenerMapInvariant.

Variable host : Host.

Lemma step_bus_kept op s : bus_kept s (step host op s).
Proof.
  destruct op; by_operation keep_bus;
    unfold ready; destruct (ws s); unfold bus_kept; project; exact (fun H => H).
Qed.

Lemma run_bus_kept ops : forall s, bus_kept s (run host ops s).
Proof.
  induction ops as [|op ops IH]; intro s; simpl; [reflexivity|].
  transitivity (step host op s); [apply step_bus_kept | apply IH].
Qed.

Lemma constructor_bus_wf opts : bus_wf (eventBus (constructor host opts)).
Proof.
  unfold constructor.
  assert (K : keeps bus_kept (onStatusChange_register EngineObserver ;; connect host))
    by keep_bus.
  apply K. unfold bus_wf, EventBus_getEvents. simpl. split; constructor.
Qed.

Lemma reachable_bus_wf opts ops : bus_wf (eventBus (run host ops (constructor host opts))).
Proof. apply run_bus_kept, constructor_bus_wf. Qed.

(** X6.  On an instance made by the constructor and driven by any
    operations, the [events] getter lists no event twice, and lists exactly
    the events for which [hasListeners] answers [true]. *)
Theorem events_are_the_events_with_listeners
  (opts : SupaSocketOptions) (ops : list Op) (event : string) :
  let s := run host ops (constructor host opts) in
  NoDup (events s) /\
  (In event (events s) <-> result (hasListeners event) s = Returned true).
Proof.
  cbv zeta. destruct (reachable_bus_wf opts ops) as [N F].
  set (s := run host ops (constructor host opts)) in *.
  split; [exact N|].
  unfold hasListeners, events. rewrite result_get.
  change (result (ret ?b) s) with (Returned b).
  unfold EventBus_hasListeners.
  destruct (bus_get event (eventBus s)) as [l|] eqn:E.
  - pose proof (bus_get_nonempty event F E) as Hl.
    split.
    + intros _. destruct l; [contradiction | reflexivity].
    + intros _. destruct (in_dec string_dec event (EventBus_getEvents (eventBus s)))
        as [H|H]; [exact H|].
      apply bus_get_absent in H. congruence.
  - split; [|discriminate]. intro H. apply bus_get_absent in E. contradiction.
Qed.

End ListenerMapInvariant.

(** * The time of the last message *)

Section LastMessage.

Variable host : Host.

(** X7.  Every message that arrives sets the time of the last message to
    the time of its arrival - a pong and a message whose handling throws
    included - and no other operation changes it; [timeSinceLastMessage]
    is the time elapsed since, and 0 as long as that time is 0. *)
Theorem lastMessageTime_is_set_by_every_message (op : Op) (s : SupaSocket) (later : Z) :
  let s' := step host op s in
  lastMessageTime s'
  = match op with
    | TransportMessage _ now => now
    | _ => lastMessageTime s
    end /\
  timeSinceLastMessage later s'
  = match op with
    | TransportMessage _ now => if (now =? 0)%Z then 0%Z else (later - now)%Z
    | _ => timeSinceLastMessage later s
    end.
Proof.
  cbv zeta.
  assert (E : lastMessageTime (step host op s)
              = match op with
                | TransportMessage _ now => now
                | _ => lastMessageTime s
                end).
  { destruct op;
      lazymatch goal with
      | |- lastMessageTime ?s' = lastMessageTime s =>
          change (same lastMessageTime s s');
          by_operation frame; unfold ready; destruct (ws s); reflexivity
      | |- _ => idtac
      end.
    cbn [step]. unfold onmessage. rewrite exec_modify.
    match goal with
    | |- lastMessageTime (exec ?m ?s0) = _ =>
        assert (K : keeps (same lastMessageTime) m) by frame; exact (K s0)
    end. }
  split; [exact E|].
  unfold timeSinceLastMessage. rewrite E. destruct op; reflexivity.
Qed.

End LastMessage.

(** * The outbound queue between opens *)

#[export] Instance queue_kept_PreOrder : PreOrder queue_kept.
Proof.
  split.
  - intro s. exists []. symmetry. apply app_nil_r.
  - intros s1 s2 s3 [m1 E1] [m2 E2]. exists (m1 ++ m2). rewrite E2, E1. symmetry.
    apply app_assoc.
Qed.

Ltac queue_leaf :=
  unfold queue_kept; project;
  first [ exists []; symmetry; apply app_nil_r | eexists; reflexivity ].

Ltac keep_queue := keeps_with queue_leaf.

Section QueueInvariant.

Variable host : Host.

Lemma onopen_empties_queue event s : messageQueue (exec (onopen host event) s) = [].
Proof.
  unfold onopen.
  rewrite (exec_seq _ s returns_clearConnectionTimeout).
  rewrite (exec_seq _ _ (returns_set_state host OPEN)).
  rewrite !exec_modify.
  set (s1 := set_currentBackoff _ _).
  rewrite (exec_seq _ s1 (returns_processMessageQueue host)).
  assert (E : messageQueue (exec (processMessageQueue host) s1) = []).
  { unfold processMessageQueue. rewrite exec_get.
    destruct (0 <? List.length (messageQueue s1))%nat eqn:L.
    - rewrite exec_seq; [reflexivity|].
      apply returns_forEach. intro. apply returns_bind; [apply returns_send | intro; apply returns_ret].
    - change (exec (ret tt) s1) with s1. destruct (messageQueue s1); [reflexivity | discriminate L]. }
  match goal with
  | |- messageQueue (exec ?m ?s2) = _ =>
      assert (K : keeps (same messageQueue) m) by frame;
      rewrite (K s2); exact E
  end.
Qed.

Lemma destroy_empties_queue s : messageQueue (exec (destroy host) s) = [].
Proof.
  unfold destroy. rewrite exec_get.
  assert (R1 : returns (when (is_some (ws s))
                          (try_catch (ws_close None None) (fun _ => ret tt) ;;
                           modify (set_ws None)))) by returns_tac.
  rewrite (exec_seq _ s R1).
  rewrite (exec_seq _ _ returns_clearHeartbeatTimers).
  rewrite (exec_seq _ _ returns_clearConnectionTimeout).
  unfold clearAllListeners. rewrite exec_modify.
  rewrite (exec_seq _ _ (returns_set_state host CLOSED)).
  reflexivity.
Qed.

Lemma step_queue (op : Op) (s : SupaSocket) :
  match op with
  | TransportOpen | CallDestroy => messageQueue (step host op s) = []
  | CallSend _ | TimerFired _ _ =>
      exists more, messageQueue (step host op s) = messageQueue s ++ more
  | _ => messageQueue (step host op s) = messageQueue s
  end.
Proof.
  destruct op;
    try lazymatch goal with
    | |- messageQueue ?s' = messageQueue s =>
        change (same messageQueue s s');
        by_operation frame; unfold ready; destruct (ws s); reflexivity
    | |- exists more, messageQueue ?s' = _ =>
        change (queue_kept s s'); by_operation keep_queue
    end.
  - apply destroy_empties_queue.
  - apply onopen_empties_queue.
Qed.

Lemma step_queue_kept op s : keeps_queued op = true -> queue_kept s (step host op s).
Proof.
  intro K. pose proof (step_queue op s) as H.
  destruct op; try discriminate K; try exact H;
    exists []; rewrite app_nil_r; exact H.
Qed.

Lemma run_queue_kept ops : forall s,
  forallb keeps_queued ops = true -> queue_kept s (run host ops s).
Proof.
  induction ops as [|op ops IH]; intros s H; simpl; [reflexivity|].
  simpl in H. apply andb_prop in H. destruct H as [H1 H2].
  transitivity (step host op s); [apply step_queue_kept, H1 | apply IH, H2].
Qed.

(** X8.  A queued payload stays in the queue, at its place, until the
    transport opens or the instance is destroyed: the open callback and
    [destroy] leave the queue empty, a [send] and a timer can only append
    to it, and every other operation leaves it as it is. *)
Theorem queued_payloads_wait_for_the_open (op : Op) (s : SupaSocket) :
  match op with
  | TransportOpen | CallDestroy => messageQueue (step host op s) = []
  | CallSend _ | TimerFired _ _ =>
      exists more, messageQueue (step host op s) = messageQueue s ++ more
  | _ => messageQueue (step host op s) = messageQueue s
  end.
Proof. exact (step_queue op s). Qed.

End QueueInvariant.

(** * With [autoReconnect] off *)

#[export] Instance idle_PreOrder : PreOrder idle.
Proof.
  split.
  - intros s H. repeat split; auto.
  - intros s1 s2 s3 H12 H23 H. destruct (H12 H) as [A [D [F [C S]]]].
    destruct (H23 A) as [A' [D' [F' [C' S']]]].
    repeat split; [exact A' | congruence | congruence | lia | auto].
Qed.

Ltac idle_leaf :=
  unfold idle, state_of, reconnect_delays, failures; project;
  let H := fresh "H" in
  intro H; rewrite ?flat_map_app; simpl; rewrite ?app_nil_r;
  repeat split;
  first [ assumption | reflexivity | lia
        | let E := fresh "E" in intro E; first [ exact E | discriminate E ] ].

Section AutoReconnectOff.

Variable host : Host.

Lemma idle_still s s' : s' = s -> idle s s'.
Proof. intros ->. reflexivity. Qed.

Lemma guarded_reconnect_idle :
  keeps idle (s <- get ;; when (autoReconnect (options s)) (performReconnect host)).
Proof. intros s H. rewrite exec_get, H. apply (idle_still (s := s)); [reflexivity | exact H]. Qed.

Lemma onclose_reconnect_idle :
  keeps idle (s <- get ;;
              when (negb (explicitClose s) && autoReconnect (options s))
                   (performReconnect host)).
Proof.
  intros s H. rewrite exec_get, H, andb_false_r.
  apply (idle_still (s := s)); [reflexivity | exact H].
Qed.

Lemma failure_reconnect_idle :
  keeps idle (s <- get ;;
              if autoReconnect (options s) then performReconnect host
              else set_state host CLOSED).
Proof.
  intros s H. rewrite exec_get, H.
  assert (K : keeps idle (set_state host CLOSED)) by keeps_with idle_leaf.
  apply K, H.
Qed.

Lemma checkConnection_idle : keeps idle (checkConnection host).
Proof.
  intros s H. unfold checkConnection. rewrite exec_get. cbv zeta.
  rewrite H, andb_false_r. apply (idle_still (s := s)); [reflexivity | exact H].
Qed.

#[local] Hint Resolve guarded_reconnect_idle onclose_reconnect_idle failure_reconnect_idle
  checkConnection_idle : keeps.

Ltac stay_idle := keeps_with idle_leaf.

Lemma step_idle op s : leaves_autoReconnect_off op = true -> idle s (step host op s).
Proof.
  destruct op; intro L; try discriminate L; by_operation stay_idle;
    unfold ready; destruct (ws s); idle_leaf.
Qed.

Lemma run_idle ops : forall s,
  forallb leaves_autoReconnect_off ops = true -> idle s (run host ops s).
Proof.
  induction ops as [|op ops IH]; intros s H; simpl; [reflexivity|].
  simpl in H. apply andb_prop in H. destruct H as [H1 H2].
  transitivity (step host op s); [apply step_idle, H1 | apply IH, H2].
Qed.

(** X9.  While [autoReconnect] is off - over any operations but
    [enableAutoReconnect] and [updateOptions] - the engine schedules no
    reconnection, publishes no [reconnectFailed], counts no attempt and
    never enters [RECONNECTING]; [autoReconnect] is still off afterwards. *)
Theorem nothing_reconnects_while_autoReconnect_is_off (s : SupaSocket) (ops : list Op) :
  autoReconnect (options s) = false ->
  forallb leaves_autoReconnect_off ops = true ->
  let s' := run host ops s in
  autoReconnect (options s') = false /\
  reconnect_delays (trace s') = reconnect_delays (trace s) /\
  failures (trace s') = failures (trace s) /\
  (currentReconnectAttempt s' <= currentReconnectAttempt s)%nat /\
  (connectionState s' = RECONNECTING -> connectionState s = RECONNECTING).
Proof. intros A L. exact (run_idle ops s L A). Qed.

End AutoReconnectOff.

(** A new instance on which [disableAutoReconnect] was called; the socket
    fails, is closed, a check is made and a connect is asked for. *)
Lemma nothing_reconnects_while_autoReconnect_is_off_witness :
  let s := step calm_host CallDisableAutoReconnect (constructor calm_host default_options) in
  let ops := [TransportError; TransportClose 1006 ""; CallCheckConnection;
              CallReconnect false; TransportClose 1006 ""] in
  autoReconnect (options s) = false /\
  forallb leaves_autoReconnect_off ops = true /\
  reconnect_delays (trace (run calm_host ops s)) = reconnect_delays (trace s).
Proof.
  cbv zeta. split; [reflexivity|]. split; [reflexivity|].
  refine (proj1 (proj2 (@nothing_reconnects_while_autoReconnect_is_off calm_host _ _ _ _)));
    reflexivity.
Defined.

(** * The attempt limit over a run *)

#[export] Instance limited_PreOrder : PreOrder limited.
Proof.
  split.
  - intro s. split; [reflexivity | exact (fun H => H)].
  - intros s1 s2 s3 [L1 W1] [L2 W2]. split; [congruence | auto].
Qed.

Ltac limited_leaf :=
  unfold limited, within_limit, limit_reached; project; simpl;
  split; [ reflexivity
         | first [ exact (fun H => H)
                 | let n := fresh "n" in let E := fresh "E" in
                   intros _ n E; discriminate E ] ].

Section AttemptLimit.

Variable host : Host.

Lemma limit_reached_ext o o' n :
  reconnectLimit o' = reconnectLimit o -> limit_reached o' n = limit_reached o n.
Proof. unfold limit_reached. intros ->. reflexivity. Qed.

Lemma performReconnect_limited : keeps limited (performReconnect host).
Proof.
  intro s. destruct (limit_reached (options s) (reconnectCount s)) eqn:H.
  - destruct (exhausted_once host s H) as [C _].
    destruct (core_counters C) as [Rc [_ [Op _]]].
    split; [rewrite Op; reflexivity|].
    unfold within_limit. rewrite Rc, Op. exact (fun W => W).
  - destruct (performReconnect_attempt host s H) as [_ [Rc [_ [Op _]]]].
    split; [rewrite Op; reflexivity|].
    intros _ n E. rewrite Rc in E. injection E as <-. rewrite Op. exact H.
Qed.

#[local] Hint Resolve performReconnect_limited : keeps.

Ltac keep_limit := keeps_with limited_leaf.

Lemma step_limited op s : keeps_the_options op = true -> limited s (step host op s).
Proof.
  destruct op; intro L; try discriminate L; by_operation keep_limit;
    unfold ready; destruct (ws s); limited_leaf.
Qed.

Lemma run_limited ops : forall s,
  forallb keeps_the_options ops = true -> limited s (run host ops s).
Proof.
  induction ops as [|op ops IH]; intros s H; simpl; [reflexivity|].
  simpl in H. apply andb_prop in H. destruct H as [H1 H2].
  transitivity (step host op s); [apply step_limited, H1 | apply IH, H2].
Qed.

Lemma constructor_limited opts :
  limited (blank opts) (constructor host opts).
Proof.
  unfold constructor.
  assert (K : keeps limited (onStatusChange_register EngineObserver ;; connect host))
    by keep_limit.
  apply K.
Qed.

(** X10.  On an instance made by the constructor and driven by any
    operations but [updateOptions], the attempt counter never passes the
    limit: it is 0, or one more than a count that was below
    [reconnectLimit] (5 when that is 0 or unset). *)
Theorem attempts_stay_within_the_limit (opts : SupaSocketOptions) (ops : list Op) (n : nat) :
  forallb keeps_the_options ops = true ->
  currentReconnectAttempt (run host ops (constructor host opts)) = S n ->
  inject_Z (Z.of_nat n) < or_default (reconnectLimit opts) 5.
Proof.
  intros L E.
  destruct (constructor_limited opts) as [L0 W0].
  destruct (run_limited ops (constructor host opts) L) as [L1 W1].
  assert (W : within_limit (run host ops (constructor host opts))).
  { apply W1, W0. intros m Em. discriminate Em. }
  specialize (W n E). unfold limit_reached in W.
  rewrite L1, L0 in W. change (options (blank opts)) with opts in W.
  destruct (Qlt_le_dec (inject_Z (Z.of_nat n)) (or_default (reconnectLimit opts) 5))
    as [Lt|Le]; [exact Lt|].
  apply Qle_bool_iff in Le. congruence.
Qed.

End AttemptLimit.

(** After three failures in a row under the defaults, three attempts are
    counted. *)
Lemma attempts_stay_within_the_limit_witness :
  forallb keeps_the_options three_failures = true /\
  currentReconnectAttempt (run calm_host three_failures (constructor calm_host default_options))
  = 3%nat /\
  inject_Z (Z.of_nat 2) < or_default (reconnectLimit default_options) 5.
Proof.
  split; [reflexivity|]. split; [reflexivity|].
  apply (@attempts_stay_within_the_limit calm_host default_options three_failures 2);
    reflexivity.
Defined.

(** * The timer table *)

Lemma kind_eqb_eq a b : kind_eqb a b = true <-> a = b.
Proof. destruct a, b; simpl; split; intro H; try reflexivity; discriminate H. Qed.

Lemma NoDup_map_filter {A B} (f : A -> B) (p : A -> bool) l :
  NoDup (map f l) -> NoDup (map f (filter p l)).
Proof.
  induction l as [|x l IH]; simpl; intro H; [exact H|].
  inversion H as [|? ? Hx Hl]; subst.
  destruct (p x); simpl; [|apply IH, Hl].
  constructor; [|apply IH, Hl].
  intro K. apply Hx. apply in_map_iff in K. destruct K as [y [E Hy]].
  apply filter_In in Hy. apply in_map_iff. exists y. split; [exact E | apply Hy].
Qed.

Lemma tidy_of_ext ts n h h' :
  (forall k, h' k = h k) -> tidy_of ts n h -> tidy_of ts n h'.
Proof.
  intros E [N [B [H [O K]]]]. repeat split; auto.
  - intros k id. rewrite E. apply H.
  - intros t Hin Hk. rewrite E. apply O; assumption.
  - intros t k Hin. rewrite E. apply K, Hin.
Qed.

Lemma tidy_of_filter p ts n h : tidy_of ts n h -> tidy_of (filter p ts) n h.
Proof.
  intros [N [B [H [O K]]]]. repeat split.
  - apply NoDup_map_filter, N.
  - intros t Hin. apply filter_In in Hin. apply B, Hin.
  - exact H.
  - intros t Hin. apply filter_In in Hin. apply O, Hin.
  - intros t k Hin. apply filter_In in Hin. apply K, Hin.
Qed.

Lemma tidy_of_release k ts n h h' :
  tidy_of ts n h ->
  (forall t, In t ts -> kind t <> k) ->
  h' k = None ->
  (forall k', k' <> k -> h' k' = h k') ->
  tidy_of ts n h'.
Proof.
  intros [N [B [H [O K]]]] Hk E0 E. repeat split; auto.
  - intros k' id E'. destruct (kind_eqb k' k) eqn:Q.
    + apply kind_eqb_eq in Q. subst k'. congruence.
    + apply (H k'). rewrite <- E; [exact E'|]. intro X. subst k'.
      rewrite (proj2 (kind_eqb_eq k k) eq_refl) in Q. discriminate Q.
  - intros t Hin Hr. rewrite E; [apply O; assumption | apply Hk, Hin].
  - intros t k' Hin E'. destruct (kind_eqb k' k) eqn:Q.
    + apply kind_eqb_eq in Q. subst k'. congruence.
    + apply K; [exact Hin|]. rewrite <- E; [exact E'|]. intro X. subst k'.
      rewrite (proj2 (kind_eqb_eq k k) eq_refl) in Q. discriminate Q.
Qed.

Lemma tidy_of_none_left k id ts n h :
  tidy_of ts n h -> k <> ReconnectDelayT -> h k = Some id ->
  forall t, In t (filter (fun t => negb (tid t =? id)) ts) -> kind t <> k.
Proof.
  intros [N [B [H [O K]]]] Hk E t Hin X. apply filter_In in Hin. destruct Hin as [Hin Hne].
  subst k. rewrite (O t Hin Hk) in E. injection E as <-.
  rewrite Nat.eqb_refl in Hne. discriminate Hne.
Qed.

Lemma tidy_of_none_held k ts n h :
  tidy_of ts n h -> k <> ReconnectDelayT -> h k = None ->
  forall t, In t ts -> kind t <> k.
Proof.
  intros [N [B [H [O K]]]] Hk E t Hin X. subst k. rewrite (O t Hin Hk) in E. discriminate E.
Qed.

Lemma tidy_of_keeps_reconnections k id ts n h :
  tidy_of ts n h -> k <> ReconnectDelayT -> h k = Some id ->
  forall t, In t ts -> kind t = ReconnectDelayT ->
            In t (filter (fun t => negb (tid t =? id)) ts).
Proof.
  intros [N [B [H [O K]]]] Hk E t Hin Hr. apply filter_In. split; [exact Hin|].
  destruct (Nat.eqb_spec (tid t) id) as [X|_]; [|reflexivity].
  subst id. specialize (K t k Hin E). congruence.
Qed.

Lemma NoDup_snoc_fresh ts n :
  NoDup (map tid ts) -> (forall t, In t ts -> (tid t < n)%nat) ->
  forall k d, NoDup (map tid (ts ++ [{| tid := n; kind := k; delay := d |}])).
Proof.
  intros N B k d. rewrite map_app. simpl.
  apply NoDup_app; [exact N | repeat constructor; intros [] |].
  intros x Hx [<-|[]]. apply in_map_iff in Hx. destruct Hx as [t [E Hin]].
  specialize (B t Hin). lia.
Qed.

Lemma tidy_of_arm k d ts n h h' :
  tidy_of ts n h ->
  (forall t, In t ts -> kind t <> k) ->
  k <> ReconnectDelayT ->
  h' k = Some n ->
  (forall k', k' <> k -> h' k' = h k') ->
  tidy_of (ts ++ [{| tid := n; kind := k; delay := d |}]) (S n) h'.
Proof.
  intros [N [B [H [O K]]]] Hk Hr E0 E.
  assert (D : forall k', k' = k \/ (k' <> k /\ h' k' = h k')).
  { intro k'. destruct (kind_eqb k' k) eqn:Q.
    - left. apply kind_eqb_eq, Q.
    - right. assert (X : k' <> k).
      { intro X. subst k'. rewrite (proj2 (kind_eqb_eq k k) eq_refl) in Q. discriminate Q. }
      split; [exact X | apply E, X]. }
  repeat split.
  - apply NoDup_snoc_fresh; assumption.
  - intros t Hin. apply in_app_or in Hin. destruct Hin as [Hin|[<-|[]]].
    + specialize (B t Hin). lia.
    + simpl. lia.
  - intros k' id E'. destruct (D k') as [->|[_ X]].
    + rewrite E0 in E'. injection E' as <-. lia.
    + rewrite X in E'. specialize (H k' id E'). lia.
  - intros t Hin Ht. apply in_app_or in Hin. destruct Hin as [Hin|[<-|[]]].
    + rewrite E; [apply O; assumption | apply Hk, Hin].
    + simpl. exact E0.
  - intros t k' Hin E'. apply in_app_or in Hin. destruct Hin as [Hin|[<-|[]]].
    + destruct (D k') as [->|[_ X]].
      * rewrite E0 in E'. injection E' as E'. specialize (B t Hin). lia.
      * rewrite X in E'. apply (K t k' Hin E').
    + simpl in *. destruct (D k') as [->|[_ X]]; [reflexivity|].
      rewrite X in E'. specialize (H k' n E'). lia.
Qed.

Lemma tidy_of_schedule d ts n h :
  tidy_of ts n h ->
  tidy_of (ts ++ [{| tid := n; kind := ReconnectDelayT; delay := d |}]) (S n) h.
Proof.
  intros [N [B [H [O K]]]]. repeat split.
  - apply NoDup_snoc_fresh; assumption.
  - intros t Hin. apply in_app_or in Hin. destruct Hin as [Hin|[<-|[]]].
    + specialize (B t Hin). lia.
    + simpl. lia.
  - intros k id E. specialize (H k id E). lia.
  - intros t Hin Ht. apply in_app_or in Hin. destruct Hin as [Hin|[<-|[]]].
    + apply O; assumption.
    + simpl in Ht. destruct (Ht eq_refl).
  - intros t k Hin E. apply in_app_or in Hin. destruct Hin as [Hin|[<-|[]]].
    + apply (K t k Hin E).
    + simpl in E. specialize (H k n E). lia.
Qed.

Lemma tidy_of_bump ts n h : tidy_of ts n h -> tidy_of ts (S n) h.
Proof.
  intros [N [B [H [O K]]]]. repeat split; auto.
  - intros t Hin. specialize (B t Hin). lia.
  - intros k id E. specialize (H k id E). lia.
Qed.

#[export] Instance orderly_PreOrder : PreOrder orderly.
Proof.
  split.
  - intros s H. split; [exact H | auto].
  - intros s1 s2 s3 H12 H23 H. destruct (H12 H) as [T2 R2]. destruct (H23 T2) as [T3 R3].
    split; [exact T3 | auto].
Qed.

Lemma orderly_view s s' : timer_view s' = timer_view s -> orderly s s'.
Proof.
  unfold timer_view. intros E H. injection E as Et En Ehi Eht Ect.
  split.
  - unfold tidy in *. rewrite Et, En.
    apply (tidy_of_ext (h := fun k => held k s)); [|exact H].
    intros []; simpl; congruence.
  - intros t Hin _. rewrite Et. exact Hin.
Qed.

Ltac orderly_leaf := apply orderly_view; reflexivity.

Lemma exec_clearTimer id s :
  exec (clearTimer id) s
  = set_trace (trace s ++ [TimerCleared id])
      (set_timers (filter (fun t => negb (tid t =? id)) (timers s)) s).
Proof. reflexivity. Qed.

(** Clearing the timer held for kind [k] and emptying the field. *)
Lemma release_orderly k s s' :
  k <> ReconnectDelayT ->
  tidy s ->
  timers s' = match held k s with
              | Some id => filter (fun t => negb (tid t =? id)) (timers s)
              | None => timers s
              end ->
  nextId s' = nextId s ->
  held k s' = None ->
  (forall k', k' <> k -> held k' s' = held k' s) ->
  tidy s' /\
  (forall t, In t (timers s') -> kind t <> k) /\
  (forall t, In t (timers s) -> kind t = ReconnectDelayT -> In t (timers s')).
Proof.
  intros Hk T Et En E0 E.
  assert (P : tidy_of (timers s') (nextId s) (fun k => held k s) /\
              (forall t, In t (timers s') -> kind t <> k) /\
              (forall t, In t (timers s) -> kind t = ReconnectDelayT -> In t (timers s'))).
  { rewrite Et. destruct (held k s) as [id|] eqn:Hh.
    - split; [apply tidy_of_filter, T|]. split.
      + apply (tidy_of_none_left (h := fun k => held k s) T Hk Hh).
      + apply (tidy_of_keeps_reconnections (h := fun k => held k s) T Hk Hh).
    - split; [exact T|]. split; [|auto].
      apply (tidy_of_none_held (h := fun k => held k s) T Hk Hh). }
  destruct P as [P1 [P2 P3]]. split; [|split; assumption].
  unfold tidy. rewrite En.
  apply (tidy_of_release (k := k) (h := fun k => held k s)); assumption.
Qed.

(** Setting a timer of kind [k] and holding it, when none is live. *)
Lemma arm_orderly k d s s' :
  k <> ReconnectDelayT ->
  tidy s ->
  (forall t, In t (timers s) -> kind t <> k) ->
  timers s' = timers s ++ [{| tid := nextId s; kind := k; delay := d |}] ->
  nextId s' = S (nextId s) ->
  held k s' = Some (nextId s) ->
  (forall k', k' <> k -> held k' s' = held k' s) ->
  tidy s' /\
  (forall t, In t (timers s) -> kind t = ReconnectDelayT -> In t (timers s')).
Proof.
  intros Hk T Hn Et En E0 E. split.
  - unfold tidy. rewrite Et, En.
    apply (tidy_of_arm (k := k) d (h := fun k => held k s)); assumption.
  - intros t Hin _. rewrite Et. apply in_or_app. left. exact Hin.
Qed.

Ltac other_kinds :=
  let k' := fresh "k" in let N := fresh "N" in
  intros k' N; destruct k'; first [ reflexivity | exfalso; apply N; reflexivity ].

Lemma clearConnectionTimeout_strong s :
  tidy s ->
  let s' := exec clearConnectionTimeout s in
  tidy s' /\
  (forall t, In t (timers s') -> kind t <> ConnectionTimeoutT) /\
  (forall t, In t (timers s) -> kind t = ReconnectDelayT -> In t (timers s')).
Proof.
  intro T. cbv zeta. unfold clearConnectionTimeout. rewrite exec_get.
  apply (release_orderly (k := ConnectionTimeoutT)); [discriminate | exact T | | | | ];
    cbn [held]; destruct (connectionTimeoutTimer s) eqn:Hh;
    first [ reflexivity | exact Hh | other_kinds ].
Qed.

Lemma resetHeartbeatTimeout_strong s :
  tidy s ->
  let s' := exec resetHeartbeatTimeout s in
  tidy s' /\
  (forall t, In t (timers s') -> kind t <> HeartbeatTimeoutT) /\
  (forall t, In t (timers s) -> kind t = ReconnectDelayT -> In t (timers s')).
Proof.
  intro T. cbv zeta. unfold resetHeartbeatTimeout. rewrite exec_get.
  apply (release_orderly (k := HeartbeatTimeoutT)); [discriminate | exact T | | | | ];
    cbn [held]; destruct (heartbeatTimeoutTimer s) eqn:Hh;
    first [ reflexivity | exact Hh | other_kinds ].
Qed.

Lemma clearHeartbeatTimers_strong s :
  tidy s ->
  let s' := exec clearHeartbeatTimers s in
  tidy s' /\
  (forall t, In t (timers s') ->
             kind t <> HeartbeatIntervalT /\ kind t <> HeartbeatTimeoutT) /\
  (forall t, In t (timers s) -> kind t = ReconnectDelayT -> In t (timers s')).
Proof.
  intro T. cbv zeta.
  set (s1 := exec (match heartbeatTimer s with
                   | Some t => clearTimer t ;; modify (set_heartbeatTimer None)
                   | None => ret tt
                   end) s).
  assert (E : exec clearHeartbeatTimers s = exec resetHeartbeatTimeout s1).
  { unfold s1, clearHeartbeatTimers. rewrite exec_get.
    destruct (heartbeatTimer s); reflexivity. }
  assert (P : tidy s1 /\
              (forall t, In t (timers s1) -> kind t <> HeartbeatIntervalT) /\
              (forall t, In t (timers s) -> kind t = ReconnectDelayT -> In t (timers s1))).
  { apply (release_orderly (k := HeartbeatIntervalT)); [discriminate | exact T | | | | ];
      unfold s1; cbn [held]; destruct (heartbeatTimer s) eqn:Hh;
      first [ reflexivity | exact Hh | other_kinds ]. }
  destruct P as [T1 [N1 R1]].
  destruct (resetHeartbeatTimeout_strong T1) as [T2 [N2 R2]]. cbv zeta in T2, N2, R2.
  rewrite E. split; [exact T2|]. split.
  - intros t Hin. split; [|apply N2, Hin].
    apply N1. revert Hin. unfold resetHeartbeatTimeout. rewrite exec_get.
    destruct (heartbeatTimeoutTimer s1); [|exact (fun H => H)].
    intro Hin. change (In t (filter (fun u => negb (tid u =? n)) (timers s1))) in Hin.
    apply filter_In in Hin. apply Hin.
  - intros t Hin Hr. apply R2; [apply R1; assumption | exact Hr].
Qed.

Lemma clearConnectionTimeout_orderly : keeps orderly clearConnectionTimeout.
Proof. intros s T. destruct (clearConnectionTimeout_strong T) as [A [_ B]]. split; assumption. Qed.

Lemma resetHeartbeatTimeout_orderly : keeps orderly resetHeartbeatTimeout.
Proof. intros s T. destruct (resetHeartbeatTimeout_strong T) as [A [_ B]]. split; assumption. Qed.

Lemma clearHeartbeatTimers_orderly : keeps orderly clearHeartbeatTimers.
Proof. intros s T. destruct (clearHeartbeatTimers_strong T) as [A [_ B]]. split; assumption. Qed.

Lemma startHeartbeatTimeout_orderly : keeps orderly startHeartbeatTimeout.
Proof.
  intros s T.
  set (s1 := exec (match heartbeatTimeoutTimer s with
                   | Some t => clearTimer t
                   | None => ret tt
                   end) s).
  assert (P : tidy s1 /\
              (forall t, In t (timers s1) -> kind t <> HeartbeatTimeoutT) /\
              (forall t, In t (timers s) -> kind t = ReconnectDelayT -> In t (timers s1)) /\
              options s1 = options s).
  { unfold s1. destruct (heartbeatTimeoutTimer s) as [id|] eqn:E.
    - rewrite exec_clearTimer. split; [|split; [|split; [|reflexivity]]].
      + apply (tidy_of_filter (fun t => negb (tid t =? id)) T).
      + apply (tidy_of_none_left (k := HeartbeatTimeoutT) (h := fun k => held k s) T);
          [discriminate | exact E].
      + apply (tidy_of_keeps_reconnections (k := HeartbeatTimeoutT)
                 (h := fun k => held k s) T); [discriminate | exact E].
    - split; [exact T|]. split; [|split; [auto | reflexivity]].
      apply (tidy_of_none_held (k := HeartbeatTimeoutT) (h := fun k => held k s) T);
        [discriminate | exact E]. }
  destruct P as [T1 [N1 [R1 O1]]].
  assert (E : exec startHeartbeatTimeout s
              = exec (match positive (heartbeatTimeout (options s1)) with
                      | None => ret tt
                      | Some timeout =>
                          t <- setTimer HeartbeatTimeoutT timeout ;;
                          modify (set_heartbeatTimeoutTimer (Some t))
                      end) s1).
  { unfold s1, startHeartbeatTimeout. rewrite exec_get.
    destruct (heartbeatTimeoutTimer s); reflexivity. }
  rewrite E. destruct (positive (heartbeatTimeout (options s1))) as [d|].
  - destruct (@arm_orderly HeartbeatTimeoutT d s1
                (exec (t <- setTimer HeartbeatTimeoutT d ;;
                       modify (set_heartbeatTimeoutTimer (Some t))) s1))
      as [A B]; try reflexivity; try assumption; [discriminate | other_kinds |].
    split; [exact A|]. intros t Hin Hr. apply B; [apply R1; assumption | exact Hr].
  - split; [exact T1 | exact R1].
Qed.

Lemma startHeartbeat_orderly : keeps orderly startHeartbeat.
Proof.
  intros s T. unfold startHeartbeat.
  rewrite (exec_seq _ s returns_clearHeartbeatTimers).
  destruct (clearHeartbeatTimers_strong T) as [T1 [N1 R1]]. cbv zeta in T1, N1, R1.
  set (s1 := exec clearHeartbeatTimers s) in *.
  rewrite exec_get. destruct (positive (heartbeatInterval (options s1))) as [d|].
  - destruct (@arm_orderly HeartbeatIntervalT d s1
                (exec (t <- setTimer HeartbeatIntervalT d ;;
                       modify (set_heartbeatTimer (Some t))) s1))
      as [A B]; try reflexivity; try assumption;
      [discriminate | intros t Hin; apply N1, Hin | other_kinds |].
    split; [exact A|]. intros t Hin Hr. apply B; [apply R1; assumption | exact Hr].
  - split; [exact T1 | exact R1].
Qed.

Lemma schedule_orderly d : keeps orderly (setTimer ReconnectDelayT d).
Proof.
  intros s T. split.
  - apply (tidy_of_schedule d T).
  - intros t Hin _. change (In t (timers s ++ [{| tid := nextId s; kind := ReconnectDelayT;
                                                  delay := d |}])).
    apply in_or_app. left. exact Hin.
Qed.

Lemma fresh_orderly : keeps orderly fresh.
Proof. intros s T. split; [apply (tidy_of_bump T) | auto]. Qed.

#[export] Hint Resolve clearConnectionTimeout_orderly resetHeartbeatTimeout_orderly
  clearHeartbeatTimers_orderly startHeartbeatTimeout_orderly startHeartbeat_orderly
  schedule_orderly fresh_orderly : keeps.

Ltac keep_order := keeps_with orderly_leaf.

Section TimerTable.

Variable host : Host.

Lemma open_socket_cases s :
  if construct_throws host (url (options s))
  then result (open_socket host) s = Thrown ConstructFailure /\
       exec (open_socket host) s = s
  else result (open_socket host) s = Returned tt /\
       exec (open_socket host) s
       = exec (match positive (connectionTimeout (options s)) with
               | None => ret tt
               | Some timeout =>
                   t <- setTimer ConnectionTimeoutT timeout ;;
                   modify (set_connectionTimeoutTimer (Some t))
               end)
           (set_ws (Some WS_CONNECTING)
              (set_trace (trace s ++ [WsCreated (url (options s))]) s)).
Proof.
  unfold open_socket, new_WebSocket. rewrite result_get, exec_get.
  destruct (construct_throws host (url (options s))).
  - split; reflexivity.
  - destruct (positive (connectionTimeout (options s))); split; reflexivity.
Qed.

Lemma connect_failed_orderly error :
  keeps orderly
    (set_state host CLOSED ;;
     emit host (Named "error") (PError initError error None) ;;
     s <- get ;;
     when (autoReconnect (options s)) (performReconnect host)).
Proof. keep_order. Qed.

Lemma set_state_timer_view n : keeps (same timer_view) (set_state host n).
Proof. unfold timer_view. frame. Qed.

Lemma connect_orderly : keeps orderly (connect host).
Proof.
  intros s T. unfold connect.
  rewrite (exec_seq _ s returns_clearConnectionTimeout).
  destruct (clearConnectionTimeout_strong T) as [T1 [N1 R1]]. cbv zeta in T1, N1, R1.
  set (s1 := exec clearConnectionTimeout s) in *.
  rewrite (exec_seq _ s1 (returns_set_state host CONNECTING)).
  pose proof (set_state_timer_view CONNECTING s1) as V.
  set (s2 := exec (set_state host CONNECTING) s1) in *.
  rewrite exec_modify. set (s3 := set_explicitClose false s2).
  assert (V3 : timer_view s3 = timer_view s1) by exact V.
  destruct (orderly_view V3 T1) as [T3 _].
  assert (Et : timers s3 = timers s1).
  { unfold timer_view in V3. injection V3 as E _ _ _ _. exact E. }
  assert (Goal3 : orderly s3 (exec (try_catch (open_socket host)
             (fun error =>
                set_state host CLOSED ;;
                emit host (Named "error") (PError initError error None) ;;
                s <- get ;;
                when (autoReconnect (options s)) (performReconnect host))) s3)).
  { intros _. rewrite exec_try_catch.
    pose proof (open_socket_cases s3) as C.
    destruct (construct_throws host (url (options s3))).
    - destruct C as [-> ->]. apply connect_failed_orderly, T3.
    - destruct C as [-> ->].
      set (s4 := set_ws _ _).
      destruct (positive (connectionTimeout (options s3))) as [d|].
      + apply (@arm_orderly ConnectionTimeoutT d s4); try reflexivity;
          [discriminate | exact T3 | | other_kinds].
        intros t Hin. apply N1. rewrite <- Et. exact Hin.
      + split; [exact T3 | auto]. }
  destruct (Goal3 T3) as [T4 R4]. split; [exact T4|].
  intros t Hin Hr. apply R4; [|exact Hr]. rewrite Et. apply R1; assumption.
Qed.

#[local] Hint Resolve connect_orderly : keeps.

Lemma step_orderly op s :
  match op with
  | TimerFired _ _ => True
  | _ => orderly s (step host op s)
  end.
Proof.
  destruct op; try exact I; by_operation keep_order;
    unfold ready; destruct (ws s); orderly_leaf.
Qed.

(** A timer that fires: a one-shot timer leaves the table first. *)
Lemma fire_tidy t now s :
  tidy s ->
  let s' := exec (fire host t now) s in
  tidy s' /\
  forall u, In u (timers s) -> kind u = ReconnectDelayT -> tid u <> tid t ->
            In u (timers s').
Proof.
  intro T. cbv zeta. unfold fire.
  set (s1 := exec (when (one_shot (kind t))
                     (modify (fun s => set_timers
                        (filter (fun u => negb (tid u =? tid t)) (timers s)) s))) s).
  assert (P : tidy s1 /\
              forall u, In u (timers s) -> kind u = ReconnectDelayT -> tid u <> tid t ->
                        In u (timers s1)).
  { unfold s1. destruct (one_shot (kind t)); cbn [when].
    - split; [apply (tidy_of_filter (fun u => negb (tid u =? tid t)) T)|].
      intros u Hin _ Hne. change (In u (filter (fun u => negb (tid u =? tid t)) (timers s))).
      apply filter_In. split; [exact Hin|]. apply negb_true_iff, Nat.eqb_neq, Hne.
    - split; [exact T | auto]. }
  destruct P as [T1 R1].
  assert (K : keeps orderly
                (match kind t with
                 | ConnectionTimeoutT => onConnectionTimeout host
                 | HeartbeatIntervalT => onHeartbeat host now
                 | HeartbeatTimeoutT => onHeartbeatTimeout host now
                 | ReconnectDelayT => connect host
                 end)) by (destruct (kind t); keep_order).
  assert (E : exec (when (one_shot (kind t))
                      (modify (fun s => set_timers
                         (filter (fun u => negb (tid u =? tid t)) (timers s)) s)) ;;
                    match kind t with
                    | ConnectionTimeoutT => onConnectionTimeout host
                    | HeartbeatIntervalT => onHeartbeat host now
                    | HeartbeatTimeoutT => onHeartbeatTimeout host now
                    | ReconnectDelayT => connect host
                    end) s
              = exec (match kind t with
                      | ConnectionTimeoutT => onConnectionTimeout host
                      | HeartbeatIntervalT => onHeartbeat host now
                      | HeartbeatTimeoutT => onHeartbeatTimeout host now
                      | ReconnectDelayT => connect host
                      end) s1).
  { unfold s1. destruct (one_shot (kind t)); reflexivity. }
  rewrite E. destruct (K s1 T1) as [T2 R2]. split; [exact T2|].
  intros u Hin Hr Hne. apply R2; [apply R1; assumption | exact Hr].
Qed.

Lemma step_tidy op s : tidy s -> tidy (step host op s).
Proof.
  intro T. pose proof (step_orderly op s) as K. destruct op; try apply (K T).
  cbn [step]. destruct (find (fun t => tid t =? id) (timers s)) as [t|]; [|exact T].
  apply (fire_tidy t now T).
Qed.

Lemma run_tidy ops : forall s, tidy s -> tidy (run host ops s).
Proof.
  induction ops as [|op ops IH]; intros s T; simpl; [exact T|].
  apply IH, step_tidy, T.
Qed.

Lemma constructor_tidy opts : tidy (constructor host opts).
Proof.
  unfold constructor.
  assert (K : keeps orderly (onStatusChange_register EngineObserver ;; connect host))
    by keep_order.
  apply K. unfold tidy, tidy_of. simpl.
  split; [constructor|]. split; [intros t []|].
  split; [intros [] id E; discriminate E|].
  split; [intros t [] | intros t k []].
Qed.

Lemma reachable_tidy opts ops : tidy (run host ops (constructor host opts)).
Proof. apply run_tidy, constructor_tidy. Qed.

Lemma at_most_one (l : list Timer) (id : nat) :
  NoDup (map tid l) -> (forall t, In t l -> tid t = id) -> (List.length l <= 1)%nat.
Proof.
  intros N H. destruct l as [|a [|b l]]; simpl; try lia.
  exfalso. inversion N as [|? ? Ha _]; subst. apply Ha. left.
  rewrite (H a), (H b); simpl; auto.
Qed.

Lemma pending_held k s :
  tidy s -> k <> ReconnectDelayT ->
  (List.length (pending k s) <= 1)%nat /\
  forall t, In t (pending k s) -> held k s = Some (tid t).
Proof.
  intros [N [B [H [O K]]]] Hk.
  assert (P : forall t, In t (pending k s) -> held k s = Some (tid t)).
  { intros t Hin. apply filter_In in Hin. destruct Hin as [Hin E].
    apply kind_eqb_eq in E. subst k. apply O; assumption. }
  split; [|exact P].
  destruct (held k s) as [id|] eqn:E.
  - apply (@at_most_one (pending k s) id); [apply NoDup_map_filter, N|].
    intros t Hin. specialize (P t Hin). congruence.
  - destruct (pending k s) as [|t l]; [simpl; lia|].
    specialize (P t (or_introl eq_refl)). discriminate P.
Qed.

(** X11.  On an instance made by the constructor and driven by any
    operations, at most one connection-timeout timer, one heartbeat
    interval and one heartbeat-timeout timer are live at any time, each the
    one held in its field; and live timers have distinct identities. *)
Theorem at_most_one_timer_of_each_kind (opts : SupaSocketOptions) (ops : list Op) :
  let s := run host ops (constructor host opts) in
  NoDup (map tid (timers s)) /\
  ((List.length (pending ConnectionTimeoutT s) <= 1)%nat /\
   forall t, In t (pending ConnectionTimeoutT s) -> connectionTimeoutTimer s = Some (tid t)) /\
  ((List.length (pending HeartbeatIntervalT s) <= 1)%nat /\
   forall t, In t (pending HeartbeatIntervalT s) -> heartbeatTimer s = Some (tid t)) /\
  ((List.length (pending HeartbeatTimeoutT s) <= 1)%nat /\
   forall t, In t (pending HeartbeatTimeoutT s) -> heartbeatTimeoutTimer s = Some (tid t)).
Proof.
  cbv zeta. pose proof (reachable_tidy opts ops) as T.
  split; [apply T|].
  split; [|split].
  - apply (@pending_held ConnectionTimeoutT _ T). discriminate.
  - apply (@pending_held HeartbeatIntervalT _ T). discriminate.
  - apply (@pending_held HeartbeatTimeoutT _ T). discriminate.
Qed.

End TimerTable.

(** * [connect] *)

Section Connect.

Variable host : Host.

Lemma clearConnectionTimeout_connect_view : keeps (same connect_view) clearConnectionTimeout.
Proof. unfold connect_view, sockets, errors. frame. Qed.

Lemma set_state_connect_view n : keeps (same connect_view) (set_state host n).
Proof. unfold connect_view, sockets, errors. frame. Qed.

Lemma performReconnect_sockets :
  keeps (same (fun s => (ws s, sockets (trace s), errors (trace s)))) (performReconnect host).
Proof. unfold sockets, errors. frame. Qed.

Lemma clearConnectionTimeout_field s :
  connectionTimeoutTimer (exec clearConnectionTimeout s) = None.
Proof.
  unfold clearConnectionTimeout. rewrite exec_get.
  destruct (connectionTimeoutTimer s) eqn:E; [reflexivity | exact E].
Qed.

Lemma set_state_keeps_timeout n :
  keeps (same (fun s => (connectionTimeoutTimer s, explicitClose s))) (set_state host n).
Proof. frame. Qed.

Lemma performReconnect_state s :
  state_of (exec (performReconnect host) s)
  = if limit_reached (options s) (reconnectCount s) then state_of s else RECONNECTING.
Proof.
  destruct (limit_reached (options s) (reconnectCount s)) eqn:H.
  - destruct (exhausted_once host s H) as [C _]. apply (core_counters C).
  - apply (performReconnect_attempt host s H).
Qed.

(** What [connect] does: the socket is constructed for the configured URL
    and the connection timeout is armed, or the failure is reported and a
    reconnection follows when [autoReconnect] is on. *)
Lemma connect_effect s :
  let s' := exec (connect host) s in
  result (connect host) s = Returned tt /\
  options s' = options s /\
  if construct_throws host (url (options s))
  then ws s' = ws s /\
       sockets (trace s') = sockets (trace s) /\
       errors (trace s')
       = errors (trace s) ++ [(Named "error", initError, ConstructFailure, None)] /\
       state_of s'
       = (if autoReconnect (options s)
             && negb (limit_reached (options s) (reconnectCount s))
          then RECONNECTING else CLOSED)
  else ws s' = Some WS_CONNECTING /\
       sockets (trace s') = sockets (trace s) ++ [url (options s)] /\
       errors (trace s') = errors (trace s) /\
       state_of s' = CONNECTING /\
       explicitClose s' = false /\
       counters s' = counters s /\
       match positive (connectionTimeout (options s)) with
       | Some timeout =>
           exists id, connectionTimeoutTimer s' = Some id /\
                      In {| tid := id; kind := ConnectionTimeoutT; delay := timeout |}
                         (timers s')
       | None => connectionTimeoutTimer s' = None
       end.
Proof.
  cbv zeta. split; [apply returns_unit, returns_connect|]. unfold connect.
  rewrite (exec_seq _ s returns_clearConnectionTimeout).
  pose proof (clearConnectionTimeout_connect_view s) as V1.
  pose proof (clearConnectionTimeout_field s) as F1.
  set (s1 := exec clearConnectionTimeout s) in *.
  rewrite (exec_seq _ s1 (returns_set_state host CONNECTING)).
  pose proof (set_state_connect_view CONNECTING s1) as V2.
  pose proof (set_state_keeps_timeout CONNECTING s1) as F2.
  pose proof (set_state_state host s1 CONNECTING) as St2.
  set (s2 := exec (set_state host CONNECTING) s1) in *.
  rewrite exec_modify. set (s3 := set_explicitClose false s2).
  unfold same, connect_view in V1, V2. unfold same in F2.
  injection V1 as V1w V1o V1c V1b V1s V1e. injection V2 as V2w V2o V2c V2b V2s V2e.
  injection F2 as F2t _.
  fold (open_socket host). rewrite exec_try_catch.
  pose proof (open_socket_cases host s3) as C.
  change (options s3) with (options s2) in C. rewrite V2o, V1o in C.
  destruct (construct_throws host (url (options s))).
  - destruct C as [-> ->].
    rewrite (exec_seq _ s3 (returns_set_state host CLOSED)).
    pose proof (set_state_connect_view CLOSED s3) as V4.
    pose proof (set_state_state host s3 CLOSED) as St4.
    set (s4 := exec (set_state host CLOSED) s3) in *.
    rewrite (exec_seq _ s4 (returns_emit host _ _)).
    destruct (emit_effect host (Named "error") (PError initError ConstructFailure None) s4)
      as [Co _].
    pose proof (emit_selected error_publish host (Named "error")
                  (PError initError ConstructFailure None) s4 (fun _ _ => eq_refl)) as Ee.
    pose proof (emit_selected socket_created host (Named "error")
                  (PError initError ConstructFailure None) s4 (fun _ _ => eq_refl)) as Es.
    set (s5 := exec (emit host (Named "error") (PError initError ConstructFailure None)) s4)
      in *.
    unfold same, connect_view in V4.
    change (ws s3) with (ws s2) in V4. change (options s3) with (options s2) in V4.
    change (reconnectCount s3) with (reconnectCount s2) in V4.
    change (currentBackoff s3) with (currentBackoff s2) in V4.
    change (trace s3) with (trace s2) in V4.
    injection V4 as V4w V4o V4c V4b V4s V4e.
    destruct (core_counters Co) as [Cc [Cb [Cop [Cst _]]]].
    assert (Cw : ws s5 = ws s4) by (unfold core in Co; congruence).
    simpl in Ee, Es. rewrite app_nil_r in Es.
    fold (errors (trace s5)) in Ee. fold (errors (trace s4)) in Ee.
    fold (sockets (trace s5)) in Es. fold (sockets (trace s4)) in Es.
    rewrite exec_get.
    assert (O5 : options s5 = options s) by congruence.
    assert (R5 : reconnectCount s5 = reconnectCount s) by congruence.
    rewrite O5.
    destruct (autoReconnect (options s)); cbn [when andb].
    + pose proof (performReconnect_sockets s5) as P. unfold same in P.
      pose proof (f_equal (fun p => fst (fst p)) P) as Pw.
      pose proof (f_equal (fun p => snd (fst p)) P) as Ps.
      pose proof (f_equal snd P) as Pe.
      cbn [fst snd] in Pw, Ps, Pe. clear P.
      assert (Po : options (exec (performReconnect host) s5) = options s5).
      { assert (K : keeps (same options) (performReconnect host)) by frame. apply K. }
      split; [congruence|]. split; [congruence|]. split; [congruence|].
      split; [congruence|].
      rewrite performReconnect_state, O5, R5.
      destruct (limit_reached (options s) (reconnectCount s)); simpl; congruence.
    + change (exec (ret tt) s5) with s5.
      split; [congruence|]. split; [congruence|]. split; [congruence|].
      split; congruence.
  - destruct C as [-> ->].
    set (s4 := set_ws _ _).
    assert (P4 : options s4 = options s /\ ws s4 = Some WS_CONNECTING /\
                 sockets (trace s4) = sockets (trace s) ++ [url (options s)] /\
                 errors (trace s4) = errors (trace s) /\
                 state_of s4 = CONNECTING /\ explicitClose s4 = false /\
                 counters s4 = counters s /\ connectionTimeoutTimer s4 = None).
    { unfold s4, s3, counters, state_of. project.
      unfold sockets, errors. rewrite !flat_map_app. simpl. rewrite app_nil_r.
      fold (sockets (trace s2)). fold (errors (trace s2)).
      fold (sockets (trace s)). fold (errors (trace s)).
      unfold state_of in St2. repeat split; congruence. }
    destruct P4 as [P4o [P4w [P4s [P4e [P4st [P4x [P4c P4t]]]]]]].
    destruct (positive (connectionTimeout (options s))) as [d|].
    + split; [exact P4o|]. split; [exact P4w|].
      split; [unfold sockets in *; simpl; rewrite flat_map_app; simpl; rewrite app_nil_r;
              exact P4s|].
      split; [unfold errors in *; simpl; rewrite flat_map_app; simpl; rewrite app_nil_r;
              exact P4e|].
      split; [exact P4st|]. split; [exact P4x|]. split; [exact P4c|].
      exists (nextId s4). split; [reflexivity|].
      change (In {| tid := nextId s4; kind := ConnectionTimeoutT; delay := d |}
                 (timers s4 ++ [{| tid := nextId s4; kind := ConnectionTimeoutT;
                                   delay := d |}])).
      apply in_or_app. right. left. reflexivity.
    + change (exec (ret tt) s4) with s4. repeat split; assumption.
Qed.

End Connect.

(** * Scheduled reconnections *)

Lemma find_by_tid ts t :
  NoDup (map tid ts) -> In t ts -> find (fun u => tid u =? tid t) ts = Some t.
Proof.
  induction ts as [|a l IH]; simpl; intros N Hin; [destruct Hin|].
  inversion N as [|? ? Ha Hl]; subst.
  destruct (Nat.eqb_spec (tid a) (tid t)) as [E|Ne].
  - destruct Hin as [->|Hin]; [reflexivity|].
    exfalso. apply Ha. rewrite E. apply in_map, Hin.
  - destruct Hin as [->|Hin]; [destruct (Ne eq_refl) | apply IH; assumption].
Qed.

Section ScheduledReconnections.

Variable host : Host.

(** X12.  A scheduled reconnection is never cancelled: on an instance made
    by the constructor and driven by any operations, the timer of a
    scheduled reconnection is still live after every operation but its own
    firing - [close] and [destroy] included. *)
Theorem a_scheduled_reconnection_is_never_cancelled
  (opts : SupaSocketOptions) (ops : list Op) (op : Op) (t : Timer) :
  let s := run host ops (constructor host opts) in
  In t (timers s) ->
  kind t = ReconnectDelayT ->
  (forall now, op <> TimerFired (tid t) now) ->
  In t (timers (step host op s)).
Proof.
  cbv zeta. intros Hin Hk Hop.
  pose proof (reachable_tidy host opts ops) as T.
  set (s := run host ops (constructor host opts)) in *.
  pose proof (step_orderly host op s) as K.
  destruct op; try (apply (K T); assumption).
  cbn [step]. destruct (find (fun u => tid u =? id) (timers s)) as [u|] eqn:F; [|exact Hin].
  apply find_some in F. destruct F as [_ F]. apply Nat.eqb_eq in F.
  apply (fire_tidy host u now T); [exact Hin | exact Hk |].
  intro E. apply (Hop now). congruence.
Qed.

(** X13.  [destroy] does not stop a scheduled reconnection: its timer is
    still live afterwards, and when it fires the destroyed instance
    constructs a socket for the configured URL and is [CONNECTING] again. *)
Theorem destroy_does_not_stop_a_scheduled_reconnection
  (opts : SupaSocketOptions) (ops : list Op) (t : Timer) (now : Z) :
  let s := run host ops (constructor host opts) in
  In t (timers s) ->
  kind t = ReconnectDelayT ->
  construct_throws host (url (options s)) = false ->
  let s1 := step host CallDestroy s in
  let s2 := step host (TimerFired (tid t) now) s1 in
  In t (timers s1) /\
  connectionState s1 = CLOSED /\
  connectionState s2 = CONNECTING /\
  ws s2 = Some WS_CONNECTING /\
  sockets (trace s2) = sockets (trace s1) ++ [url (options s)].
Proof.
  cbv zeta. intros Hin Hk Hc.
  pose proof (reachable_tidy host opts ops) as T.
  set (s := run host ops (constructor host opts)) in *.
  destruct (step_orderly host CallDestroy s T) as [T1 R1].
  assert (O1 : options (step host CallDestroy s) = options s).
  { assert (K : keeps (same options) (destroy host)) by frame. apply K. }
  assert (S1 : connectionState (step host CallDestroy s) = CLOSED).
  { cbn [step]. unfold destroy. rewrite exec_get.
    assert (Rw : returns (when (is_some (ws s))
                            (try_catch (ws_close None None) (fun _ => ret tt) ;;
                             modify (set_ws None)))) by returns_tac.
    rewrite (exec_seq _ s Rw).
    rewrite (exec_seq _ _ returns_clearHeartbeatTimers).
    rewrite (exec_seq _ _ returns_clearConnectionTimeout).
    unfold clearAllListeners. rewrite exec_modify.
    rewrite (exec_seq _ _ (returns_set_state host CLOSED)).
    apply (set_state_state host). }
  set (s1 := step host CallDestroy s) in *.
  specialize (R1 t Hin Hk).
  split; [exact R1|]. split; [exact S1|].
  cbn [step]. rewrite (@find_by_tid (timers s1) t (proj1 T1) R1).
  unfold fire. rewrite Hk. cbn [one_shot when]. rewrite exec_modify.
  set (s1' := set_timers _ s1).
  destruct (connect_effect host s1') as [_ [_ C]].
  change (options s1') with (options s1) in C. rewrite O1, Hc in C.
  destruct C as [Cw [Cs [_ [Cst _]]]].
  split; [exact Cst|]. split; [exact Cw|]. exact Cs.
Qed.

End ScheduledReconnections.

(** The transport of a new instance closes: a reconnection is scheduled
    (timer 1); then [destroy] is called. *)
Lemma a_scheduled_reconnection_is_never_cancelled_witness :
  let s := run calm_host [TransportClose 1006 ""] (constructor calm_host default_options) in
  let t := {| tid := 1; kind := ReconnectDelayT; delay := 5000 |} in
  In t (timers s) /\ In t (timers (step calm_host CallDestroy s)).
Proof.
  cbv zeta.
  assert (H : In {| tid := 1; kind := ReconnectDelayT; delay := 5000 |}
                 (timers (run calm_host [TransportClose 1006 ""]
                            (constructor calm_host default_options))))
    by (vm_compute; left; reflexivity).
  split; [exact H|].
  apply (@a_scheduled_reconnection_is_never_cancelled calm_host default_options
           [TransportClose 1006 ""] CallDestroy
           {| tid := 1; kind := ReconnectDelayT; delay := 5000 |} H eq_refl).
  intros now E. discriminate E.
Defined.

Lemma destroy_does_not_stop_a_scheduled_reconnection_witness :
  let s := run calm_host [TransportClose 1006 ""] (constructor calm_host default_options) in
  let t := {| tid := 1; kind := ReconnectDelayT; delay := 5000 |} in
  In t (timers s) /\
  connectionState (step calm_host (TimerFired 1 0) (step calm_host CallDestroy s)) = CONNECTING.
Proof.
  cbv zeta.
  assert (H : In {| tid := 1; kind := ReconnectDelayT; delay := 5000 |}
                 (timers (run calm_host [TransportClose 1006 ""]
                            (constructor calm_host default_options))))
    by (vm_compute; left; reflexivity).
  split; [exact H|].
  assert (C : construct_throws calm_host
                (url (options (run calm_host [TransportClose 1006 ""]
                                 (constructor calm_host default_options)))) = false)
    by (vm_compute; reflexivity).
  exact (proj1 (proj2 (proj2
    (@destroy_does_not_stop_a_scheduled_reconnection calm_host default_options
       [TransportClose 1006 ""] {| tid := 1; kind := ReconnectDelayT; delay := 5000 |} 0%Z
       H eq_refl C)))).
Defined.

(** * The queue across a connection attempt *)

Section QueueDrain.

Variable host : Host.

Lemma run_sends payloads : forall s,
  run host (map CallSend payloads) s = exec (send_each host payloads) s.
Proof.
  induction payloads as [|d l IH]; intro s; [reflexivity|].
  cbn [map run fold_left]. fold (run host (map CallSend l) (step host (CallSend d) s)).
  rewrite IH. cbn [step]. unfold send_each. cbn [forEach].
  rewrite (exec_seq _ s (returns_send_once host d)), exec_send_once. reflexivity.
Qed.


End QueueDrain.



(** * More on [connect], the pong test and the ping *)

Section ConnectTheorem.

Variable host : Host.

(** X14.  [connect] never throws.  When the [WebSocket] constructor
    returns, one socket is constructed for the configured URL and held, the
    state is [CONNECTING], [explicitClose] is off, the attempt counters are
    as before and the connection timeout is armed exactly when
    [connectionTimeout] is positive.  When the constructor throws, no
    socket is constructed, [this.ws] keeps what it held, one [error] event
    of type [initError] is published, and the state is [RECONNECTING] when
    [autoReconnect] is on and the attempt limit is not reached, [CLOSED]
    otherwise. *)
Theorem connect_constructs_a_socket_or_reports (s : SupaSocket) :
  let s' := exec (connect host) s in
  result (connect host) s = Returned tt /\
  options s' = options s /\
  if construct_throws host (url (options s))
  then ws s' = ws s /\
       sockets (trace s') = sockets (trace s) /\
       errors (trace s')
       = errors (trace s) ++ [(Named "error", initError, ConstructFailure, None)] /\
       state_of s'
       = (if autoReconnect (options s)
             && negb (limit_reached (options s) (reconnectCount s))
          then RECONNECTING else CLOSED)
  else ws s' = Some WS_CONNECTING /\
       sockets (trace s') = sockets (trace s) ++ [url (options s)] /\
       errors (trace s') = errors (trace s) /\
       state_of s' = CONNECTING /\
       explicitClose s' = false /\
       counters s' = counters s /\
       match positive (connectionTimeout (options s)) with
       | Some timeout =>
           exists id, connectionTimeoutTimer s' = Some id /\
                      In {| tid := id; kind := ConnectionTimeoutT; delay := timeout |}
                         (timers s')
       | None => connectionTimeoutTimer s' = None
       end.
Proof. exact (connect_effect host s). Qed.

End ConnectTheorem.

Lemma every_thrown keys test e :
  every keys test = Thrown e -> exists key, In key keys /\ test key = Thrown e.
Proof.
  induction keys as [|k rest IH]; simpl; [discriminate|].
  destruct (test k) as [[|]|e'] eqn:T; intro H.
  - destruct (IH H) as [key [Hin Hk]]. exists key. auto.
  - discriminate H.
  - injection H as ->. exists k. auto.
Qed.

Lemma get_prop_thrown d key e :
  get_prop d key = Thrown e <-> e = TypeError /\ (d = VNull \/ d = VUndefined).
Proof.
  split.
  - destruct d; simpl; intro H; try discriminate H.
    + injection H as <-. auto.
    + injection H as <-. auto.
    + destruct (lookup_field key fields); discriminate H.
  - intros [-> [ -> | -> ]]; reflexivity.
Qed.

Lemma pong_key_matches_thrown d pm key e :
  truthy pm = true ->
  pong_key_matches d pm key = Thrown e ->
  e = TypeError /\ (d = VNull \/ d = VUndefined).
Proof.
  intros T. unfold pong_key_matches.
  destruct (get_prop d key) as [v|e'] eqn:G.
  - destruct (negb (is_undefined v)); [|discriminate].
    destruct (get_prop pm key) as [p|e''] eqn:P; [discriminate|].
    apply get_prop_thrown in P. destruct P as [_ [ -> | -> ]]; discriminate T.
  - intro H. injection H as ->. apply get_prop_thrown in G. exact G.
Qed.

Section PongThrows.

Variable host : Host.

(** X15.  The pong test throws only a [TypeError], and exactly when a
    structured pong template with at least one key is configured and the
    payload is a text whose JSON decoding is [null] (or [undefined]); in
    every other case it answers [true] or [false]. *)
Theorem pong_test_throws_only_on_a_null_decoding
  (opts : SupaSocketOptions) (data : JsValue) (e : Exn) :
  isPongMessage host opts data = Thrown e <->
  e = TypeError /\
  structured (pongMessage opts) = true /\
  object_keys (pongMessage opts) <> [] /\
  (decoded host data = Some VNull \/ decoded host data = Some VUndefined).
Proof.
  unfold isPongMessage, decoded, structured.
  destruct (truthy data) eqn:T; simpl.
  2:{ split; [discriminate | intros [_ [_ [_ [H|H]]]]; discriminate H]. }
  set (parsed := match data with VStr s => JSON_parse host s | _ => Some data end).
  destruct parsed as [d|].
  2:{ split; [discriminate | intros [_ [_ [_ [H|H]]]]; discriminate H]. }
  destruct (truthy (pongMessage opts)) eqn:Tp; simpl.
  2:{ split.
      - destruct (truthy d && is_object_type d) eqn:D; [|discriminate].
        destruct (get_prop d "type") as [t|e'] eqn:G; [discriminate|].
        apply get_prop_thrown in G. destruct G as [_ [ -> | -> ]]; discriminate D.
      - intros [_ [H _]]. discriminate H. }
  destruct (is_object_type (pongMessage opts)) eqn:Op.
  - split.
    + intro H. apply every_thrown in H. destruct H as [key [Hin H]].
      apply (@pong_key_matches_thrown d (pongMessage opts) key e Tp) in H. destruct H as [-> H].
      split; [reflexivity|]. split; [reflexivity|]. split.
      * intro E. rewrite E in Hin. destruct Hin.
      * destruct H as [ -> | -> ]; auto.
    + intros [-> [_ [K H]]].
      destruct (object_keys (pongMessage opts)) as [|k rest]; [destruct (K eq_refl)|].
      destruct H as [H|H]; injection H as ->; reflexivity.
  - split.
    + destruct (truthy d && is_object_type d) eqn:D; [|discriminate].
      destruct (get_prop d "type") as [t|e'] eqn:G; [discriminate|].
      apply get_prop_thrown in G. destruct G as [_ [ -> | -> ]]; discriminate D.
    + intros [_ [H _]]. discriminate H.
Qed.

End PongThrows.

Lemma lookup_set_field_same k v fields : lookup_field k (set_field k v fields) = Some v.
Proof.
  unfold set_field. destruct (is_some (lookup_field k fields)) eqn:E.
  - induction fields as [|[k' v'] rest IH]; simpl in *; [discriminate E|].
    destruct (k' =? k)%string eqn:Q; simpl.
    + rewrite String.eqb_refl. reflexivity.
    + rewrite Q. apply IH, E.
  - induction fields as [|[k' v'] rest IH]; simpl in *.
    + rewrite String.eqb_refl. reflexivity.
    + destruct (k' =? k)%string eqn:Q; [discriminate E | apply IH, E].
Qed.

Lemma lookup_set_field_other k key v fields :
  key <> k -> lookup_field key (set_field k v fields) = lookup_field key fields.
Proof.
  intro N. unfold set_field. destruct (is_some (lookup_field k fields)).
  - induction fields as [|[k' v'] rest IH]; simpl; [reflexivity|].
    destruct (k' =? k)%string eqn:Q; simpl.
    + apply String.eqb_eq in Q. subst k'.
      destruct (k =? key)%string eqn:Q'; [|exact IH].
      apply String.eqb_eq in Q'. congruence.
    + rewrite IH. reflexivity.
  - induction fields as [|[k' v'] rest IH]; simpl.
    + destruct (k =? key)%string eqn:Q'; [|reflexivity].
      apply String.eqb_eq in Q'. congruence.
    + rewrite IH. reflexivity.
Qed.

Lemma keys_set_field k v fields :
  map fst (set_field k v fields)
  = if is_some (lookup_field k fields) then map fst fields else map fst fields ++ [k].
Proof.
  unfold set_field. destruct (is_some (lookup_field k fields)).
  - induction fields as [|[k' v'] rest IH]; simpl; [reflexivity|].
    rewrite IH. destruct (k' =? k)%string eqn:Q; simpl; [|reflexivity].
    apply String.eqb_eq in Q. rewrite Q. reflexivity.
  - rewrite map_app. reflexivity.
Qed.

(** * The heartbeat tick *)

Section HeartbeatTick.

Variable host : Host.

Lemma startHeartbeatTimeout_sent :
  keeps (same (fun s => sent (trace s))) startHeartbeatTimeout.
Proof. unfold sent. frame. Qed.

Lemma startHeartbeatTimeout_arms s :
  let s' := exec startHeartbeatTimeout s in
  match positive (heartbeatTimeout (options s)) with
  | Some timeout =>
      exists id, heartbeatTimeoutTimer s' = Some id /\
                 In {| tid := id; kind := HeartbeatTimeoutT; delay := timeout |} (timers s')
  | None => heartbeatTimeoutTimer s' = heartbeatTimeoutTimer s
  end.
Proof.
  cbv zeta. unfold startHeartbeatTimeout. rewrite exec_get.
  set (s1 := exec (match heartbeatTimeoutTimer s with
                   | Some t => clearTimer t
                   | None => ret tt
                   end) s).
  assert (E : exec ((match heartbeatTimeoutTimer s with
                     | Some t => clearTimer t
                     | None => ret tt
                     end) ;;
                    s0 <- get ;;
                    match positive (heartbeatTimeout (options s0)) with
                    | None => ret tt
                    | Some timeout =>
                        t <- setTimer HeartbeatTimeoutT timeout ;;
                        modify (set_heartbeatTimeoutTimer (Some t))
                    end) s
              = exec (match positive (heartbeatTimeout (options s)) with
                      | None => ret tt
                      | Some timeout =>
                          t <- setTimer HeartbeatTimeoutT timeout ;;
                          modify (set_heartbeatTimeoutTimer (Some t))
                      end) s1).
  { unfold s1. destruct (heartbeatTimeoutTimer s); reflexivity. }
  rewrite E. destruct (positive (heartbeatTimeout (options s))) as [d|].
  - exists (nextId s1). split; [reflexivity|].
    change (In {| tid := nextId s1; kind := HeartbeatTimeoutT; delay := d |}
               (timers s1 ++ [{| tid := nextId s1; kind := HeartbeatTimeoutT; delay := d |}])).
    apply in_or_app. right. left. reflexivity.
  - change (exec (ret tt) s1) with s1. unfold s1.
    destruct (heartbeatTimeoutTimer s) eqn:H; [|exact H].
    rewrite exec_clearTimer. exact H.
Qed.

(** X16.  A heartbeat tick on an open transport, with an object as
    [pingMessage]: what is sent is the serialization of the ping object
    with its [time] set to the current time and its other fields as
    configured ([time] keeps its place among the keys, or comes last when
    it is new); then the heartbeat-timeout timer is set and held when
    [heartbeatTimeout] is positive, and the field is left as it was when it
    is not. *)
Theorem heartbeat_tick_sends_the_ping_with_the_time
  (s : SupaSocket) (fields : list (string * JsValue)) (now : Z) :
  pingMessage (options s) = VObj fields ->
  transport_open s = true ->
  let ping := spread_with_time (VObj fields) now in
  let s' := exec (onHeartbeat host now) s in
  get_prop ping "time" = Returned (VNum now) /\
  (forall key, key <> "time"%string -> get_prop ping key = get_prop (VObj fields) key) /\
  object_keys ping
  = (if is_some (lookup_field "time" fields) then map fst fields
     else map fst fields ++ ["time"%string]) /\
  sent (trace s') = sent (trace s) ++ transmitted host ping /\
  match positive (heartbeatTimeout (options s)) with
  | Some timeout =>
      exists id, heartbeatTimeoutTimer s' = Some id /\
                 In {| tid := id; kind := HeartbeatTimeoutT; delay := timeout |} (timers s')
  | None => heartbeatTimeoutTimer s' = heartbeatTimeoutTimer s
  end.
Proof.
  intros P H. cbv zeta.
  split; [simpl; rewrite lookup_set_field_same; reflexivity|].
  split; [intros key N; simpl; rewrite (lookup_set_field_other _ _ N); reflexivity|].
  split; [apply keys_set_field|].
  unfold onHeartbeat. rewrite exec_get. cbv zeta. rewrite P.
  cbn [is_object_type typeof is_null negb andb].
  rewrite exec_bind.
  destruct (returns_send host (spread_with_time (VObj fields) now) s) as [b ->].
  destruct (send_open host (spread_with_time (VObj fields) now) s H) as [C [S _]].
  set (s1 := exec (send host (spread_with_time (VObj fields) now)) s) in *.
  split.
  - rewrite (startHeartbeatTimeout_sent s1). exact S.
  - pose proof (startHeartbeatTimeout_arms s1) as A. cbv zeta in A.
    unfold core in C. injection C as Ca Cb Cc Cd Ce Cf Cg Ch Ci Cj Ck Cl Cm.
    rewrite Ck, Cd in A. exact A.
Qed.

End HeartbeatTick.

(** The instance of the examples once its socket is open, at time 42. *)
Lemma heartbeat_tick_sends_the_ping_with_the_time_witness :
  let s := run plain_host [TransportOpen] (constructor plain_host default_options) in
  pingMessage (options s)
  = VObj [("type"%string, VStr "ping"); ("time"%string, VNum 0)] /\
  transport_open s = true /\
  get_prop (spread_with_time (pingMessage (options s)) 42) "time" = Returned (VNum 42) /\
  sent (trace (exec (onHeartbeat plain_host 42) s)) = sent (trace s) ++ [MText "ping"].
Proof.
  cbv zeta.
  assert (P : pingMessage (options (run plain_host [TransportOpen]
                                      (constructor plain_host default_options)))
              = VObj [("type"%string, VStr "ping"); ("time"%string, VNum 0)])
    by (vm_compute; reflexivity).
  assert (H : transport_open (run plain_host [TransportOpen]
                                (constructor plain_host default_options)) = true)
    by (vm_compute; reflexivity).
  split; [exact P|]. split; [exact H|].
  destruct (@heartbeat_tick_sends_the_ping_with_the_time plain_host _ _ 42%Z P H)
    as [T [_ [_ [S _]]]].
  split; [rewrite P; exact T | exact S].
Defined.

(** * Removing a status observer *)

Section RemoveObserver.

Variable host : Host.

(** X17.  [removeStatusChangeCallback(callback)] removes every
    registration of the callback and keeps the other observers in their
    order; the next change of state notifies exactly those, and the
    removed callback is not among them. *)
Theorem removed_observer_is_not_notified
  (s : SupaSocket) (cb : StatusChangeCallback) (newState : ConnectionState) :
  let kept := filter (fun c => negb (observer_eqb c cb))
                     (statusChangeCallbacks (connectionManager s)) in
  let s1 := exec (removeStatusChangeCallback cb) s in
  let s' := exec (set_state host newState) s1 in
  state_of s1 = state_of s /\
  statusChangeCallbacks (connectionManager s1) = kept /\
  ~ In cb kept /\
  if state_eqb (state_of s) newState then s' = s1
  else notifications (trace s')
       = notifications (trace s) ++ map (fun c => (c, newState, state_of s)) kept.
Proof.
  cbv zeta. split; [reflexivity|]. split; [reflexivity|]. split.
  - intro H. apply filter_In in H. destruct H as [_ H].
    destruct cb; simpl in H; [discriminate H|]. rewrite Nat.eqb_refl in H. discriminate H.
  - destruct (set_state_effect host (exec (removeStatusChangeCallback cb) s) newState)
      as [_ E].
    change (state_of (exec (removeStatusChangeCallback cb) s)) with (state_of s) in E.
    destruct (state_eqb (state_of s) newState); [exact E|].
    destruct E as [_ [_ E]]. exact E.
Qed.

End RemoveObserver.

(** * After [close] *)

#[export] Instance after_close_PreOrder : PreOrder after_close.
Proof.
  split.
  - intros s H. repeat split; auto.
  - intros s1 s2 s3 H12 H23 H. destruct (H12 H) as [A [V S]].
    destruct (H23 A) as [A' [V' S']].
    split; [exact A'|]. split; [congruence | auto].
Qed.

Ltac after_close_leaf :=
  unfold after_close, attempt_view, state_of, reconnect_delays, failures; project;
  let H := fresh "H" in
  intro H; rewrite ?flat_map_app; simpl; rewrite ?app_nil_r;
  repeat split;
  first [ assumption | reflexivity
        | let E := fresh "E" in intro E; first [ exact E | discriminate E ] ].

Section AfterClose.

Variable host : Host.

Lemma onclose_tail_after_close :
  keeps after_close
    (s <- get ;;
     when (negb (explicitClose s) && autoReconnect (options s)) (performReconnect host)).
Proof.
  intros s H. rewrite exec_get, H. cbn [negb andb when].
  change (exec (ret tt) s) with s. repeat split; auto.
Qed.

#[local] Hint Resolve onclose_tail_after_close : keeps.

Lemma onclose_after_close event : keeps after_close (onclose host event).
Proof. keeps_with after_close_leaf. Qed.

Lemma close_attempt_view code reason :
  keeps (same (fun s => (options s, reconnectCount s, currentBackoff s,
                         reconnect_delays (trace s), failures (trace s), messageQueue s)))
        (close host code reason).
Proof. unfold reconnect_delays, failures. frame. Qed.

Lemma close_state code reason s :
  state_of (exec (close host code reason) s) = CLOSED /\
  explicitClose (exec (close host code reason) s) = true.
Proof.
  unfold close. rewrite exec_modify, exec_get.
  set (s0 := set_explicitClose true s).
  assert (R : returns (when (is_some (ws s0))
                         (set_state host CLOSING ;;
                          clearHeartbeatTimers ;;
                          try_catch (ws_close code reason) (fun _ => ret tt))))
    by returns_tac.
  rewrite (exec_seq _ s0 R).
  split; [apply (set_state_state host)|].
  assert (K : keeps (same explicitClose)
                (when (is_some (ws s0))
                   (set_state host CLOSING ;;
                    clearHeartbeatTimers ;;
                    try_catch (ws_close code reason) (fun _ => ret tt)) ;;
                 set_state host CLOSED)) by frame.
  rewrite <- (exec_seq _ s0 R). rewrite (K s0). reflexivity.
Qed.

(** X18.  [close] never throws and leaves the state [CLOSED], the
    explicit-close mark set, the queue and the reconnect context as they
    were; the close event of the transport that follows schedules no
    reconnection, counts no attempt and publishes no [reconnectFailed],
    whatever the options. *)
Theorem close_is_not_followed_by_a_reconnection
  (s : SupaSocket) (code : option Z) (reason : option string) (c : Z) (r : string) :
  let s1 := step host (CallClose code reason) s in
  let s2 := step host (TransportClose c r) s1 in
  result (close host code reason) s = Returned tt /\
  state_of s1 = CLOSED /\
  explicitClose s1 = true /\
  messageQueue s1 = messageQueue s /\
  state_of s2 = CLOSED /\
  explicitClose s2 = true /\
  counters s2 = counters s /\
  reconnect_delays (trace s2) = reconnect_delays (trace s) /\
  failures (trace s2) = failures (trace s).
Proof.
  cbv zeta. cbn [step].
  destruct (close_state code reason s) as [St Ex].
  pose proof (close_attempt_view code reason s) as V. unfold same in V.
  set (s1 := exec (close host code reason) s) in *.
  injection V as Vo Vc Vb Vd Vf Vq.
  split; [apply returns_unit, returns_close|].
  split; [exact St|]. split; [exact Ex|]. split; [exact Vq|].
  assert (Ex' : explicitClose (ready WS_CLOSED s1) = true)
    by (unfold ready; destruct (ws s1); exact Ex).
  destruct (onclose_after_close (CloseEvent c r) (ready WS_CLOSED s1) Ex') as [A [W S]].
  assert (St' : state_of (ready WS_CLOSED s1) = CLOSED)
    by (unfold ready; destruct (ws s1); exact St).
  assert (W' : attempt_view (ready WS_CLOSED s1) = attempt_view s1)
    by (unfold ready; destruct (ws s1); reflexivity).
  rewrite W' in W. unfold attempt_view in W.
  injection W as Wo Wc Wb We Wd Wf.
  split; [exact (S St')|]. split; [exact A|].
  unfold counters. repeat split; congruence.
Qed.

End AfterClose.

(** * A connection attempt that fails *)

Lemma limit_reached_earlier opts n :
  limit_reached opts (S n) = false -> limit_reached opts n = false.
Proof.
  unfold limit_reached. intro H.
  destruct (Qle_bool (or_default (reconnectLimit opts) 5) (inject_Z (Z.of_nat n))) eqn:E;
    [|reflexivity].
  apply Qle_bool_iff in E.
  assert (L : or_default (reconnectLimit opts) 5 <= inject_Z (Z.of_nat (S n))).
  { eapply Qle_trans; [exact E|]. rewrite <- Zle_Qle. lia. }
  apply Qle_bool_iff in L. congruence.
Qed.

Section FailedAttempt.

Variable host : Host.

Hypothesis host_calm : calm host.

Lemma returns_call_option f arg : returns (call_option host f arg).
Proof.
  intro s. destruct f as [g|]; [|exists tt; reflexivity].
  exists tt. cbn [call_option]. rewrite (proj2 (call_user_effect host g arg s)).
  rewrite host_calm. reflexivity.
Qed.

Lemma onerror_head event :
  keeps (same (fun s => (ws s, attempt_view s)))
    (s <- get ;;
     call_option host (onError (options s)) (PEvent event) ;;
     emit host (Named "error") (PEvent event)).
Proof. unfold attempt_view, reconnect_delays, failures. frame. Qed.

Lemma returns_onerror_head event :
  returns (s <- get ;;
           call_option host (onError (options s)) (PEvent event) ;;
           emit host (Named "error") (PEvent event)).
Proof.
  apply returns_bind; [apply returns_get | intro].
  apply returns_bind; [apply returns_call_option | intro; apply returns_emit].
Qed.

Lemma onclose_head event :
  keeps (same attempt_view)
    (clearConnectionTimeout ;;
     set_state host CLOSED ;;
     clearHeartbeatTimers ;;
     s <- get ;;
     call_option host (onClose (options s)) (PEvent event) ;;
     emit host (Named "close") (PEvent event)).
Proof. unfold attempt_view, reconnect_delays, failures. frame. Qed.

Lemma returns_onclose_head event :
  returns (clearConnectionTimeout ;;
           set_state host CLOSED ;;
           clearHeartbeatTimers ;;
           s <- get ;;
           call_option host (onClose (options s)) (PEvent event) ;;
           emit host (Named "close") (PEvent event)).
Proof.
  apply returns_bind; [apply returns_clearConnectionTimeout | intro].
  apply returns_bind; [apply returns_set_state | intro].
  apply returns_bind; [apply returns_clearHeartbeatTimers | intro].
  apply returns_bind; [apply returns_get | intro].
  apply returns_bind; [apply returns_call_option | intro; apply returns_emit].
Qed.

(** The error of a connecting socket: the socket is dropped and one
    attempt is counted. *)
Lemma onerror_attempt event s :
  transport_connecting s = true ->
  retryOnError (options s) = true ->
  autoReconnect (options s) = true ->
  limit_reached (options s) (reconnectCount s) = false ->
  let s' := exec (onerror host event) s in
  ws s' = None /\
  options s' = options s /\
  explicitClose s' = explicitClose s /\
  reconnectCount s' = S (reconnectCount s) /\
  currentBackoff s' = S (currentBackoff s) /\
  reconnect_delays (trace s')
  = reconnect_delays (trace s) ++ [backoff_delay (options s) (currentBackoff s)].
Proof.
  intros Hc Hr Ha Hl. cbv zeta.
  set (head := (s <- get ;;
                call_option host (onError (options s)) (PEvent event) ;;
                emit host (Named "error") (PEvent event))).
  assert (E : exec (onerror host event) s
              = exec (s <- get ;;
                      when (transport_connecting s && retryOnError (options s))
                           (handleConnectionFailure host))
                  (exec head s)).
  { rewrite <- (exec_seq _ s (returns_onerror_head event)). unfold head, onerror.
    unfold exec, bind, get. simpl.
    destruct (call_option host (onError (options s)) (PEvent event) s) as [[[]|e] s1];
      [|reflexivity].
    destruct (emit host (Named "error") (PEvent event) s1) as [[[]|e] s2]; reflexivity. }
  rewrite E. pose proof (onerror_head event s) as V. fold head in V.
  set (s1 := exec head s) in *. unfold same, attempt_view in V.
  injection V as Vw Vo Vc Vb Ve Vd Vf.
  rewrite exec_get. unfold transport_connecting in *. rewrite Vw, Vo, Hr.
  destruct (ws s) as [[]|]; try discriminate Hc. cbn [andb when].
  unfold handleConnectionFailure. rewrite exec_modify, exec_get.
  change (options (set_ws None s1)) with (options s1). rewrite Vo, Ha.
  assert (Hl' : limit_reached (options (set_ws None s1)) (reconnectCount (set_ws None s1))
                = false).
  { change (limit_reached (options s1) (reconnectCount s1) = false).
    rewrite Vo, Vc. exact Hl. }
  destruct (performReconnect_attempt host (set_ws None s1) Hl')
    as [_ [Rc [Rb [Ro [Rw [_ [Rd _]]]]]]].
  injection Rw as Rw _ Rx.
  change (options (set_ws None s1)) with (options s1) in *.
  change (reconnectCount (set_ws None s1)) with (reconnectCount s1) in *.
  change (currentBackoff (set_ws None s1)) with (currentBackoff s1) in *.
  change (trace (set_ws None s1)) with (trace s1) in *.
  change (explicitClose (set_ws None s1)) with (explicitClose s1) in *.
  change (ws (set_ws None s1)) with (@None ReadyState) in *.
  repeat split; first [ congruence | rewrite Rd, Vo, Vb, Vd; reflexivity ].
Qed.

(** The close of the transport on an instance that was not closed
    explicitly: one attempt is counted. *)
Lemma onclose_attempt event s :
  explicitClose s = false ->
  autoReconnect (options s) = true ->
  limit_reached (options s) (reconnectCount s) = false ->
  let s' := exec (onclose host event) s in
  options s' = options s /\
  reconnectCount s' = S (reconnectCount s) /\
  currentBackoff s' = S (currentBackoff s) /\
  reconnect_delays (trace s')
  = reconnect_delays (trace s) ++ [backoff_delay (options s) (currentBackoff s)].
Proof.
  intros Hx Ha Hl. cbv zeta.
  set (head := (clearConnectionTimeout ;;
                set_state host CLOSED ;;
                clearHeartbeatTimers ;;
                s <- get ;;
                call_option host (onClose (options s)) (PEvent event) ;;
                emit host (Named "close") (PEvent event))).
  assert (E : exec (onclose host event) s
              = exec (s <- get ;;
                      when (negb (explicitClose s) && autoReconnect (options s))
                           (performReconnect host))
                  (exec head s)).
  { rewrite <- (exec_seq _ s (returns_onclose_head event)). unfold head, onclose.
    unfold exec, bind, get. simpl.
    destruct (clearConnectionTimeout s) as [[[]|e] s1]; [|reflexivity].
    destruct (set_state host CLOSED s1) as [[[]|e] s2]; [|reflexivity].
    destruct (clearHeartbeatTimers s2) as [[[]|e] s3]; [|reflexivity].
    destruct (call_option host (onClose (options s3)) (PEvent event) s3) as [[[]|e] s4];
      [|reflexivity].
    destruct (emit host (Named "close") (PEvent event) s4) as [[[]|e] s5]; reflexivity. }
  rewrite E. pose proof (onclose_head event s) as V. fold head in V.
  set (s1 := exec head s) in *. unfold same, attempt_view in V.
  injection V as Vo Vc Vb Ve Vd Vf.
  rewrite exec_get, Ve, Vo, Hx, Ha. cbn [negb andb when].
  assert (Hl' : limit_reached (options s1) (reconnectCount s1) = false)
    by (rewrite Vo, Vc; exact Hl).
  destruct (performReconnect_attempt host s1 Hl') as [_ [Rc [Rb [Ro [_ [_ [Rd _]]]]]]].
  repeat split; first [ congruence | rewrite Rd, Vo, Vb, Vd; reflexivity ].
Qed.


End FailedAttempt.


(** * [destroy] *)

Lemma calls_app t t' : calls (t ++ t') = calls t ++ calls t'.
Proof. apply flat_map_app. Qed.

Section Destroy.

Variable host : Host.

Lemma set_state_observers n :
  keeps (same (fun s => statusChangeCallbacks (connectionManager s))) (set_state host n).
Proof.
  intro s. unfold same. destruct (set_state_effect host s n) as [_ E].
  destruct (state_eqb (state_of s) n); [rewrite E; reflexivity | apply E].
Qed.

#[local] Hint Resolve set_state_observers : keeps.

Lemma step_observers op s :
  same (fun s => statusChangeCallbacks (connectionManager s)) s (step host op s).
Proof. destruct op; by_operation frame; unfold ready; destruct (ws s); reflexivity. Qed.

Lemma reachable_observers opts ops :
  statusChangeCallbacks (connectionManager (run host ops (constructor host opts)))
  = [EngineObserver].
Proof.
  assert (C : statusChangeCallbacks (connectionManager (constructor host opts))
              = [EngineObserver]).
  { unfold constructor, onStatusChange_register. rewrite exec_modify.
    assert (K : keeps (same (fun s => statusChangeCallbacks (connectionManager s)))
                  (connect host)) by frame.
    rewrite K. reflexivity. }
  revert C. generalize (constructor host opts).
  induction ops as [|op ops IH]; intros s C; simpl; [exact C|].
  apply IH. rewrite (step_observers op s). exact C.
Qed.

(** A change of state when the engine's observer is the only one and no
    listener is registered: the only user function called is
    [options.onStatusChange]. *)
Lemma set_state_quiet n s :
  statusChangeCallbacks (connectionManager s) = [EngineObserver] ->
  eventBus s = [] ->
  let s' := exec (set_state host n) s in
  calls (trace s')
  = calls (trace s)
    ++ (if state_eqb (state_of s) n then []
        else match onStatusChange (options s) with
             | Some f => [(f, PStatusChange n (state_of s))]
             | None => []
             end) /\
  (ws s', heartbeatTimer s', heartbeatTimeoutTimer s', connectionTimeoutTimer s',
   eventBus s', messageQueue s', timers s', nextId s')
  = (ws s, heartbeatTimer s, heartbeatTimeoutTimer s, connectionTimeoutTimer s,
     [], messageQueue s, timers s, nextId s).
Proof.
  intros Ho Hb. cbv zeta. unfold set_state, state_of. rewrite exec_get. cbv zeta.
  destruct (state_eqb (_state (connectionManager s)) n).
  - change (exec (ret tt) s) with s. rewrite app_nil_r, Hb. split; reflexivity.
  - rewrite exec_modify, Ho. cbn [forEach].
    unfold invoke_observer, emit, log, call_option.
    destruct (onStatusChange (options s)) as [f|] eqn:Of.
    + unfold call_user, exec, bind, try_catch, get, modify, throw, ret. simpl.
      rewrite Of. simpl.
      destruct (fn_throws host f _); simpl; rewrite ?Hb; simpl;
        rewrite !calls_app; simpl; rewrite ?app_nil_r, ?Hb; split; reflexivity.
    + unfold exec, bind, try_catch, get, modify, throw, ret. simpl.
      rewrite Of. simpl. rewrite ?Hb. simpl.
      rewrite !calls_app. simpl. rewrite ?app_nil_r, ?Hb. split; reflexivity.
Qed.

Lemma clearHeartbeatTimers_fields s :
  let s' := exec clearHeartbeatTimers s in
  heartbeatTimer s' = None /\ heartbeatTimeoutTimer s' = None /\ ws s' = ws s.
Proof.
  cbv zeta. unfold clearHeartbeatTimers. rewrite exec_get.
  destruct (heartbeatTimer s) eqn:A; destruct (heartbeatTimeoutTimer s) eqn:B;
    unfold exec, bind, clearTimer, log, get, modify, ret; simpl;
    rewrite ?A, ?B; simpl; rewrite ?A, ?B; repeat split; reflexivity.
Qed.

Lemma clearConnectionTimeout_fields s :
  let s' := exec clearConnectionTimeout s in
  connectionTimeoutTimer s' = None /\
  (heartbeatTimer s', heartbeatTimeoutTimer s', ws s')
  = (heartbeatTimer s, heartbeatTimeoutTimer s, ws s).
Proof.
  cbv zeta. unfold clearConnectionTimeout. rewrite exec_get.
  destruct (connectionTimeoutTimer s) eqn:A; [split; reflexivity|].
  change (exec (ret tt) s) with s. split; [exact A | reflexivity].
Qed.

(** X20.  [destroy] on an instance made by the constructor and driven by
    any operations never throws; afterwards [this.ws] is [null], no
    listener is registered, the queue is empty, the state is [CLOSED], the
    three timer fields are empty and the only timers that can still be live
    are those of scheduled reconnections.  The listeners are dropped before
    the state changes: the only user function [destroy] calls is
    [options.onStatusChange], once, when the state was not [CLOSED]
    already. *)
Theorem destroy_releases_all_but_scheduled_reconnections
  (opts : SupaSocketOptions) (ops : list Op) :
  let s := run host ops (constructor host opts) in
  let s' := step host CallDestroy s in
  result (destroy host) s = Returned tt /\
  ws s' = None /\
  events s' = [] /\
  messageQueue s' = [] /\
  connectionState s' = CLOSED /\
  (heartbeatTimer s', heartbeatTimeoutTimer s', connectionTimeoutTimer s')
  = (None, None, None) /\
  (forall t, In t (timers s') -> kind t = ReconnectDelayT) /\
  calls (trace s')
  = calls (trace s)
    ++ (if state_eqb (state_of s) CLOSED then []
        else match onStatusChange (options s) with
             | Some f => [(f, PStatusChange CLOSED (state_of s))]
             | None => []
             end).
Proof.
  cbv zeta.
  pose proof (reachable_observers opts ops) as Ho.
  pose proof (reachable_tidy host opts ops) as T.
  set (s := run host ops (constructor host opts)) in *.
  destruct (step_orderly host CallDestroy s T) as [T' _].
  split.
  { apply returns_unit. unfold destroy. returns_tac. }
  cbn [step] in *. unfold destroy in *. rewrite exec_get in *.
  set (first := when (is_some (ws s))
                  (try_catch (ws_close None None) (fun _ => ret tt) ;;
                   modify (set_ws None))) in *.
  assert (R1 : returns first) by (unfold first; returns_tac).
  rewrite (exec_seq _ s R1) in *.
  assert (W1 : ws (exec first s) = None).
  { unfold first. destruct (ws s) as [r|] eqn:W; cbn [is_some when].
    - rewrite (exec_seq _ s); [reflexivity | returns_tac].
    - exact W. }
  assert (V : (calls (trace (exec first s)), options (exec first s),
               connectionManager (exec first s))
              = (calls (trace s), options s, connectionManager s)).
  { assert (K : keeps (same (fun s => (calls (trace s), options s, connectionManager s)))
                  first) by (unfold first, calls; frame).
    apply K. }
  set (s1 := exec first s) in *.
  rewrite (exec_seq _ s1 returns_clearHeartbeatTimers) in *.
  destruct (clearHeartbeatTimers_fields s1) as [A2 [B2 W2]].
  assert (V2 : (calls (trace (exec clearHeartbeatTimers s1)),
                options (exec clearHeartbeatTimers s1),
                connectionManager (exec clearHeartbeatTimers s1))
               = (calls (trace s1), options s1, connectionManager s1)).
  { assert (K : keeps (same (fun s => (calls (trace s), options s, connectionManager s)))
                  clearHeartbeatTimers) by (unfold calls; frame).
    apply K. }
  set (s2 := exec clearHeartbeatTimers s1) in *.
  rewrite (exec_seq _ s2 returns_clearConnectionTimeout) in *.
  destruct (clearConnectionTimeout_fields s2) as [C3 F3].
  assert (V3 : (calls (trace (exec clearConnectionTimeout s2)),
                options (exec clearConnectionTimeout s2),
                connectionManager (exec clearConnectionTimeout s2))
               = (calls (trace s2), options s2, connectionManager s2)).
  { assert (K : keeps (same (fun s => (calls (trace s), options s, connectionManager s)))
                  clearConnectionTimeout) by (unfold calls; frame).
    apply K. }
  set (s3 := exec clearConnectionTimeout s2) in *.
  unfold clearAllListeners in *. rewrite exec_modify in *.
  set (s4 := set_eventBus [] s3) in *.
  rewrite (exec_seq _ s4 (returns_set_state host CLOSED)) in *.
  injection V as Vc Vo Vm. injection V2 as V2c V2o V2m. injection V3 as V3c V3o V3m.
  injection F3 as F3a F3b F3w.
  assert (Ho4 : statusChangeCallbacks (connectionManager s4) = [EngineObserver]).
  { change (connectionManager s4) with (connectionManager s3). congruence. }
  destruct (set_state_quiet CLOSED s4 Ho4 eq_refl) as [Q5 F5].
  pose proof (set_state_state host s4 CLOSED) as St5.
  set (s5 := exec (set_state host CLOSED) s4) in *.
  change (exec (modify (set_messageQueue [])) s5) with (set_messageQueue [] s5) in *.
  injection F5 as F5w F5a F5b F5c F5e F5q F5t F5n.
  unfold connectionState, events, state_of in *. project.
  change (ws s4) with (ws s3) in *. change (heartbeatTimer s4) with (heartbeatTimer s3) in *.
  change (heartbeatTimeoutTimer s4) with (heartbeatTimeoutTimer s3) in *.
  change (connectionTimeoutTimer s4) with (connectionTimeoutTimer s3) in *.
  change (options s4) with (options s3) in *. change (trace s4) with (trace s3) in *.
  change (connectionManager s4) with (connectionManager s3) in *.
  assert (Fields : (heartbeatTimer s5, heartbeatTimeoutTimer s5, connectionTimeoutTimer s5)
                   = (@None nat, @None nat, @None nat)) by congruence.
  split; [congruence|]. split; [rewrite F5e; reflexivity|]. split; [reflexivity|].
  split; [exact St5|]. split; [exact Fields|]. split.
  - intros t Hin. destruct T' as [_ [_ [_ [O _]]]].
    injection Fields as Fa Fb Fc.
    destruct (kind t) eqn:K; try reflexivity; exfalso;
      specialize (O t Hin); rewrite K in O;
      specialize (O ltac:(discriminate));
      cbn [held connectionTimeoutTimer heartbeatTimer heartbeatTimeoutTimer
           set_messageQueue] in O;
      congruence.
  - rewrite Q5. f_equal; [congruence|]. rewrite V3m, V2m, Vm, V3o, V2o, Vo. reflexivity.
Qed.

End Destroy.

(** * [updateOptions] *)

Section UpdateOptions.

Variable host : Host.

Lemma startHeartbeat_arms s :
  let s' := exec startHeartbeat s in
  match positive (heartbeatInterval (options s)) with
  | Some interval =>
      exists id, heartbeatTimer s' = Some id /\
                 In {| tid := id; kind := HeartbeatIntervalT; delay := interval |} (timers s')
  | None => heartbeatTimer s' = None
  end.
Proof.
  cbv zeta. unfold startHeartbeat.
  rewrite (exec_seq _ s returns_clearHeartbeatTimers).
  destruct (clearHeartbeatTimers_fields s) as [A _].
  assert (O : options (exec clearHeartbeatTimers s) = options s).
  { assert (K : keeps (same options) clearHeartbeatTimers) by frame. apply K. }
  set (s1 := exec clearHeartbeatTimers s) in *.
  rewrite exec_get, O. destruct (positive (heartbeatInterval (options s))) as [d|].
  - exists (nextId s1). split; [reflexivity|].
    change (In {| tid := nextId s1; kind := HeartbeatIntervalT; delay := d |}
               (timers s1 ++ [{| tid := nextId s1; kind := HeartbeatIntervalT;
                                 delay := d |}])).
    apply in_or_app. right. left. reflexivity.
  - exact A.
Qed.

Lemma startHeartbeat_context :
  keeps (same (fun s => (sockets (trace s), ws s, connectionManager s, counters s, options s)))
        startHeartbeat.
Proof. unfold sockets, counters. frame. Qed.

Lemma closing_context (b : bool) :
  keeps (same (fun s => (sockets (trace s), options s)))
        (when b (try_catch (ws_close None None) (fun _ => ret tt))).
Proof. unfold sockets. frame. Qed.


End UpdateOptions.
